(** * substream-exchange: the root command and its per-block pipeline

    A shallow embedding of [cmd/substream-exchange/cli/root.go]: argument
    parsing and start-up ([runRoot], [loadStateFromDisk]), the subscription
    set-up ([setupSubscriptionHub], [setupPrintPairUpdates]) and the block
    handler built by [handlerFactory].

    The packages the file imports ([exchange], [state], [subscription],
    [indexer], [dstore], [bstream]) are taken as an interface, [Env]: every
    call goes through it, receives the state the Go callee can reach through
    its pointers and gives the state back.  Every call is also recorded in a
    log, so that the order of the calls can be stated. *)

From Stdlib Require Import ZArith String Ascii List Bool Lia.
From stdpp Require Import base gmap strings list fin_maps.

Local Open Scope string_scope.
Local Open Scope list_scope.
Local Open Scope Z_scope.

(** ** Machine integers *)

Module U64.
Definition modulus : Z := 2 ^ 64.
Definition max : Z := modulus - 1.

(** Conversion of any integer to [uint64]: Go keeps the low 64 bits. *)
Definition wrap (z : Z) : Z := z mod modulus.

(** [a + b] on [uint64]. *)
Definition add (a b : Z) : Z := wrap (a + b).

(** [a - b] on [uint64]. *)
Definition sub (a b : Z) : Z := wrap (a - b).

Definition in_range (z : Z) : Prop := 0 <= z < modulus.

End U64.

Module I64.
Definition min : Z := - 2 ^ 63.
Definition max : Z := 2 ^ 63 - 1.
Definition in_range (z : Z) : Prop := min <= z <= max.
End I64.

(** ** Errors

    Go's [error] values.  [fmt.Errorf] keeps its format and its operands;
    [ErrorfW] is a [fmt.Errorf] whose format ends in the verb [%w], with the
    error it wraps. *)

(** Operands of the verbs [%s] and [%d]. *)
Inductive operand : Type :=
| OpString (s : string)
| OpUint (n : Z).

Inductive error : Type :=
| io_EOF
| ErrSyntax (fn num : string)
| ErrRange (fn num : string)
| External (msg : string)
| Errorf (format : string) (operands : list operand)
| ErrorfW (format : string) (operands : list operand) (wrapped : error).

(** [errors.Unwrap]: only a [fmt.Errorf] with the verb [%w] wraps. *)
Definition Unwrap (e : error) : option error :=
  match e with
  | ErrorfW _ _ w => Some w
  | _ => None
  end.

(** An error made by [fmt.Errorf] in this file, as opposed to a value
    handed over by a callee. *)
Definition is_Errorf (e : error) : bool :=
  match e with
  | Errorf _ _ | ErrorfW _ _ _ => true
  | _ => false
  end.

(** The error wraps [cause] with some context in front of it. *)
Definition wraps_with_context (e cause : error) : Prop :=
  exists format operands, e = ErrorfW format operands cause.

(** ** [strconv.ParseInt(s, 10, 64)] *)

Module strconv.

Definition is_digit (c : ascii) : bool :=
  let n := Z.of_N (N_of_ascii c) in (48 <=? n) && (n <=? 57).

Definition digit_val (c : ascii) : Z := Z.of_N (N_of_ascii c) - 48.

(** Letters are digits of the bases above ten: in base ten they are
    rejected like any other byte. *)
Inductive uresult : Type :=
| UOk (n : Z)
| USyntax
| URange.

(** Smallest number such that [cutoff * 10 > maxUint64]. *)
Definition cutoff10 : Z := U64.max / 10 + 1.

(** The digit loop of [ParseUint]; [n] is the value read so far. *)
Fixpoint parse_digits (s : string) (n : Z) : uresult :=
  match s with
  | EmptyString => UOk n
  | String c rest =>
      if negb (is_digit c) then USyntax
      else if cutoff10 <=? n then URange
      else
        let n10 := n * 10 in
        let n1 := n10 + digit_val c in
        if U64.max <? n1 then URange
        else parse_digits rest n1
  end.

Definition ParseUint (s : string) : uresult :=
  match s with
  | EmptyString => USyntax
  | _ => parse_digits s 0
  end.

Definition fnParseInt : string := "ParseInt".

(** The value and the error of [ParseInt(s, 10, 64)]. *)
Definition ParseInt (s : string) : Z * option error :=
  match s with
  | EmptyString => (0, Some (ErrSyntax fnParseInt s))
  | String c rest =>
      let '(neg, digits) :=
        if Ascii.eqb c "+"%char then (false, rest)
        else if Ascii.eqb c "-"%char then (true, rest)
        else (false, s) in
      let cutoff := 2 ^ 63 in
      match ParseUint digits with
      | USyntax => (0, Some (ErrSyntax fnParseInt s))
      | URange =>
          if neg then (- cutoff, Some (ErrRange fnParseInt s))
          else (cutoff - 1, Some (ErrRange fnParseInt s))
      | UOk un =>
          if negb neg && (cutoff <=? un) then
            (cutoff - 1, Some (ErrRange fnParseInt s))
          else if neg && (cutoff <? un) then
            (- cutoff, Some (ErrRange fnParseInt s))
          else (if neg then - un else un, None)
      end
  end.

End strconv.

(** ** Data *)

(** [bstream.Block]: the handler reads its height only; the payload is what
    [ToProtocol] decodes. *)
Record Block : Type := mkBlock {
  Number : Z;
  Id : string;
  Payload : string
}.

Inductive Operation : Type := OpCreate | OpUpdate | OpDelete.

(** [state.StateDelta]: one recorded mutation of a store.  The type is
    declared outside this file, which reads [Key]; the other fields are
    those of the spec's data model. *)
Record StateDelta : Type := mkDelta {
  Op : Operation;
  Key : string;
  OldValue : string;
  NewValue : string
}.

(** [state.Builder]: a named key/value store with the delta buffer of the
    block being processed.  The type is declared outside this file, which
    reads [Deltas]; the name and the map are those of the spec's data
    model. *)
Record Builder : Type := mkBuilder {
  Name : string;
  KV : gmap string string;
  Deltas : list StateDelta
}.

(** Modelled from the spec: [state.New] is not part of this file; a store is
    created at pipeline start with no entries and an empty delta buffer. *)
Definition state_New (storeName : string) : Builder :=
  {| Name := storeName; KV := ∅; Deltas := [] |}.

(** Modelled from the spec: [Flush] of [state.Builder] is not part of this
    file; it "clears the current block's delta buffer" and nothing else. *)
Definition Flush (s : Builder) : Builder :=
  {| Name := Name s; KV := KV s; Deltas := [] |}.

(** The store names of [runRoot], in the order of its slice literal. *)
Definition storeNames : list string :=
  ["pairs"; "total_pairs"; "prices"; "volume24h"].

(** ** The imported packages

    Each function receives what the Go callee reaches through its receiver
    and its pointer arguments and returns it, possibly changed, next to the
    Go results.  An [option error] is Go's [error], [None] being [nil]. *)

Class Env : Type := {
  (** Decoded block ([*pbcodec.Block]) and the extractors' results. *)
  pbBlock : Type;
  PCSPairs : Type;
  PCSReserveUpdates : Type;
  Swaps : Type;
  (** [*exchange.SubstreamIntrinsics], with the RPC client and cache. *)
  Intrinsics : Type;
  (** [*subscription.Hub], with its subscribers' queues. *)
  Hub : Type;
  (** What the [dstore] object stores hold. *)
  DStore : Type;

  (** [block.ToProtocol()] asserted to be a [pbcodec.Block]; [None] when
      the conversion or the type assertion panics. *)
  ToProtocol : Block -> option pbBlock;
  Num : pbBlock -> Z;
  SetCurrentBlock : pbBlock -> Intrinsics -> Intrinsics;

  PairExtractor_Map :
    pbBlock -> Intrinsics -> PCSPairs * option error * Intrinsics;
  ReservesExtractor_Map :
    pbBlock -> Intrinsics -> Builder ->
    PCSReserveUpdates * option error * Intrinsics * Builder;
  SwapsExtractor_Map :
    pbBlock -> Intrinsics -> Builder -> Builder ->
    Swaps * option error * Intrinsics * Builder * Builder;

  PairsStateBuilder_BuildState :
    PCSPairs -> Intrinsics -> Builder -> option error * Intrinsics * Builder;
  PricesStateBuilder_BuildState :
    PCSReserveUpdates -> Intrinsics -> Builder -> Builder ->
    option error * Intrinsics * Builder * Builder;
  TotalPairsStateBuilder_BuildState :
    PCSPairs -> Swaps -> Intrinsics -> Builder ->
    option error * Intrinsics * Builder;
  PCSVolume24hStateBuilder_BuildState :
    pbBlock -> Swaps -> Intrinsics -> Builder ->
    option error * Intrinsics * Builder;

  (** [state.Builder]'s methods that reach the state store. *)
  Builder_Init : Z -> Builder -> DStore -> option error * Builder * DStore;
  Builder_WriteState :
    Block -> Builder -> DStore -> option error * Builder * DStore;
  Builder_StoreBlock :
    Block -> Builder -> DStore -> option error * Builder * DStore;

  (** [subscription.Hub]. *)
  NewHub : Hub;
  Hub_RegisterTopic : string -> Hub -> option error * Hub;
  Hub_Subscribe : string -> Hub -> option error * Hub;
  Hub_BroadcastDeltas : string -> list StateDelta -> Hub -> option error * Hub;

  (** [indexer.RPCCache]; whatever [Load] and [Save] report. *)
  NewSubstreamIntrinsics : string -> Intrinsics;
  RPCCache_Load : Intrinsics -> DStore -> option error * Intrinsics * DStore;
  RPCCache_Save : Intrinsics -> DStore -> option error * Intrinsics * DStore;

  (** [dstore.NewDBinStore] and [dstore.NewStore]: only their error is
      looked at. *)
  NewDBinStore : string -> option error;
  NewStore : string -> option error;

  (** [firehose]: what [Run] returns when the handler has stopped the stream
      with this error. *)
  Firehose_Err : error -> option error
}.

(** ** Calls, as the log records them

    A call that is handed stores records them, under their keys in the map,
    as the callee found them ([before]) and as it left them ([after]); a
    call that returns an error records it. *)

Inductive Event : Type :=
| EvNewStore (what : string) (err : option error)
| EvCacheLoad (err : option error)
| EvCacheSave (err : option error)
| EvInit (store : string) (blockNum : Z) (before after : Builder) (err : option error)
| EvRegisterTopic (topic : string) (err : option error)
| EvSubscribe (topic : string) (err : option error)
| EvToProtocol (blockNum : Z)
| EvSetCurrentBlock
| EvBanner
| EvExtract (extractor : string) (before after : list (string * Builder)) (err : option error)
| EvPrint (what : string)
| EvBuildState (store : string) (before after : list (string * Builder)) (err : option error)
| EvBroadcastDeltas (topic : string) (deltas : list StateDelta) (err : option error)
| EvPrintDeltas (store : string) (deltas : list StateDelta)
| EvStoreBlock (store : string) (blockNum : Z) (before after : Builder) (err : option error)
| EvFlush (store : string)
| EvWriteState (store : string) (blockNum : Z) (before after : Builder) (err : option error).

(** The error a call reported, if it reported one. *)
Definition ev_err (e : Event) : option error :=
  match e with
  | EvNewStore _ err | EvCacheLoad err | EvCacheSave err | EvInit _ _ _ _ err
  | EvRegisterTopic _ err | EvSubscribe _ err | EvExtract _ _ _ err
  | EvBuildState _ _ _ err | EvBroadcastDeltas _ _ err
  | EvStoreBlock _ _ _ _ err | EvWriteState _ _ _ _ err => err
  | _ => None
  end.

(** A call without its arguments and results. *)
Inductive Call : Type :=
| CNewStore (what : string)
| CCacheLoad
| CCacheSave
| CInit (store : string)
| CRegisterTopic (topic : string)
| CSubscribe (topic : string)
| CToProtocol
| CSetCurrentBlock
| CBanner
| CExtract (extractor : string)
| CPrint (what : string)
| CBuildState (store : string)
| CBroadcastDeltas (topic : string)
| CPrintDeltas (store : string)
| CStoreBlock (store : string)
| CFlush (store : string)
| CWriteState (store : string).

Definition call_of (e : Event) : Call :=
  match e with
  | EvNewStore what _ => CNewStore what
  | EvCacheLoad _ => CCacheLoad
  | EvCacheSave _ => CCacheSave
  | EvInit store _ _ _ _ => CInit store
  | EvRegisterTopic topic _ => CRegisterTopic topic
  | EvSubscribe topic _ => CSubscribe topic
  | EvToProtocol _ => CToProtocol
  | EvSetCurrentBlock => CSetCurrentBlock
  | EvBanner => CBanner
  | EvExtract extractor _ _ _ => CExtract extractor
  | EvPrint what => CPrint what
  | EvBuildState store _ _ _ => CBuildState store
  | EvBroadcastDeltas topic _ _ => CBroadcastDeltas topic
  | EvPrintDeltas store _ => CPrintDeltas store
  | EvStoreBlock store _ _ _ _ => CStoreBlock store
  | EvFlush store => CFlush store
  | EvWriteState store _ _ _ _ => CWriteState store
  end.

(** What a call leaves in the map of stores. *)
Definition effect (m : gmap string Builder) (e : Event) : gmap string Builder :=
  match e with
  | EvExtract _ _ after _ | EvBuildState _ _ after _ =>
      foldl (fun m ns => <[ns.1 := ns.2]> m) m after
  | EvInit store _ _ after _ | EvStoreBlock store _ _ after _
  | EvWriteState store _ _ after _ => <[store := after]> m
  | EvFlush store =>
      match m !! store with
      | Some s => <[store := Flush s]> m
      | None => m
      end
  | _ => m
  end.

Definition replay (m : gmap string Builder) (evs : list Event) : gmap string Builder :=
  foldl effect m evs.

(** The call found in the stores what the map holds. *)
Definition sees (m : gmap string Builder) (e : Event) : Prop :=
  match e with
  | EvExtract _ before _ _ | EvBuildState _ before _ _ =>
      Forall (fun ns => m !! ns.1 = Some ns.2) before
  | EvInit store _ before _ _ | EvStoreBlock store _ before _ _
  | EvWriteState store _ before _ _ => m !! store = Some before
  | EvBroadcastDeltas store deltas _ | EvPrintDeltas store deltas =>
      exists s, m !! store = Some s /\ deltas = Deltas s
  | EvFlush store => is_Some (m !! store)
  | _ => True
  end.

(** Every call of the log found the stores as the calls before it left
    them, starting from [m]. *)
Fixpoint continuous (m : gmap string Builder) (evs : list Event) : Prop :=
  match evs with
  | [] => True
  | e :: rest => sees m e /\ continuous (effect m e) rest
  end.

(** How a Go function ends. *)
Inductive Outcome : Type :=
| Return (err : option error)
| Panic (msg : string)
| Fatal (msg : string).

(** Result of a statement: go on with a value, or leave the function. *)
Inductive Res (A : Type) : Type :=
| Val (a : A)
| Stop (o : Outcome).
Arguments Val {A} a.
Arguments Stop {A} o.

(** The iteration orders Go picks for the [range] loops over the map of
    stores: one per loop of the handler. *)
Record Orders : Type := mkOrders {
  ordWriteState : list string;
  ordStoreBlock : list string;
  ordFlush : list string
}.

Section Pipeline.
Context {E : Env}.

(** Everything the pipeline holds a pointer to, and the log of calls. *)
Record World : Type := mkWorld {
  stores : gmap string Builder;
  intr : Intrinsics;
  hub : Hub;
  dstore : DStore;
  log : list Event
}.

(** The fields of [Pipeline] that are values; the others point into the
    [World]. *)
Record Pipeline : Type := mkPipeline {
  startBlockNum : Z
}.

(** *** Statements *)

Definition M (A : Type) : Type := World -> Res A * World.

Definition ret {A} (a : A) : M A := fun w => (Val a, w).

Definition bind {A B} (c : M A) (k : A -> M B) : M B :=
  fun w =>
    match c w with
    | (Val a, w') => k a w'
    | (Stop o, w') => (Stop o, w')
    end.

Definition return_ {A} (err : option error) : M A :=
  fun w => (Stop (Return err), w).

Definition panic {A} (msg : string) : M A :=
  fun w => (Stop (Panic msg), w).

Definition fatal {A} (msg : string) : M A :=
  fun w => (Stop (Fatal msg), w).

Definition emit (e : Event) : M unit :=
  fun w => (Val tt, {| stores := stores w; intr := intr w; hub := hub w;
                       dstore := dstore w; log := log w ++ [e] |}).

Definition getIntr : M Intrinsics := fun w => (Val (intr w), w).
Definition putIntr (i : Intrinsics) : M unit :=
  fun w => (Val tt, {| stores := stores w; intr := i; hub := hub w;
                       dstore := dstore w; log := log w |}).

Definition getHub : M Hub := fun w => (Val (hub w), w).
Definition putHub (h : Hub) : M unit :=
  fun w => (Val tt, {| stores := stores w; intr := intr w; hub := h;
                       dstore := dstore w; log := log w |}).

Definition getDStore : M DStore := fun w => (Val (dstore w), w).
Definition putDStore (d : DStore) : M unit :=
  fun w => (Val tt, {| stores := stores w; intr := intr w; hub := hub w;
                       dstore := d; log := log w |}).

(** [p.stores[name]], dereferenced: a name that is not in the map gives a
    nil pointer.  [runRoot] puts all four names in the map. *)
Definition getStore (name : string) : M Builder :=
  fun w =>
    match stores w !! name with
    | Some s => (Val s, w)
    | None => (Stop (Panic "invalid memory address or nil pointer dereference"), w)
    end.

(** The callee changed the store behind the pointer. *)
Definition putStore (name : string) (s : Builder) : M unit :=
  fun w => (Val tt, {| stores := <[name := s]> (stores w); intr := intr w;
                       hub := hub w; dstore := dstore w; log := log w |}).

(** [if err != nil { return wrap(err) }]. *)
Definition check {A} (err : option error) (wrap : error -> error) (k : M A) : M A :=
  match err with
  | Some e => return_ (Some (wrap e))
  | None => k
  end.

(** [for name, s := range p.stores { body }], in the order [ord]. *)
Fixpoint rangeStores (ord : list string) (body : string -> Builder -> M unit) : M unit :=
  match ord with
  | [] => ret tt
  | name :: rest =>
      bind (fun w =>
              match stores w !! name with
              | Some s => body name s w
              | None => (Val tt, w)
              end)
           (fun _ => rangeStores rest body)
  end.

(** How a function whose body is [c] ends. *)
Definition run (c : M unit) (w : World) : Outcome * World :=
  match c w with
  | (Val _, w') => (Return None, w')
  | (Stop o, w') => (o, w')
  end.

End Pipeline.

Declare Scope go_scope.
Delimit Scope go_scope with go.
Notation "x <- c ;; k" := (bind c (fun x => k))
  (at level 100, c at next level, right associativity) : go_scope.
Notation "c ;; k" := (bind c (fun _ => k))
  (at level 100, right associativity) : go_scope.
Local Open Scope go_scope.

Section Handler.
Context {E : Env}.

(** *** The calls of the handler, each with its log entry *)

Definition pairExtractor_Map (blk : pbBlock) : M (PCSPairs * option error) :=
  i <- getIntr ;;
  let '(pairs, err, i') := PairExtractor_Map blk i in
  putIntr i' ;;
  emit (EvExtract "pairs" [] [] err) ;;
  ret (pairs, err).

Definition pairsStateBuilder_BuildState (pairs : PCSPairs) : M (option error) :=
  s <- getStore "pairs" ;;
  i <- getIntr ;;
  let '(err, i', s') := PairsStateBuilder_BuildState pairs i s in
  putIntr i' ;; putStore "pairs" s' ;;
  emit (EvBuildState "pairs" [("pairs", s)] [("pairs", s')] err) ;;
  ret err.

Definition subscriptionHub_BroadcastDeltas (topic : string) : M (option error) :=
  s <- getStore topic ;;
  h <- getHub ;;
  let '(err, h') := Hub_BroadcastDeltas topic (Deltas s) h in
  putHub h' ;;
  emit (EvBroadcastDeltas topic (Deltas s) err) ;;
  ret err.

Definition PrintDeltas (name : string) : M unit :=
  s <- getStore name ;;
  emit (EvPrintDeltas name (Deltas s)).

Definition reservesExtractor_Map (blk : pbBlock) : M (PCSReserveUpdates * option error) :=
  s <- getStore "pairs" ;;
  i <- getIntr ;;
  let '(updates, err, i', s') := ReservesExtractor_Map blk i s in
  putIntr i' ;; putStore "pairs" s' ;;
  emit (EvExtract "reserves" [("pairs", s)] [("pairs", s')] err) ;;
  ret (updates, err).

Definition pricesStateBuilder_BuildState (updates : PCSReserveUpdates) : M (option error) :=
  sPairs <- getStore "pairs" ;;
  sPrices <- getStore "prices" ;;
  i <- getIntr ;;
  let '(err, i', sPairs', sPrices') :=
    PricesStateBuilder_BuildState updates i sPairs sPrices in
  putIntr i' ;; putStore "pairs" sPairs' ;; putStore "prices" sPrices' ;;
  emit (EvBuildState "prices" [("pairs", sPairs); ("prices", sPrices)]
                     [("pairs", sPairs'); ("prices", sPrices')] err) ;;
  ret err.

Definition swapsExtractor_Map (blk : pbBlock) : M (Swaps * option error) :=
  sPairs <- getStore "pairs" ;;
  sPrices <- getStore "prices" ;;
  i <- getIntr ;;
  let '(swaps, err, i', sPairs', sPrices') := SwapsExtractor_Map blk i sPairs sPrices in
  putIntr i' ;; putStore "pairs" sPairs' ;; putStore "prices" sPrices' ;;
  emit (EvExtract "swaps" [("pairs", sPairs); ("prices", sPrices)]
                  [("pairs", sPairs'); ("prices", sPrices')] err) ;;
  ret (swaps, err).

Definition totalPairsStateBuilder_BuildState (pairs : PCSPairs) (swaps : Swaps) : M (option error) :=
  s <- getStore "total_pairs" ;;
  i <- getIntr ;;
  let '(err, i', s') := TotalPairsStateBuilder_BuildState pairs swaps i s in
  putIntr i' ;; putStore "total_pairs" s' ;;
  emit (EvBuildState "total_pairs" [("total_pairs", s)] [("total_pairs", s')] err) ;;
  ret err.

Definition volume24hStateBuilder_BuildState (blk : pbBlock) (swaps : Swaps) : M (option error) :=
  s <- getStore "volume24h" ;;
  i <- getIntr ;;
  let '(err, i', s') := PCSVolume24hStateBuilder_BuildState blk swaps i s in
  putIntr i' ;; putStore "volume24h" s' ;;
  emit (EvBuildState "volume24h" [("volume24h", s)] [("volume24h", s')] err) ;;
  ret err.

Definition StoreBlock (block : Block) (name : string) (s : Builder) : M (option error) :=
  d <- getDStore ;;
  let '(err, s', d') := Builder_StoreBlock block s d in
  putStore name s' ;; putDStore d' ;;
  emit (EvStoreBlock name (Number block) s s' err) ;;
  ret err.

Definition WriteState (block : Block) (name : string) (s : Builder) : M (option error) :=
  d <- getDStore ;;
  let '(err, s', d') := Builder_WriteState block s d in
  putStore name s' ;; putDStore d' ;;
  emit (EvWriteState name (Number block) s s' err) ;;
  ret err.

Definition rpcCache_Save : M (option error) :=
  i <- getIntr ;;
  d <- getDStore ;;
  let '(err, i', d') := RPCCache_Save i d in
  putIntr i' ;; putDStore d' ;;
  emit (EvCacheSave err) ;;
  ret err.

Definition toProtocol (block : Block) : M pbBlock :=
  emit (EvToProtocol (Number block)) ;;
  match ToProtocol block with
  | Some blk => ret blk
  | None => panic "interface conversion"
  end.

Definition intr_SetCurrentBlock (blk : pbBlock) : M unit :=
  i <- getIntr ;;
  putIntr (SetCurrentBlock blk i) ;;
  emit EvSetCurrentBlock.

(** *** [handlerFactory]: the function it returns *)

(** [for _, s := range p.stores { s.WriteState(ctx, block) }]: the result
    of [WriteState] is dropped. *)
Definition writeAll (block : Block) (ord : list string) : M unit :=
  rangeStores ord (fun name s => _ <- WriteState block name s ;; ret tt).

(** [for _, s := range p.stores { err := s.StoreBlock(ctx, block); if err
    != nil { return err } }]. *)
Definition storeAll (block : Block) (ord : list string) : M unit :=
  rangeStores ord
    (fun name s =>
       err <- StoreBlock block name s ;;
       check err (fun e => e) (ret tt)).

(** [for _, s := range p.stores { s.Flush() }]. *)
Definition flushAll (ord : list string) : M unit :=
  rangeStores ord (fun name s => putStore name (Flush s) ;; emit (EvFlush name)).

Definition handler (p : Pipeline) (blockCount : Z) (ords : Orders)
    (block : Block) : M unit :=
  if U64.add (startBlockNum p) blockCount <=? Number block then
    writeAll block (ordWriteState ords) ;;
    _ <- rpcCache_Save ;;
    return_ (Some io_EOF)
  else
    blk <- toProtocol block ;;
    intr_SetCurrentBlock blk ;;
    emit EvBanner ;;
    r <- pairExtractor_Map blk ;;
    let '(pairs, err) := r in
    check err (ErrorfW "extracting pairs: %w" []) (
    emit (EvPrint "pairs") ;;
    err <- pairsStateBuilder_BuildState pairs ;;
    check err (ErrorfW "processing pair cache: %w" []) (
    err <- subscriptionHub_BroadcastDeltas "pairs" ;;
    check err (fun _ => Errorf "broadcasting deltas for topic [pairs]" []) (
    PrintDeltas "pairs" ;;
    r <- reservesExtractor_Map blk ;;
    let '(reserveUpdates, err) := r in
    check err (ErrorfW "processing reserves extractor: %w" []) (
    emit (EvPrint "reserveUpdates") ;;
    err <- pricesStateBuilder_BuildState reserveUpdates ;;
    check err (ErrorfW "pairs price building: %w" []) (
    PrintDeltas "prices" ;;
    r <- swapsExtractor_Map blk ;;
    let '(swaps, err) := r in
    check err (ErrorfW "swaps extractor: %w" []) (
    emit (EvPrint "swaps") ;;
    err <- totalPairsStateBuilder_BuildState pairs swaps ;;
    check err (ErrorfW "processing total pairs: %w" []) (
    PrintDeltas "total_pairs" ;;
    err <- volume24hStateBuilder_BuildState blk swaps ;;
    check err (ErrorfW "volume24 builder: %w" []) (
    PrintDeltas "volume24h" ;;
    storeAll block (ordStoreBlock ords) ;;
    flushAll (ordFlush ords) ;;
    return_ None)))))))).

Definition runHandler (p : Pipeline) (blockCount : Z) (ords : Orders)
    (block : Block) (w : World) : Outcome * World :=
  run (handler p blockCount ords block) w.

End Handler.

(** ** The shape of a processed block *)

(** The calls of a block before the two loops that end it. *)
Definition front_calls : list Call :=
  [CToProtocol; CSetCurrentBlock; CBanner;
   CExtract "pairs"; CPrint "pairs";
   CBuildState "pairs"; CBroadcastDeltas "pairs"; CPrintDeltas "pairs";
   CExtract "reserves"; CPrint "reserveUpdates";
   CBuildState "prices"; CPrintDeltas "prices";
   CExtract "swaps"; CPrint "swaps";
   CBuildState "total_pairs"; CPrintDeltas "total_pairs";
   CBuildState "volume24h"; CPrintDeltas "volume24h"].

(** The calls of a block that is processed to the end, the loops visiting
    the stores in the orders given. *)
Definition steady_calls (ordStore ordFlush : list string) : list Call :=
  front_calls ++ map CStoreBlock ordStore ++ map CFlush ordFlush.

(** How the handler hands on the error [cause] of a call: wrapped under a
    context, replaced, or as it is. *)
Definition reported (c : Call) (cause e : error) : Prop :=
  match c with
  | CExtract _ | CBuildState _ => wraps_with_context e cause
  | CBroadcastDeltas _ => e = Errorf "broadcasting deltas for topic [pairs]" []
  | CStoreBlock _ => e = cause
  | _ => False
  end.

(** The same, leaving open what becomes of the error of a broadcast. *)
Definition handed_on (c : Call) (cause e : error) : Prop :=
  match c with
  | CExtract _ | CBuildState _ => wraps_with_context e cause
  | CBroadcastDeltas _ => True
  | CStoreBlock _ => e = cause
  | _ => False
  end.

(** The stores built, in the order of the [BuildState] calls. *)
Definition built (calls : list Call) : list string :=
  flat_map (fun c => match c with CBuildState store => [store] | _ => [] end) calls.

(** ** Predicates on worlds and logs *)

Section Predicates.
Context {E : Env}.

(** The names of [ord] that are keys of the map: the ones a [range] loop
  visits. *)
Definition visited (w : World) (ord : list string) : list string :=
List.filter (fun n => bool_decide (n ∈ dom (stores w))) ord.

(** The map holds the four stores of [runRoot].  Go's [range] then visits
  each of them once: its order is a permutation of the four names. *)
Definition stores_ok (w : World) : Prop :=
dom (stores w) = list_to_set storeNames.

End Predicates.

(** The call reported no error. *)
Definition no_error (e : Event) : Prop := ev_err e = None.

(** The call is not an [Init]. *)
Definition not_init (ev : Event) : Prop := forall n, call_of ev <> CInit n.

(** The call is an [Init] at this height. *)
Definition init_at (startBlockNum : Z) (ev : Event) : Prop :=
  exists n before after err, ev = EvInit n startBlockNum before after err.

(** ** Start-up: [runRoot] *)

(** What [viper] and the environment give to [runRoot]. *)
Record Config : Type := mkConfig {
  start_block : Z;
  blocks_store_url : string;
  irr_indexes_url : string;
  state_store_url : string;
  BSC_ENDPOINT : string
}.

(** The choices that are not [runRoot]'s: the orders of its two [range]
    loops over the map of stores, and the blocks the firehose delivers, each
    with the orders of the handler's loops. *)
Record Schedule : Type := mkSchedule {
  ordInit : list string;
  ordTopics : list string;
  feed : list (Block * Orders)
}.

(** Lines 39 to 46: the block count, [1000] unless an argument is given. *)
Definition parseBlockCount (args : list string) : Res Z :=
  match args with
  | [] => Val 1000
  | arg0 :: _ =>
      let '(val, err) := strconv.ParseInt arg0 in
      match err with
      | Some _ =>
          match args !! 1%nat with
          | Some arg1 => Stop (Return (Some (Errorf "invalid block count %s" [OpString arg1])))
          | None => Stop (Panic "index out of range [1] with length 1")
          end
      | None => Val (U64.wrap val)
      end
  end.

Section Root.
Context {E : Env}.

(** [genesisBlock] is a constant of the package, declared in another
    file. *)
Variable genesisBlock : Z.

Definition lift {A} (r : Res A) : M A := fun w => (r, w).

Definition putStores (m : gmap string Builder) : M unit :=
  fun w => (Val tt, {| stores := m; intr := intr w; hub := hub w;
                       dstore := dstore w; log := log w |}).

Definition dstore_NewDBinStore (what path : string) : M (option error) :=
  let err := NewDBinStore path in
  emit (EvNewStore what err) ;; ret err.

Definition dstore_NewStore (what path : string) : M (option error) :=
  let err := NewStore path in
  emit (EvNewStore what err) ;; ret err.

Definition rpcCache_Load : M (option error) :=
  i <- getIntr ;;
  d <- getDStore ;;
  let '(err, i', d') := RPCCache_Load i d in
  putIntr i' ;; putDStore d' ;;
  emit (EvCacheLoad err) ;;
  ret err.

Definition store_Init (startBlockNum : Z) (name : string) (s : Builder) : M (option error) :=
  d <- getDStore ;;
  let '(err, s', d') := Builder_Init startBlockNum s d in
  putStore name s' ;; putDStore d' ;;
  emit (EvInit name startBlockNum s s' err) ;;
  ret err.

(** [loadStateFromDisk]. *)
Definition loadStateFromDisk (ord : list string) (startBlockNum : Z) : M unit :=
  rangeStores ord
    (fun storeName store =>
       err <- store_Init startBlockNum storeName store ;;
       check err
         (ErrorfW "could not load state for store %s at block num %d: %w"
                  [OpString storeName; OpUint startBlockNum])
         (ret tt)).

(** [setupSubscriptionHub]: a topic per store; [zlog.Fatal] ends the
    process. *)
Definition setupSubscriptionHub (ord : list string) : M unit :=
  putHub NewHub ;;
  rangeStores ord
    (fun storeName _ =>
       h <- getHub ;;
       let '(err, h') := Hub_RegisterTopic storeName h in
       putHub h' ;;
       emit (EvRegisterTopic storeName err) ;;
       match err with
       | Some _ => fatal "pair subscriber register topic"
       | None => ret tt
       end).

(** [setupPrintPairUpdates], up to the [go] statement; the goroutine is
    [printPairUpdates] below. *)
Definition setupPrintPairUpdates : M unit :=
  h <- getHub ;;
  let '(err, h') := Hub_Subscribe "pairs" h in
  putHub h' ;;
  emit (EvSubscribe "pairs" err) ;;
  match err with
  | Some _ => fatal "subscription hub subscribe"
  | None => ret tt
  end.

(** [hose.Run] belongs to [bstream/firehose].  After the block source
    contract: the handler is called once per block, in order, and its
    first non-nil error stops the stream. *)
Fixpoint hose_Run (p : Pipeline) (blockCount : Z) (blocks : list (Block * Orders)) : M (option error) :=
  match blocks with
  | [] => ret None
  | (block, ords) :: rest =>
      fun w =>
        match runHandler p blockCount ords block w with
        | (Return None, w') => hose_Run p blockCount rest w'
        | (Return (Some e), w') => (Val (Firehose_Err e), w')
        | (o, w') => (Stop o, w')
        end
  end.

(** [runRoot].  [Intrinsics] stands for the RPC client, the RPC cache and
    the intrinsics built on them: it is made first, and [Load] works on it.
    The [time.Sleep] that ends [runRoot] is left out. *)
Definition runRoot (args : list string) (cfg : Config) (sch : Schedule) : M unit :=
  blockCount <- lift (parseBlockCount args) ;;
  let startBlockNum := start_block cfg in
  let forceLoadState := genesisBlock <? startBlockNum in
  let rpcEndpoint :=
    if String.eqb (BSC_ENDPOINT cfg) "" then "http://localhost:8546"
    else BSC_ENDPOINT cfg in
  err <- dstore_NewDBinStore "blocks" (blocks_store_url cfg) ;;
  check err (ErrorfW "setting up blocks store: %w" []) (
  err <- dstore_NewStore "irr" (irr_indexes_url cfg) ;;
  check err (ErrorfW "setting up irr blocks store: %w" []) (
  err <- dstore_NewStore "rpc-cache" "./rpc-cache" ;;
  check err (ErrorfW "setting up store for rpc-cache: %w" []) (
  putIntr (NewSubstreamIntrinsics rpcEndpoint) ;;
  _ <- rpcCache_Load ;;
  err <- dstore_NewStore "state" (state_store_url cfg) ;;
  check err (ErrorfW "setting up store for data: %w" []) (
  putStores (foldl (fun m storeName => <[storeName := state_New storeName]> m)
                   ∅ storeNames) ;;
  (if forceLoadState
   then loadStateFromDisk (ordInit sch) (U64.wrap startBlockNum)
   else ret tt) ;;
  let pipe := {| startBlockNum := U64.wrap startBlockNum |} in
  setupSubscriptionHub (ordTopics sch) ;;
  setupPrintPairUpdates ;;
  err <- hose_Run pipe blockCount (feed sch) ;;
  check err (ErrorfW "running the firehose: %w" []) (
  return_ None))))).

End Root.

(** ** The goroutine of [setupPrintPairUpdates] *)

(** [strings.HasPrefix(s, prefix)]:
    [len(s) >= len(prefix) && s[:len(prefix)] == prefix]. *)
Definition HasPrefix (s prefix : string) : bool :=
  (String.length prefix <=? String.length s)%nat
  && String.eqb (substring 0 (String.length prefix) s) prefix.

(** The deltas that [pairSubscriber.Next()] delivered before its first
    error. *)
Fixpoint delivered (nexts : list (StateDelta * option error)) : list StateDelta :=
  match nexts with
  | [] => []
  | (delta, None) :: rest => delta :: delivered rest
  | (_, Some _) :: _ => []
  end.

(** The loop, run on the successive results of [pairSubscriber.Next()]:
    what it has handed to [PrintDelta], and whether it is still waiting
    ([None]) or has ended the process. *)
Fixpoint printPairUpdates (nexts : list (StateDelta * option error))
    (printed : list StateDelta) : list StateDelta * option Outcome :=
  match nexts with
  | [] => (printed, None)
  | (delta, err) :: rest =>
      match err with
      | Some _ => (printed, Some (Fatal "pair subscriber next"))
      | None =>
          if negb (HasPrefix (Key delta) "pair") then printPairUpdates rest printed
          else printPairUpdates rest (printed ++ [delta])
      end
  end.

(** ** A small instance of the imported packages

    Used to run the pipeline on concrete blocks.  [faults] names the calls
    that fail. *)

Module Sample.

Definition fails (faults : list string) (call : string) : option error :=
  if existsb (String.eqb call) faults then Some (External call) else None.

(** Modelled from the spec: [Set] of [state.Builder] is not part of this
    file; it changes the in-memory value and appends a delta to the
    buffer of the current block. *)
Definition Set_ (key value : string) (s : Builder) : Builder :=
  {| Name := Name s;
     KV := <[key := value]> (KV s);
     Deltas := Deltas s ++
       [ {| Op := match KV s !! key with Some _ => OpUpdate | None => OpCreate end;
            Key := key;
            OldValue := default "" (KV s !! key);
            NewValue := value |} ] |}.

Definition entities (b : Block) : list string :=
  if String.eqb (Payload b) "" then [] else [Payload b].

Definition env (faults : list string) : Env := {|
  pbBlock := Block;
  PCSPairs := list string;
  PCSReserveUpdates := list string;
  Swaps := list string;
  Intrinsics := nat;
  Hub := gmap string (list StateDelta);
  DStore := list (string * string * Z);

  ToProtocol b :=
    match fails faults "decode" with Some _ => None | None => Some b end;
  Num := Number;
  SetCurrentBlock _ i := i;

  PairExtractor_Map blk i := (entities blk, fails faults "extract pairs", S i);
  ReservesExtractor_Map blk i s :=
    (entities blk, fails faults "extract reserves", S i, s);
  SwapsExtractor_Map blk i sPairs sPrices :=
    (entities blk, fails faults "extract swaps", S i, sPairs, sPrices);

  PairsStateBuilder_BuildState pairs i s :=
    match fails faults "build pairs" with
    | Some e => (Some e, i, s)
    | None => (None, i, foldl (fun s k => Set_ ("pair:" ++ k)%string "new" s) s pairs)
    end;
  PricesStateBuilder_BuildState updates i sPairs sPrices :=
    match fails faults "build prices" with
    | Some e => (Some e, i, sPairs, sPrices)
    | None =>
        (None, i, sPairs,
         foldl (fun s k =>
                  Set_ ("price:" ++ k)%string
                       (default "unknown" (KV sPairs !! ("pair:" ++ k)%string)) s)
               sPrices updates)
    end;
  TotalPairsStateBuilder_BuildState pairs swaps i s :=
    match fails faults "build total_pairs" with
    | Some e => (Some e, i, s)
    | None => (None, i, foldl (fun s k => Set_ "total" k s) s pairs)
    end;
  PCSVolume24hStateBuilder_BuildState blk swaps i s :=
    match fails faults "build volume24h" with
    | Some e => (Some e, i, s)
    | None => (None, i, foldl (fun s k => Set_ ("volume:" ++ k)%string "1" s) s swaps)
    end;

  Builder_Init n s d := (fails faults ("init " ++ Name s)%string, s, d);
  Builder_WriteState b s d :=
    match fails faults ("write " ++ Name s)%string with
    | Some e => (Some e, s, d)
    | None => (None, s, d ++ [("state", Name s, Number b)])
    end;
  Builder_StoreBlock b s d :=
    match fails faults ("store " ++ Name s)%string with
    | Some e => (Some e, s, d)
    | None => (None, s, d ++ [("block", Name s, Number b)])
    end;

  NewHub := ∅;
  Hub_RegisterTopic topic h :=
    match h !! topic with
    | Some _ => (Some (External "duplicate topic"), h)
    | None => (fails faults "register", <[topic := []]> h)
    end;
  Hub_Subscribe topic h :=
    match h !! topic with
    | Some _ => (fails faults "subscribe", h)
    | None => (Some (External "unknown topic"), h)
    end;
  Hub_BroadcastDeltas topic deltas h :=
    match fails faults "broadcast", h !! topic with
    | Some e, _ => (Some e, h)
    | None, Some queue => (None, <[topic := queue ++ deltas]> h)
    | None, None => (Some (External "unknown topic"), h)
    end;

  NewSubstreamIntrinsics _ := O;
  RPCCache_Load i d := (fails faults "cache load", i, d);
  RPCCache_Save i d :=
    match fails faults "cache save" with
    | Some e => (Some e, i, d)
    | None => (None, i, d ++ [("cache", "rpc", Z.of_nat i)])
    end;

  NewDBinStore path := fails faults ("open " ++ path)%string;
  NewStore path := fails faults ("open " ++ path)%string;
  Firehose_Err e := Some e
|}.

(** The four stores as [runRoot] creates them, and a hub with their
    topics. *)
Definition stores0 : gmap string Builder :=
  foldl (fun m storeName => <[storeName := state_New storeName]> m) ∅ storeNames.

Definition hub0 : gmap string (list StateDelta) :=
  foldl (fun m storeName => <[storeName := []]> m) ∅ storeNames.

Definition world0 (faults : list string) : @World (env faults) :=
  @mkWorld (env faults) stores0 O hub0 [] [].

Definition ords0 : Orders :=
  {| ordWriteState := ["volume24h"; "pairs"; "prices"; "total_pairs"];
     ordStoreBlock := ["prices"; "volume24h"; "total_pairs"; "pairs"];
     ordFlush := ["total_pairs"; "prices"; "pairs"; "volume24h"] |}.

Definition pipe0 : Pipeline := {| startBlockNum := 100 |}.

Definition block (n : Z) (payload : string) : Block :=
  {| Number := n; Id := "id"; Payload := payload |}.

Definition cfg0 : Config :=
  {| start_block := 100; blocks_store_url := "blocks"; irr_indexes_url := "irr";
     state_store_url := "state"; BSC_ENDPOINT := "" |}.

Definition sch0 (blocks : list Block) : Schedule :=
  {| ordInit := ["prices"; "pairs"; "volume24h"; "total_pairs"];
     ordTopics := ["pairs"; "prices"; "total_pairs"; "volume24h"];
     feed := map (fun b => (b, ords0)) blocks |}.

End Sample.

(** ** The hub after the topics are registered *)

(** [RegisterTopic] called on the hub for each of the names, in order,
    whatever the calls report. *)
Definition registerAll `{E : Env} (names : list string) (h : Hub) : Hub :=
  foldl (fun h name => (Hub_RegisterTopic name h).2) h names.

(** ** Set-up calls and calls made for a block *)

(** The calls [runRoot] makes itself, before it runs the firehose; the
    others are those of the handler. *)
Definition setup_call (c : Call) : bool :=
  match c with
  | CNewStore _ | CCacheLoad | CInit _ | CRegisterTopic _ | CSubscribe _ => true
  | _ => false
  end.

(** ** What the calls leave outside the stores *)

(** What a call leaves in the hub. *)
Definition hub_effect `{E : Env} (h : Hub) (e : Event) : Hub :=
  match e with
  | EvRegisterTopic topic _ => (Hub_RegisterTopic topic h).2
  | EvSubscribe topic _ => (Hub_Subscribe topic h).2
  | EvBroadcastDeltas topic deltas _ => (Hub_BroadcastDeltas topic deltas h).2
  | _ => h
  end.

Definition hub_replay `{E : Env} (h : Hub) (evs : list Event) : Hub :=
  foldl hub_effect h evs.

(** What a call made for [block] in the steady state leaves in the object
    store: only [StoreBlock] writes there. *)
Definition disk_effect `{E : Env} (block : Block) (d : DStore) (e : Event) : DStore :=
  match e with
  | EvStoreBlock _ _ before _ _ => (Builder_StoreBlock block before d).2
  | _ => d
  end.

Definition disk_replay `{E : Env} (block : Block) (d : DStore) (evs : list Event) : DStore :=
  foldl (disk_effect block) d evs.

(** The calls that a statement logs account for what it does to the hub
    and to the object store. *)
Definition accounted `{E : Env} {A : Type} (block : Block) (c : M A) : Prop :=
  forall w r w',
    c w = (r, w') ->
    exists evs,
      log w' = log w ++ evs /\
      hub w' = hub_replay (hub w) evs /\
      dstore w' = disk_replay block (dstore w) evs.

(** ** An instance where [StoreBlock] reports [io.EOF]

    The packages of [Sample], without faults, but for [StoreBlock], which
    fails with [io.EOF] and writes nothing. *)

Module SampleEOF.

Definition env : Env :=
  let E0 := Sample.env [] in
  {| pbBlock := @pbBlock E0;
     PCSPairs := @PCSPairs E0;
     PCSReserveUpdates := @PCSReserveUpdates E0;
     Swaps := @Swaps E0;
     Intrinsics := @Intrinsics E0;
     Hub := @Hub E0;
     DStore := @DStore E0;
     ToProtocol := @ToProtocol E0;
     Num := @Num E0;
     SetCurrentBlock := @SetCurrentBlock E0;
     PairExtractor_Map := @PairExtractor_Map E0;
     ReservesExtractor_Map := @ReservesExtractor_Map E0;
     SwapsExtractor_Map := @SwapsExtractor_Map E0;
     PairsStateBuilder_BuildState := @PairsStateBuilder_BuildState E0;
     PricesStateBuilder_BuildState := @PricesStateBuilder_BuildState E0;
     TotalPairsStateBuilder_BuildState := @TotalPairsStateBuilder_BuildState E0;
     PCSVolume24hStateBuilder_BuildState := @PCSVolume24hStateBuilder_BuildState E0;
     Builder_Init := @Builder_Init E0;
     Builder_WriteState := @Builder_WriteState E0;
     Builder_StoreBlock := fun _ s d => (Some io_EOF, s, d);
     NewHub := @NewHub E0;
     Hub_RegisterTopic := @Hub_RegisterTopic E0;
     Hub_Subscribe := @Hub_Subscribe E0;
     Hub_BroadcastDeltas := @Hub_BroadcastDeltas E0;
     NewSubstreamIntrinsics := @NewSubstreamIntrinsics E0;
     RPCCache_Load := @RPCCache_Load E0;
     RPCCache_Save := @RPCCache_Save E0;
     NewDBinStore := @NewDBinStore E0;
     NewStore := @NewStore E0;
     Firehose_Err := @Firehose_Err E0 |}.

Definition world0 : @World env :=
  @mkWorld env Sample.stores0 O Sample.hub0 [] [].

End SampleEOF.

(** * Properties *)

(** ** Tactics

    Running a function of the embedding on a symbolic world: [exec] case
    splits on the result of the next call, innermost first, and simplifies
    the reads of the stores that were just written. *)

Ltac exec_step H :=
  match type of H with
  | context [match ?x with _ => _ end] =>
      lazymatch x with
      | context [match _ with _ => _ end] => fail
      | _ => destruct x eqn:?
      end
  end.

Ltac exec H :=
  repeat (cbn beta iota zeta delta [stores intr hub dstore log fst snd] in *;
          rewrite ?lookup_insert_eq in *;
          rewrite ?lookup_insert_ne in * by discriminate;
          try discriminate;
          try exec_step H).

Ltac lookups :=
  repeat first [rewrite lookup_insert_eq | rewrite lookup_insert_ne by discriminate].

Ltac same_dom :=
  repeat (rewrite dom_insert_lookup_L by (lookups; eauto)); try reflexivity.

(** ** Machine integers *)

Module U64Facts.
Lemma wrap_range z : U64.in_range (U64.wrap z).
Proof. unfold U64.in_range, U64.wrap, U64.modulus. apply Z.mod_pos_bound. lia. Qed.

Lemma wrap_small z : U64.in_range z -> U64.wrap z = z.
Proof. unfold U64.in_range, U64.wrap. intros H. apply Z.mod_small. exact H. Qed.

Lemma wrap_neg z : - U64.modulus <= z < 0 -> U64.wrap z = z + U64.modulus.
Proof.
  unfold U64.wrap, U64.modulus. intros H.
  symmetry. apply (Z.mod_unique _ _ (-1)); lia.
Qed.
End U64Facts.

(** ** [strconv.ParseInt] *)

Module strconvFacts.
Import strconv.

Example ParseInt_1000 : ParseInt "1000" = (1000, None).
Proof. reflexivity. Qed.

Example ParseInt_neg : ParseInt "-1" = (-1, None).
Proof. reflexivity. Qed.

Example ParseInt_plus : ParseInt "+42" = (42, None).
Proof. reflexivity. Qed.

Example ParseInt_min : ParseInt "-9223372036854775808" = (- 2 ^ 63, None).
Proof. reflexivity. Qed.

Example ParseInt_over :
  ParseInt "9223372036854775808"
  = (2 ^ 63 - 1, Some (ErrRange "ParseInt" "9223372036854775808")).
Proof. reflexivity. Qed.

Example ParseInt_word : ParseInt "abc" = (0, Some (ErrSyntax "ParseInt" "abc")).
Proof. reflexivity. Qed.

Example ParseInt_sign_only : ParseInt "-" = (0, Some (ErrSyntax "ParseInt" "-")).
Proof. reflexivity. Qed.

Lemma parse_digits_range s : forall n un,
  0 <= n -> parse_digits s n = UOk un -> n <= un <= U64.max \/ (s = EmptyString /\ un = n).
Proof.
  induction s as [|c rest IH]; intros n un Hn H; simpl in H.
  - right. split; [reflexivity | congruence].
  - destruct (negb (is_digit c)) eqn:Hd; [discriminate|].
    destruct (cutoff10 <=? n) eqn:Hc; [discriminate|].
    destruct (U64.max <? n * 10 + digit_val c) eqn:Hm; [discriminate|].
    apply negb_false_iff in Hd. unfold is_digit in Hd.
    apply andb_true_iff in Hd. destruct Hd as [Hlo Hhi].
    apply Z.leb_le in Hlo. apply Z.leb_le in Hhi.
    apply Z.ltb_ge in Hm.
    assert (Hv : 0 <= digit_val c <= 9) by (unfold digit_val; lia).
    left. destruct (IH (n * 10 + digit_val c) un ltac:(lia) H) as [Hr | [_ ->]]; lia.
Qed.

Lemma ParseUint_range s un : ParseUint s = UOk un -> 0 <= un <= U64.max.
Proof.
  unfold ParseUint. destruct s as [|c rest]; [discriminate|].
  intros H. apply parse_digits_range in H; [|lia].
  destruct H as [H | [H _]]; [lia | discriminate].
Qed.

(** A value [ParseInt] returns without an error is an [int64]. *)
Lemma ParseInt_range s n : ParseInt s = (n, None) -> I64.in_range n.
Proof.
  unfold ParseInt, I64.in_range, I64.min, I64.max.
  destruct s as [|c rest]; [discriminate|].
  destruct (if Ascii.eqb c "+"%char then (false, rest)
            else if Ascii.eqb c "-"%char then (true, rest)
            else (false, String c rest)) as [neg digits].
  destruct (ParseUint digits) as [un| |] eqn:Hu.
  - apply ParseUint_range in Hu.
    destruct neg; simpl.
    + destruct (2 ^ 63 <? un) eqn:Hc; [discriminate|].
      apply Z.ltb_ge in Hc. intros [= <-]. lia.
    + destruct (2 ^ 63 <=? un) eqn:Hc; [discriminate|].
      apply Z.leb_gt in Hc. intros [= <-]. lia.
  - discriminate.
  - destruct neg; discriminate.
Qed.

End strconvFacts.

(** ** The [range] loops of the handler *)

Section Loops.
Context {E : Env}.

Lemma visited_all (w : World) (ord : list string) :
  stores_ok w -> ord ≡ₚ storeNames -> visited w ord = ord.
Proof.
  intros Hok Hperm. unfold visited.
  apply forallb_filter_id. apply forallb_forall. intros n Hn.
  apply bool_decide_eq_true. rewrite Hok. apply elem_of_list_to_set.
  rewrite <- Hperm. apply list_elem_of_In. exact Hn.
Qed.

Lemma visited_dom (w w' : World) (ord : list string) :
  dom (stores w') = dom (stores w) -> visited w' ord = visited w ord.
Proof. unfold visited. intros ->. reflexivity. Qed.

Lemma visited_cons_in (w : World) n s ord :
  stores w !! n = Some s -> visited w (n :: ord) = n :: visited w ord.
Proof.
  intros H. unfold visited. simpl.
  rewrite bool_decide_eq_true_2; [reflexivity|].
  apply elem_of_dom. eauto.
Qed.

Lemma visited_cons_out (w : World) n ord :
  stores w !! n = None -> visited w (n :: ord) = visited w ord.
Proof.
  intros H. unfold visited. simpl.
  rewrite bool_decide_eq_false_2; [reflexivity|].
  rewrite elem_of_dom, H. intros [? ?]. discriminate.
Qed.

Lemma dom_put (m : gmap string Builder) n s s' :
  m !! n = Some s -> dom (<[n := s']> m) = dom m.
Proof.
  intros H. apply dom_insert_lookup_L. eauto.
Qed.

Lemma replay_app (m : gmap string Builder) (l1 l2 : list Event) :
  replay m (l1 ++ l2) = replay (replay m l1) l2.
Proof. unfold replay. apply foldl_app. Qed.

Lemma continuous_app (l1 l2 : list Event) :
  forall m : gmap string Builder,
    continuous m (l1 ++ l2) <-> continuous m l1 /\ continuous (replay m l1) l2.
Proof.
  induction l1 as [|e l1 IH]; intros m; simpl.
  - tauto.
  - rewrite IH. unfold replay. simpl. tauto.
Qed.

(** [StoreBlock] on the stores: either every visited store is stored and
    no call fails, or the first failing call ends the handler with the
    error as the callee gave it. *)
Lemma storeAll_spec (block : Block) (ord : list string) :
  forall (w : World) r w',
    storeAll block ord w = (r, w') ->
    exists evs,
      log w' = log w ++ evs /\
      stores w' = replay (stores w) evs /\
      continuous (stores w) evs /\
      dom (stores w') = dom (stores w) /\
      ((r = Val tt /\
        map call_of evs = map CStoreBlock (visited w ord) /\
        Forall no_error evs)
       \/
       (exists pre last e rest,
          r = Stop (Return (Some e)) /\
          evs = pre ++ [last] /\
          Forall no_error pre /\
          ev_err last = Some e /\
          (exists n, call_of last = CStoreBlock n) /\
          map CStoreBlock (visited w ord) = map call_of evs ++ rest)).
Proof.
  induction ord as [|n ord IH]; intros w r w' H.
  - unfold storeAll in H. simpl in H. unfold ret in H. injection H as <- <-.
    exists []. rewrite app_nil_r. repeat split; try reflexivity.
    left. repeat split; constructor.
  - unfold storeAll in H. simpl in H. unfold bind at 1 in H.
    destruct (stores w !! n) as [s|] eqn:Hs.
    + unfold StoreBlock, bind, getDStore, putStore, putDStore, emit, ret, check in H.
      simpl in H.
      destruct (Builder_StoreBlock block s (dstore w)) as [[err s'] d'] eqn:Hc.
      simpl in H.
      rewrite (visited_cons_in _ _ _ _ Hs).
      destruct err as [e|]; simpl in H.
      * unfold return_ in H. injection H as <- <-. simpl.
        exists [EvStoreBlock n (Number block) s s' (Some e)].
        repeat split; try reflexivity; try assumption.
        { eapply dom_put; eauto. }
        right. exists [], (EvStoreBlock n (Number block) s s' (Some e)), e,
                      (map CStoreBlock (visited w ord)).
        repeat split; try reflexivity; eauto.
      * match type of H with
        | rangeStores _ _ ?w1 = _ =>
            assert (Hd : dom (stores w1) = dom (stores w))
              by (simpl; eapply dom_put; eauto);
            apply (IH w1) in H
        end.
        destruct H as (evs & Hl & Hst & Hcont & Hdom & Hcase).
        rewrite (visited_dom _ _ _ Hd) in Hcase. simpl in Hl, Hst, Hcont.
        exists (EvStoreBlock n (Number block) s s' None :: evs).
        split; [rewrite Hl, <- app_assoc; reflexivity|].
        split; [exact Hst|].
        split; [simpl; split; assumption|].
        split; [congruence|].
        destruct Hcase as [(-> & Hcalls & Hne) | (pre & last & e & rest & -> & -> & Hne & He & Hc' & Hrest)].
        -- left. repeat split; [simpl; congruence | constructor; [reflexivity | exact Hne]].
        -- right. exists (EvStoreBlock n (Number block) s s' None :: pre), last, e, rest.
           repeat split; try assumption.
           ++ constructor; [reflexivity | exact Hne].
           ++ simpl. congruence.
    + rewrite (visited_cons_out _ _ _ Hs). apply IH in H. exact H.
Qed.

(** [WriteState] on the stores: every visited store is written, and
    whatever the calls report the loop goes on. *)
Lemma writeAll_spec (block : Block) (ord : list string) :
  forall (w : World) r w',
    writeAll block ord w = (r, w') ->
    r = Val tt /\
    exists evs,
      log w' = log w ++ evs /\
      stores w' = replay (stores w) evs /\
      continuous (stores w) evs /\
      dom (stores w') = dom (stores w) /\
      intr w' = intr w /\
      map call_of evs = map CWriteState (visited w ord).
Proof.
  induction ord as [|n ord IH]; intros w r w' H.
  - unfold writeAll in H. simpl in H. unfold ret in H. injection H as <- <-.
    split; [reflexivity|]. exists []. rewrite app_nil_r.
    repeat split; reflexivity.
  - unfold writeAll in H. simpl in H. unfold bind at 1 in H.
    destruct (stores w !! n) as [s|] eqn:Hs.
    + unfold WriteState, bind, getDStore, putStore, putDStore, emit, ret in H.
      simpl in H.
      destruct (Builder_WriteState block s (dstore w)) as [[err s'] d'] eqn:Hc.
      simpl in H.
      rewrite (visited_cons_in _ _ _ _ Hs).
      match type of H with
      | rangeStores _ _ ?w1 = _ =>
          assert (Hd : dom (stores w1) = dom (stores w))
            by (simpl; eapply dom_put; eauto);
          apply (IH w1) in H
      end.
      destruct H as (-> & evs & Hl & Hst & Hcont & Hdom & Hi & Hcalls).
      rewrite (visited_dom _ _ _ Hd) in Hcalls. simpl in Hl, Hst, Hcont, Hi.
      split; [reflexivity|].
      exists (EvWriteState n (Number block) s s' err :: evs).
      split; [rewrite Hl, <- app_assoc; reflexivity|].
      split; [exact Hst|].
      split; [simpl; split; assumption|].
      split; [congruence|].
      split; [exact Hi|].
      simpl. congruence.
    + rewrite (visited_cons_out _ _ _ Hs). apply IH in H. exact H.
Qed.

(** [Flush] on the stores: the loop cannot fail; every visited store is
    left with an empty delta buffer, and nothing else changes. *)
Lemma flushAll_spec (ord : list string) :
  forall (w : World) r w',
    flushAll ord w = (r, w') ->
    r = Val tt /\
    log w' = log w ++ map EvFlush (visited w ord) /\
    stores w' = replay (stores w) (map EvFlush (visited w ord)) /\
    continuous (stores w) (map EvFlush (visited w ord)) /\
    dom (stores w') = dom (stores w) /\
    intr w' = intr w /\ hub w' = hub w /\ dstore w' = dstore w /\
    (forall n s', stores w' !! n = Some s' ->
       exists s, stores w !! n = Some s /\ KV s' = KV s /\ Name s' = Name s /\
                 (Deltas s' = [] \/ ((n ∉ ord) /\ s' = s))).
Proof.
  induction ord as [|n ord IH]; intros w r w' H.
  - unfold flushAll in H. simpl in H. unfold ret in H. injection H as <- <-.
    repeat split; try reflexivity.
    + simpl. rewrite app_nil_r. reflexivity.
    + intros m s' Hm. exists s'. repeat split; try assumption.
      right. split; [apply not_elem_of_nil | reflexivity].
  - unfold flushAll in H. simpl in H. unfold bind at 1 in H.
    destruct (stores w !! n) as [s|] eqn:Hs.
    + unfold bind, putStore, emit, ret in H. simpl in H.
      match type of H with
      | rangeStores _ _ ?w1 = _ =>
          assert (Hd : dom (stores w1) = dom (stores w))
            by (simpl; eapply dom_put; eauto);
          apply (IH w1) in H
      end.
      destruct H as (-> & Hl & Hrep & Hcont & Hdom & Hi & Hh & Hds & Hst).
      rewrite (visited_cons_in _ _ _ _ Hs).
      rewrite (visited_dom _ _ _ Hd) in Hl, Hrep, Hcont.
      simpl in Hl, Hi, Hh, Hds, Hst, Hrep, Hcont.
      split; [reflexivity|].
      split; [rewrite Hl; simpl; rewrite <- app_assoc; reflexivity|].
      split; [unfold replay; simpl; rewrite Hs; exact Hrep|].
      split; [simpl; rewrite Hs; split; [eauto | exact Hcont]|].
      split; [congruence|].
      repeat split; try assumption.
      intros m s' Hm. destruct (Hst m s' Hm) as (s1 & H1 & Hkv & Hnm & Hdl).
      destruct (decide (n = m)) as [<-|Hne].
      * rewrite lookup_insert_eq in H1. injection H1 as <-.
        exists s. simpl in *. repeat split; try assumption.
        left. destruct Hdl as [Hdl | [_ ->]]; [exact Hdl | reflexivity].
      * rewrite lookup_insert_ne in H1 by exact Hne.
        exists s1. repeat split; try assumption.
        destruct Hdl as [Hdl | [Hni ->]]; [left; exact Hdl|].
        right. split; [|reflexivity].
        rewrite not_elem_of_cons. split; [congruence | exact Hni].
    + rewrite (visited_cons_out _ _ _ Hs). apply IH in H.
      destruct H as (-> & Hl & Hrep & Hcont & Hdom & Hi & Hh & Hds & Hst).
      repeat split; try assumption.
      intros m s' Hm. destruct (Hst m s' Hm) as (s1 & H1 & Hkv & Hnm & Hdl).
      exists s1. repeat split; try assumption.
      destruct Hdl as [Hdl | [Hni ->]]; [left; exact Hdl|].
      right. split; [|reflexivity].
      rewrite not_elem_of_cons. split; [|exact Hni].
      intros ->. rewrite Hs in H1. discriminate.
Qed.

End Loops.

(** ** A block in the steady state *)

Section Steady.
Context {E : Env}.

Lemma Forall_no_error_app (l1 l2 : list Event) :
  Forall no_error l1 -> Forall no_error l2 -> Forall no_error (l1 ++ l2).
Proof. intros H1 H2. apply Forall_app. split; assumption. Qed.

(** The two loops that end a block. *)
Lemma tail_spec (block : Block) (ordS ordF : list string) (W : World) r w' :
  (storeAll block ordS ;; flushAll ordF ;; (return_ None : M unit)) W = (r, w') ->
  exists evs,
    log w' = log W ++ evs /\
    stores w' = replay (stores W) evs /\
    continuous (stores W) evs /\
    dom (stores w') = dom (stores W) /\
    ((r = Stop (Return None) /\
      map call_of evs
      = map CStoreBlock (visited W ordS) ++ map CFlush (visited W ordF) /\
      Forall no_error evs /\
      (forall n s', stores w' !! n = Some s' -> n ∈ ordF -> Deltas s' = []))
     \/
     (exists pre last e rest,
        r = Stop (Return (Some e)) /\
        evs = pre ++ [last] /\
        Forall no_error pre /\
        ev_err last = Some e /\
        (exists n, call_of last = CStoreBlock n) /\
        map CStoreBlock (visited W ordS) = map call_of evs ++ rest)).
Proof.
  unfold bind at 1. intros H.
  destruct (storeAll block ordS W) as [r1 w1] eqn:Hs.
  apply storeAll_spec in Hs.
  destruct Hs as (evs1 & Hl1 & Hst1 & Hc1 & Hd1 & Hcase).
  destruct Hcase as [(-> & Hcalls & Hne) | (pre & last & e & rest & -> & -> & Hne & He & Hc' & Hrest)].
  - unfold bind at 1 in H.
    destruct (flushAll ordF w1) as [r2 w2] eqn:Hf.
    apply flushAll_spec in Hf.
    destruct Hf as (-> & Hl2 & Hst2 & Hc2 & Hd2 & _ & _ & _ & Hdl).
    unfold return_ in H. injection H as <- <-.
    rewrite (visited_dom _ _ _ Hd1) in Hl2, Hst2, Hc2.
    exists (evs1 ++ map EvFlush (visited W ordF)).
    split; [rewrite Hl2, Hl1, app_assoc; reflexivity|].
    split; [rewrite replay_app, <- Hst1; exact Hst2|].
    split; [apply continuous_app; rewrite <- Hst1; split; assumption|].
    split; [congruence|].
    left. split; [reflexivity|].
    split; [rewrite map_app, Hcalls, map_map; reflexivity|].
    split.
    + apply Forall_no_error_app; [exact Hne|].
      apply Forall_forall. intros ev Hin. apply list_elem_of_In, in_map_iff in Hin.
      destruct Hin as (n & <- & _). reflexivity.
    + intros n s' Hn Hin. destruct (Hdl n s' Hn) as (s & _ & _ & _ & [Hd | [Hni _]]).
      * exact Hd.
      * contradiction.
  - injection H as <- <-.
    exists (pre ++ [last]).
    repeat split; try assumption.
    right. exists pre, last, e, rest. repeat split; assumption.
Qed.

Lemma handler_steady p bc ords block w o w' :
  Number block < U64.add (startBlockNum p) bc ->
  runHandler p bc ords block w = (o, w') ->
  exists evs,
    log w' = log w ++ evs /\
    stores w' = replay (stores w) evs /\
    continuous (stores w) evs /\
    dom (stores w') = dom (stores w) /\
    (exists rest,
       steady_calls (visited w (ordStoreBlock ords)) (visited w (ordFlush ords))
       = map call_of evs ++ rest) /\
    match o with
    | Return None =>
        map call_of evs
        = steady_calls (visited w (ordStoreBlock ords)) (visited w (ordFlush ords)) /\
        Forall no_error evs /\
        (forall n s', stores w' !! n = Some s' -> n ∈ ordFlush ords -> Deltas s' = [])
    | Return (Some e) =>
        exists pre last cause,
          evs = pre ++ [last] /\ Forall no_error pre /\
          ev_err last = Some cause /\ reported (call_of last) cause e
    | Panic _ =>
        (ToProtocol block = None /\ evs = [EvToProtocol (Number block)]) \/
        (exists n, n ∈ storeNames /\ stores w !! n = None)
    | Fatal _ => False
    end.
Proof.
  intros Hlt H. unfold runHandler, run, handler in H.
  destruct (U64.add (startBlockNum p) bc <=? Number block) eqn:Hc;
    [apply Z.leb_le in Hc; lia|]. clear Hc.
  set (tail := bind (storeAll block (ordStoreBlock ords)) _) in H.
  unfold toProtocol, intr_SetCurrentBlock, pairExtractor_Map, pairsStateBuilder_BuildState,
    subscriptionHub_BroadcastDeltas, PrintDeltas, reservesExtractor_Map,
    pricesStateBuilder_BuildState, swapsExtractor_Map, totalPairsStateBuilder_BuildState,
    volume24hStateBuilder_BuildState in H.
  unfold bind, ret, emit, getIntr, putIntr, getHub, putHub, getStore, putStore, check, return_, panic in H.
  exec H.
  all: simplify_eq.
  (* The runs that end before the loops. *)
  all: try solve
    [ cbn [log stores]; rewrite <- ?app_assoc; cbn [app];
      eexists; split; [reflexivity|];
      split; [reflexivity|];
      split; [cbn [continuous sees effect foldl fst snd]; lookups;
              repeat split; repeat constructor; cbn [fst snd]; lookups;
              eauto|];
      split; [same_dom|];
      split; [eexists; unfold steady_calls, front_calls; cbn [map call_of app]; reflexivity|];
      lazymatch goal with
      | |- exists pre last cause, ?l = _ /\ _ =>
          exists (removelast l), (List.last l EvBanner);
          cbn [removelast List.last]; eexists;
          split; [reflexivity|]; split; [repeat constructor|];
          split; [reflexivity|]; cbn [call_of reported];
          try reflexivity; unfold wraps_with_context; eauto
      | |- _ \/ _ =>
          first [ left; split; [first [assumption | reflexivity] | reflexivity]
                | right; eexists; split; [|eassumption];
                  unfold storeNames; repeat constructor ]
      end ].
  (* The runs that reach the loops. *)
  all: subst tail.
  all: lazymatch goal with
       | Hs : bind (storeAll _ _) _ ?W = _ |- _ =>
         apply tail_spec in Hs;
         destruct Hs as (evs1 & Hl1 & Hst1 & Hc1 & Hd1 & Hcase);
         assert (HvS : visited W (ordStoreBlock ords) = visited w (ordStoreBlock ords))
           by (apply visited_dom; cbn [stores]; same_dom);
         assert (HvF : visited W (ordFlush ords) = visited w (ordFlush ords))
           by (apply visited_dom; cbn [stores]; same_dom);
         rewrite HvS, ?HvF in Hcase; clear HvS HvF;
         cbn [log stores] in Hl1, Hst1, Hc1, Hd1;
         rewrite <- ?app_assoc in Hl1; cbn [app] in Hl1;
         unfold replay in Hst1;
         destruct Hcase as [(Hr & Hcalls & Hne & Hdl)
                           | (pre & last & e & rest & Hr & -> & Hne & He & [n Hn] & Hrest)];
         simplify_eq
       end.
  all: (eexists; split; [exact Hl1|]).
  all: (split; [unfold replay; cbn [foldl effect fst snd]; exact Hst1|]).
  all: (split; [cbn [continuous sees effect foldl fst snd]; lookups;
                repeat split; repeat constructor; cbn [fst snd]; lookups;
                eauto|]).
  all: (split; [rewrite Hd1; same_dom|]).
  - split; [exists []; rewrite app_nil_r|];
      (unfold steady_calls, front_calls; cbn [map call_of app]; rewrite Hcalls; try reflexivity).
    split; [reflexivity|].
    split; [repeat (constructor; [reflexivity|]); exact Hne | exact Hdl].
  - split.
    + exists (rest ++ map CFlush (visited w (ordFlush ords))).
      unfold steady_calls, front_calls; cbn [map call_of app].
      rewrite Hrest, <- app_assoc. reflexivity.
    + lazymatch goal with
      | |- exists _ _ _, ?l = _ /\ _ =>
          let rec front l :=
            lazymatch l with
            | ?a :: ?t => let f := front t in constr:(a :: f)
            | _ => constr:(@nil Event)
            end in
          let f := front l in exists (f ++ pre), last, e
      end.
      split; [cbn [app]; reflexivity|].
      split; [cbn [app]; repeat (constructor; [reflexivity|]); exact Hne|].
      split; [exact He|]. rewrite Hn. reflexivity.
Qed.

Lemma not_build_in_stores (evs : list Event) (l1 l2 : list string) rest ev :
  map CStoreBlock l1 ++ map CFlush l2 = map call_of evs ++ rest ->
  ev ∈ evs ->
  (forall n, call_of ev <> CBuildState n) /\
  (forall n, call_of ev <> CBroadcastDeltas n) /\
  (forall n, call_of ev <> CExtract n).
Proof.
  intros Heq Hin.
  assert (Hc : call_of ev ∈ map CStoreBlock l1 ++ map CFlush l2).
  { rewrite Heq. apply elem_of_app. left.
    apply list_elem_of_In, in_map, list_elem_of_In. exact Hin. }
  apply elem_of_app in Hc as [Hc | Hc];
    apply list_elem_of_In, in_map_iff in Hc; destruct Hc as (m & Hm & _);
    rewrite <- Hm; repeat split; discriminate.
Qed.

(** What the prices builder and the broadcast are handed: the pairs store
    as the pairs builder left it, seen through the reserves extractor in
    between. *)
Lemma handler_steady_chain p bc ords block w o w' evs :
  Number block < U64.add (startBlockNum p) bc ->
  runHandler p bc ords block w = (o, w') ->
  log w' = log w ++ evs ->
  (forall before after err,
     EvBuildState "prices" before after err ∈ evs ->
     exists s0 s1 s2 pr,
       EvBuildState "pairs" [("pairs", s0)] [("pairs", s1)] None ∈ evs /\
       EvExtract "reserves" [("pairs", s1)] [("pairs", s2)] None ∈ evs /\
       before = [("pairs", s2); ("prices", pr)]) /\
  (forall topic deltas err,
     EvBroadcastDeltas topic deltas err ∈ evs ->
     topic = "pairs" /\
     exists s0 s1,
       EvBuildState "pairs" [("pairs", s0)] [("pairs", s1)] None ∈ evs /\
       deltas = Deltas s1).
Proof.
  intros Hlt H Hlog. unfold runHandler, run, handler in H.
  destruct (U64.add (startBlockNum p) bc <=? Number block) eqn:Hc;
    [apply Z.leb_le in Hc; lia|]. clear Hc.
  set (tail := bind (storeAll block (ordStoreBlock ords)) _) in H.
  unfold toProtocol, intr_SetCurrentBlock, pairExtractor_Map, pairsStateBuilder_BuildState,
    subscriptionHub_BroadcastDeltas, PrintDeltas, reservesExtractor_Map,
    pricesStateBuilder_BuildState, swapsExtractor_Map, totalPairsStateBuilder_BuildState,
    volume24hStateBuilder_BuildState in H.
  unfold bind, ret, emit, getIntr, putIntr, getHub, putHub, getStore, putStore, check, return_, panic in H.
  exec H.
  all: simplify_eq.
  all: subst tail.
  all: try lazymatch goal with
       | Hs : bind (storeAll _ _) _ ?W = _ |- _ =>
         apply tail_spec in Hs;
         destruct Hs as (evs1 & Hl1 & _ & _ & _ & Hcase);
         cbn [log stores] in Hl1; rewrite Hl1 in Hlog; clear Hl1;
         assert (Hrest : exists l1 l2 rest,
                   map CStoreBlock l1 ++ map CFlush l2 = map call_of evs1 ++ rest)
           by (destruct Hcase as [(_ & Hcalls & _)
                                 | (pre & last & e & rest & _ & -> & _ & _ & _ & Hrest)];
               [ eexists _, _, []; rewrite app_nil_r; symmetry; exact Hcalls
               | eexists _, [], rest; rewrite app_nil_r; exact Hrest ]);
         clear Hcase; destruct Hrest as (l1 & l2 & rest & Hrest)
       end.
  all: cbn [log] in Hlog; rewrite <- ?app_assoc in Hlog; cbn [app] in Hlog;
       apply app_inv_head in Hlog; subst evs.
  all: split;
    [ intros before after err Hin | intros topic deltas err Hin ];
    repeat (apply elem_of_cons in Hin as [Hin | Hin]; [try discriminate|]);
    try (apply elem_of_nil in Hin; contradiction);
    try (exfalso;
         destruct (not_build_in_stores _ _ _ _ _ Hrest Hin) as (Hb & Hd & _);
         first [ apply (Hb "prices"); reflexivity | apply (Hd topic); reflexivity ]).
  all: simplify_eq.
  all: try (eexists _, _, _, _; split; [|split; [|reflexivity]];
            solve [repeat constructor]).
  all: try (split; [reflexivity|]; eexists _, _; split; [|reflexivity];
            solve [repeat constructor]).
Qed.

End Steady.

(** ** The stop transition *)

Section Stop.
Context {E : Env}.

Lemma handler_stop p bc ords block w :
  U64.add (startBlockNum p) bc <= Number block ->
  exists w' evs err,
    runHandler p bc ords block w = (Return (Some io_EOF), w') /\
    log w' = log w ++ evs ++ [EvCacheSave err] /\
    map call_of evs = map CWriteState (visited w (ordWriteState ords)) /\
    stores w' = replay (stores w) evs /\
    continuous (stores w) evs.
Proof.
  intros Hge. unfold runHandler, run, handler.
  destruct (U64.add (startBlockNum p) bc <=? Number block) eqn:Hc;
    [clear Hc | apply Z.leb_gt in Hc; lia].
  unfold bind at 1.
  destruct (writeAll block (ordWriteState ords) w) as [r w1] eqn:Hw.
  apply writeAll_spec in Hw.
  destruct Hw as (-> & evs & Hl & Hst & Hcont & _ & _ & Hcalls).
  unfold rpcCache_Save, bind, getIntr, getDStore, putIntr, putDStore, emit, ret, return_.
  cbn [intr dstore log stores].
  destruct (RPCCache_Save (intr w1) (dstore w1)) as [[err i'] d'].
  cbn [intr dstore log stores hub].
  eexists _, evs, err. split; [reflexivity|].
  cbn [log stores]. rewrite Hl, <- app_assoc.
  repeat split; assumption.
Qed.

End Stop.

(** ** The calls of a processed block *)

Lemma steady_calls_success `{E : Env} (p : Pipeline) (blockCount : Z)
    (ords : Orders) (block : Block) (w w' : World) :
  stores_ok w ->
  ordStoreBlock ords ≡ₚ storeNames ->
  ordFlush ords ≡ₚ storeNames ->
  Number block < U64.add (startBlockNum p) blockCount ->
  runHandler p blockCount ords block w = (Return None, w') ->
  exists evs,
    log w' = log w ++ evs /\
    map call_of evs = steady_calls (ordStoreBlock ords) (ordFlush ords) /\
    Forall no_error evs /\
    stores w' = replay (stores w) evs /\
    continuous (stores w) evs /\
    stores_ok w' /\
    (forall n s, stores w' !! n = Some s -> Deltas s = []).
Proof.
  intros Hok HpS HpF Hlt Hrun.
  destruct (handler_steady p blockCount ords block w _ w' Hlt Hrun)
    as (evs & Hl & Hst & Hcont & Hdom & _ & Hcalls & Hne & Hdl).
  rewrite (visited_all _ _ Hok HpS), (visited_all _ _ Hok HpF) in Hcalls.
  exists evs. repeat split; try assumption.
  - unfold stores_ok. rewrite Hdom. exact Hok.
  - intros n s Hn. apply (Hdl n s Hn).
    rewrite HpF.
    assert (Hin : n ∈ dom (stores w')) by (apply elem_of_dom; eauto).
    rewrite Hdom, Hok in Hin. apply elem_of_list_to_set in Hin. exact Hin.
Qed.

Lemma perm_storeNames_NoDup (ord : list string) :
  ord ≡ₚ storeNames -> NoDup ord /\ (forall n, n ∈ storeNames <-> n ∈ ord).
Proof.
  intros Hp. split.
  - rewrite Hp. unfold storeNames.
    repeat (apply NoDup_cons; split;
            [rewrite ?not_elem_of_cons; repeat split;
             first [discriminate | apply not_elem_of_nil]|]).
    apply NoDup_nil. exact I.
  - intros n. rewrite Hp. reflexivity.
Qed.

Lemma elem_of_map_inj {A B} (f : A -> B) (l : list A) (x : A) :
  (forall a b, f a = f b -> a = b) -> f x ∈ map f l -> x ∈ l.
Proof.
  intros Hinj Hin. apply list_elem_of_In, in_map_iff in Hin.
  destruct Hin as (y & Hy & Hin). apply Hinj in Hy. subst y.
  apply list_elem_of_In. exact Hin.
Qed.

Lemma not_flush_front_store (ordS : list string) (n : string) :
  CFlush n ∉ front_calls ++ map CStoreBlock ordS.
Proof.
  intros Hin. apply elem_of_app in Hin as [Hin | Hin].
  - unfold front_calls in Hin.
    repeat (apply elem_of_cons in Hin as [Hin | Hin]; [discriminate|]).
    apply elem_of_nil in Hin. exact Hin.
  - apply list_elem_of_In, in_map_iff in Hin. destruct Hin as (? & ? & _). discriminate.
Qed.

Lemma broadcast_in_steady (ordS ordF : list string) (topic : string) :
  CBroadcastDeltas topic ∈ steady_calls ordS ordF -> topic = "pairs".
Proof.
  unfold steady_calls. intros Hin.
  apply elem_of_app in Hin as [Hin | Hin].
  - unfold front_calls in Hin.
    repeat (apply elem_of_cons in Hin as [Hin | Hin]; [try discriminate|]).
    + congruence.
    + apply elem_of_nil in Hin. contradiction.
  - apply elem_of_app in Hin as [Hin | Hin];
      apply list_elem_of_In, in_map_iff in Hin; destruct Hin as (? & ? & _); discriminate.
Qed.


(** ** Failing calls *)

Lemma reported_handed_on (c : Call) (cause e : error) :
  reported c cause e -> handed_on c cause e.
Proof. destruct c; simpl; auto. Qed.

(** In the steady state a call that reports an error is the last call of
    the block, and the handler returns an error for it. *)
Lemma steady_failing_call `{E : Env} (p : Pipeline) (blockCount : Z)
    (ords : Orders) (block : Block) (w : World) (o : Outcome) (w' : World) :
  stores_ok w ->
  Number block < U64.add (startBlockNum p) blockCount ->
  runHandler p blockCount ords block w = (o, w') ->
  exists evs,
    log w' = log w ++ evs /\
    stores w' = replay (stores w) evs /\
    (forall ev cause,
       ev ∈ evs -> ev_err ev = Some cause ->
       exists pre e,
         evs = pre ++ [ev] /\ Forall no_error pre /\
         o = Return (Some e) /\ reported (call_of ev) cause e) /\
    (forall e, o = Return (Some e) ->
       exists ev cause, ev ∈ evs /\ ev_err ev = Some cause).
Proof.
  intros Hok Hlt Hrun.
  destruct (handler_steady p blockCount ords block w o w' Hlt Hrun)
    as (evs & Hl & Hst & _ & _ & _ & Ho).
  exists evs. split; [exact Hl|]. split; [exact Hst|].
  destruct o as [[e|]| msg | msg].
  - destruct Ho as (pre & last & cause & -> & Hne & He & Hrep). split.
    + intros ev cause' Hin Hev. apply elem_of_app in Hin as [Hin | Hin].
      * rewrite Forall_forall in Hne. specialize (Hne _ Hin).
        unfold no_error in Hne. congruence.
      * apply list_elem_of_singleton in Hin. subst ev.
        assert (cause' = cause) by congruence. subst cause'.
        exists pre, e. repeat split; assumption.
    + intros e' _. exists last, cause. split; [|exact He].
      apply elem_of_app. right. apply list_elem_of_singleton. reflexivity.
  - destruct Ho as (_ & Hne & _). split.
    + intros ev cause Hin Hev. rewrite Forall_forall in Hne.
      specialize (Hne _ Hin). unfold no_error in Hne. congruence.
    + intros e [=].
  - split; [|intros e [=]].
    destruct Ho as [[_ ->] | (n & Hn & Hnone)].
    + intros ev cause Hin Hev. apply list_elem_of_singleton in Hin. subst ev. discriminate.
    + exfalso. assert (Hin : n ∈ dom (stores w))
        by (rewrite Hok; apply elem_of_list_to_set; exact Hn).
      apply elem_of_dom in Hin. rewrite Hnone in Hin. destruct Hin. discriminate.
  - contradiction.
Qed.

(** ** Start-up *)

Section Startup.
Context {E : Env}.

Lemma not_init_calls (evs : list Event) (calls rest : list Call) :
  calls = map call_of evs ++ rest ->
  Forall (fun c => forall n, c <> CInit n) calls ->
  Forall not_init evs.
Proof.
  intros -> H. apply Forall_app in H as [H _].
  apply Forall_forall. intros ev Hin n.
  rewrite Forall_forall in H. apply H.
  apply list_elem_of_In, in_map, list_elem_of_In. exact Hin.
Qed.

Lemma Forall_map_no_init {A} (f : A -> Call) (l : list A) :
  (forall a n, f a <> CInit n) -> Forall (fun c => forall n, c <> CInit n) (map f l).
Proof.
  intros Hf. apply Forall_forall. intros c Hin.
  apply list_elem_of_In, in_map_iff in Hin. destruct Hin as (a & <- & _). apply Hf.
Qed.

(** The handler never calls [Init]. *)
Lemma handler_no_init p bc ords block w o w' :
  runHandler p bc ords block w = (o, w') ->
  exists evs, log w' = log w ++ evs /\ Forall not_init evs.
Proof.
  intros Hrun.
  destruct (Z_lt_le_dec (Number block) (U64.add (startBlockNum p) bc)) as [Hlt | Hge].
  - destruct (handler_steady p bc ords block w o w' Hlt Hrun)
      as (evs & Hl & _ & _ & _ & [rest Hpre] & _).
    exists evs. split; [exact Hl|].
    apply (not_init_calls _ _ _ Hpre).
    unfold steady_calls. apply Forall_app. split; [|apply Forall_app; split].
    + unfold front_calls. repeat (constructor; [discriminate|]). constructor.
    + apply Forall_map_no_init. discriminate.
    + apply Forall_map_no_init. discriminate.
  - destruct (handler_stop p bc ords block w Hge)
      as (w1 & evs & err & Hrun' & Hl & Hcalls & _).
    rewrite Hrun in Hrun'. injection Hrun' as -> <-.
    exists (evs ++ [EvCacheSave err]). split; [exact Hl|].
    apply Forall_app. split.
    + apply (not_init_calls _ _ [] (eq_sym (eq_trans (app_nil_r _) Hcalls))).
      apply Forall_map_no_init. discriminate.
    + constructor; [discriminate | constructor].
Qed.

Lemma hose_Run_no_init p bc (blocks : list (Block * Orders)) :
  forall w r w',
    hose_Run p bc blocks w = (r, w') ->
    exists evs, log w' = log w ++ evs /\ Forall not_init evs.
Proof.
  induction blocks as [|[block ords] rest IH]; intros w r w' H.
  - simpl in H. injection H as <- <-. exists []. rewrite app_nil_r.
    split; [reflexivity | constructor].
  - simpl in H.
    destruct (runHandler p bc ords block w) as [o w1] eqn:Hrun.
    apply handler_no_init in Hrun. destruct Hrun as (evs1 & Hl1 & Hn1).
    assert (Hdone : w' = w1 \/ hose_Run p bc rest w1 = (r, w')
                    -> exists evs, log w' = log w ++ evs /\ Forall not_init evs).
    { intros [-> | Hrest].
      - exists evs1. split; assumption.
      - apply IH in Hrest. destruct Hrest as (evs2 & Hl2 & Hn2).
        exists (evs1 ++ evs2). split; [rewrite Hl2, Hl1, app_assoc; reflexivity|].
        apply Forall_app. split; assumption. }
    destruct o as [[e|]| msg | msg]; apply Hdone; auto;
      left; injection H as _ <-; reflexivity.
Qed.

Lemma setupSubscriptionHub_no_init (ord : list string) :
  forall w r w',
    setupSubscriptionHub ord w = (r, w') ->
    exists evs, log w' = log w ++ evs /\ Forall not_init evs /\
                stores w' = stores w.
Proof.
  unfold setupSubscriptionHub.
  match goal with |- context [rangeStores _ ?b] => set (body := b) end.
  assert (Hgen : forall w1 r w', rangeStores ord body w1 = (r, w') ->
            exists evs, log w' = log w1 ++ evs /\ Forall not_init evs /\
                        stores w' = stores w1).
  { induction ord as [|n ord IH]; intros w1 r w' H.
    - simpl in H. injection H as <- <-. exists []. rewrite app_nil_r.
      repeat split. constructor.
    - simpl in H. unfold bind at 1 in H.
      destruct (stores w1 !! n) as [s|] eqn:Hs.
      + subst body. cbn beta in H.
        unfold bind, getHub, putHub, emit, ret, fatal in H. cbn [hub log stores] in H.
        destruct (Hub_RegisterTopic n (hub w1)) as [err h'] eqn:Hr.
        cbn [hub log stores intr dstore] in H.
        destruct err as [e|].
        * injection H as <- <-. eexists [_]. cbn [log stores].
          repeat split. constructor; [discriminate | constructor].
        * apply IH in H. destruct H as (evs & Hl & Hn & Hst).
          cbn [log stores] in Hl, Hst.
          exists (EvRegisterTopic n None :: evs).
          split; [rewrite Hl, <- app_assoc; reflexivity|].
          split; [constructor; [discriminate | exact Hn] | exact Hst].
      + apply IH in H. exact H. }
  intros w r w' H. unfold bind at 1, putHub in H.
  apply Hgen in H. cbn [log stores] in H. exact H.
Qed.

(** [loadStateFromDisk]: [Init] on the stores in the order of the
    [range], up to the first one that fails. *)
Lemma loadStateFromDisk_spec (ord : list string) (start : Z) :
  forall w r w',
    loadStateFromDisk ord start w = (r, w') ->
    exists evs,
      log w' = log w ++ evs /\
      dom (stores w') = dom (stores w) /\
      Forall (init_at start) evs /\
      ((r = Val tt /\
        map call_of evs = map CInit (visited w ord) /\
        Forall no_error evs)
       \/
       (exists pre n before after cause rest,
          r = Stop (Return (Some
                (ErrorfW "could not load state for store %s at block num %d: %w"
                         [OpString n; OpUint start] cause))) /\
          evs = pre ++ [EvInit n start before after (Some cause)] /\
          Forall no_error pre /\
          map CInit (visited w ord) = map call_of evs ++ rest)).
Proof.
  induction ord as [|n ord IH]; intros w r w' H.
  - unfold loadStateFromDisk in H. simpl in H. unfold ret in H. injection H as <- <-.
    exists []. rewrite app_nil_r. repeat split; try constructor.
    repeat split; constructor.
  - unfold loadStateFromDisk in H. simpl in H. unfold bind at 1 in H.
    destruct (stores w !! n) as [s|] eqn:Hs.
    + unfold store_Init, bind, getDStore, putStore, putDStore, emit, ret, check in H.
      simpl in H.
      destruct (Builder_Init start s (dstore w)) as [[err s'] d'] eqn:Hc.
      simpl in H.
      rewrite (visited_cons_in _ _ _ _ Hs).
      destruct err as [e|]; simpl in H.
      * unfold return_ in H. injection H as <- <-. simpl.
        exists [EvInit n start s s' (Some e)].
        split; [reflexivity|].
        split; [eapply dom_put; eauto|].
        split; [constructor; [unfold init_at; eauto | constructor]|].
        right. exists [], n, s, s', e, (map CInit (visited w ord)).
        repeat split; try reflexivity. constructor.
      * match type of H with
        | rangeStores _ _ ?w1 = _ =>
            assert (Hd : dom (stores w1) = dom (stores w))
              by (simpl; eapply dom_put; eauto);
            apply (IH w1) in H
        end.
        destruct H as (evs & Hl & Hdom & Hat & Hcase).
        rewrite (visited_dom _ _ _ Hd) in Hcase. simpl in Hl.
        exists (EvInit n start s s' None :: evs).
        split; [rewrite Hl, <- app_assoc; reflexivity|].
        split; [congruence|].
        split; [constructor; [unfold init_at; eauto | exact Hat]|].
        destruct Hcase as [(-> & Hcalls & Hne)
                          | (pre & m & b & a & cause & rest & -> & -> & Hne & Hrest)].
        -- left. repeat split; [simpl; congruence | constructor; [reflexivity | exact Hne]].
        -- right. exists (EvInit n start s s' None :: pre), m, b, a, cause, rest.
           repeat split; try reflexivity.
           ++ constructor; [reflexivity | exact Hne].
           ++ simpl. congruence.
    + rewrite (visited_cons_out _ _ _ Hs). apply IH in H. exact H.
Qed.

(** What [runRoot] does once the state is loaded involves no [Init]. *)
Lemma serve_no_init (ordT : list string) (pipe : Pipeline) (bc : Z)
    (blocks : list (Block * Orders)) (w : World) r w' :
  (setupSubscriptionHub ordT ;;
   setupPrintPairUpdates ;;
   err <- hose_Run pipe bc blocks ;;
   check err (ErrorfW "running the firehose: %w" []) (return_ None : M unit)) w
  = (r, w') ->
  exists evs, log w' = log w ++ evs /\ Forall not_init evs.
Proof.
  unfold bind at 1. intros H.
  destruct (setupSubscriptionHub ordT w) as [r1 w1] eqn:H1.
  apply setupSubscriptionHub_no_init in H1. destruct H1 as (evs1 & Hl1 & Hn1 & _).
  destruct r1 as [[]|o1]; [|injection H as <- <-; eauto].
  unfold bind at 1, setupPrintPairUpdates, bind at 1, getHub in H.
  destruct (Hub_Subscribe "pairs" (hub w1)) as [err h'] eqn:Hsub.
  unfold bind, putHub, emit, fatal, ret in H. cbn [hub log stores intr dstore] in H.
  destruct err as [e|]; cbn [hub log stores intr dstore] in H.
  - injection H as <- <-. exists (evs1 ++ [EvSubscribe "pairs" (Some e)]).
    cbn [log]. split; [rewrite Hl1, app_assoc; reflexivity|].
    apply Forall_app. split; [exact Hn1|].
    constructor; [discriminate | constructor].
  - match type of H with
    | context [hose_Run pipe bc blocks ?w2] =>
        destruct (hose_Run pipe bc blocks w2) as [r3 w3] eqn:Hh
    end.
    apply hose_Run_no_init in Hh. destruct Hh as (evs3 & Hl3 & Hn3).
    cbn [log] in Hl3.
    assert (w' = w3).
    { destruct r3 as [[e|]|o3]; unfold check, return_ in H;
        injection H as _ <-; reflexivity. }
    subst w3. exists (evs1 ++ [EvSubscribe "pairs" None] ++ evs3).
    split; [rewrite Hl3, Hl1, <- !app_assoc; reflexivity|].
    apply Forall_app. split; [exact Hn1|].
    constructor; [discriminate | exact Hn3].
Qed.

End Startup.

Section RunRoot.
Context {E : Env}.

Lemma fresh_stores_ok (w : World) :
  stores w = foldl (fun m storeName => <[storeName := state_New storeName]> m)
                   ∅ storeNames ->
  stores_ok w.
Proof.
  intros H. unfold stores_ok. rewrite H. unfold storeNames. cbn [foldl].
  rewrite !dom_insert_L, dom_empty_L. cbn [list_to_set]. set_solver.
Qed.

(** [runRoot] when its argument parses and the four object stores are set
    up: the log of its calls. *)
Lemma runRoot_spec (genesisBlock : Z) (args : list string) (cfg : Config)
    (sch : Schedule) (w : World) (o : Outcome) (w' : World) (bc : Z) :
  parseBlockCount args = Val bc ->
  NewDBinStore (blocks_store_url cfg) = None ->
  NewStore (irr_indexes_url cfg) = None ->
  NewStore "./rpc-cache" = None ->
  NewStore (state_store_url cfg) = None ->
  ordInit sch ≡ₚ storeNames ->
  run (runRoot genesisBlock args cfg sch) w = (o, w') ->
  exists err inits served,
    log w' = log w ++ [EvNewStore "blocks" None; EvNewStore "irr" None;
                       EvNewStore "rpc-cache" None; EvCacheLoad err;
                       EvNewStore "state" None] ++ inits ++ served /\
    Forall not_init served /\
    Forall (init_at (U64.wrap (start_block cfg))) inits /\
    if genesisBlock <? start_block cfg then
      (map call_of inits = map CInit (ordInit sch) /\ Forall no_error inits)
      \/
      (exists pre n before after cause rest,
         o = Return (Some
               (ErrorfW "could not load state for store %s at block num %d: %w"
                        [OpString n; OpUint (U64.wrap (start_block cfg))] cause)) /\
         inits = pre ++ [EvInit n (U64.wrap (start_block cfg)) before after (Some cause)] /\
         Forall no_error pre /\
         map CInit (ordInit sch) = map call_of inits ++ rest /\
         served = [])
    else inits = [].
Proof.
  intros Hparse Hb Hi Hr Hs Hperm H.
  unfold run, runRoot in H. rewrite Hparse in H.
  unfold bind at 1, lift in H. cbv beta iota in H.
  set (serve := bind (setupSubscriptionHub (ordTopics sch)) _) in H.
  set (load := loadStateFromDisk (ordInit sch) (U64.wrap (start_block cfg))) in H.
  match type of H with
  | context [NewSubstreamIntrinsics ?ep] => set (rpcEndpoint := ep) in H; clearbody rpcEndpoint
  end.
  unfold dstore_NewDBinStore, dstore_NewStore, rpcCache_Load in H.
  rewrite Hb, Hi, Hr, Hs in H.
  unfold bind, lift, ret, emit, getIntr, putIntr, getDStore, putDStore, putStores,
    check, return_ in H.
  exec H.
  all: simplify_eq.
  all: subst serve load.
  all: repeat match goal with
       | Hl : loadStateFromDisk _ _ ?W = _ |- _ =>
           apply loadStateFromDisk_spec in Hl;
           destruct Hl as (inits & HlI & _ & HatI & HcaseI);
           rewrite (visited_all W _ (fresh_stores_ok W eq_refl) Hperm) in HcaseI;
           cbn [log] in HlI
       | Hs : bind (setupSubscriptionHub _) _ ?W = _ |- _ =>
           apply serve_no_init in Hs;
           destruct Hs as (served & HlS & HnS); cbn [log] in HlS
       end.
  - destruct HcaseI as [(_ & Hc & Hne) | (? & ? & ? & ? & ? & ? & Habs & _)];
      [|discriminate].
    exists o0, inits, served.
    split; [rewrite HlS, HlI, <- !app_assoc; reflexivity|].
    split; [exact HnS|]. split; [exact HatI|]. left. split; assumption.
  - destruct HcaseI as [(_ & Hc & Hne) | (? & ? & ? & ? & ? & ? & Habs & _)];
      [|discriminate].
    exists o0, inits, served.
    split; [rewrite HlS, HlI, <- !app_assoc; reflexivity|].
    split; [exact HnS|]. split; [exact HatI|]. left. split; assumption.
  - destruct HcaseI as [(Habs & _) | (pre & n & b & a & cause & rest & Hret & -> & Hne & Hrest)];
      [discriminate|].
    injection Hret as ->.
    exists o0, (pre ++ [EvInit n (U64.wrap (start_block cfg)) b a (Some cause)]), [].
    split; [rewrite HlI, app_nil_r, <- !app_assoc; reflexivity|].
    split; [constructor|]. split; [exact HatI|]. right.
    exists pre, n, b, a, cause, rest. repeat split; assumption.
  - exists o0, [], served.
    split; [rewrite HlS, <- !app_assoc; reflexivity|].
    repeat split; [exact HnS | constructor].
  - exists o0, [], served.
    split; [rewrite HlS, <- !app_assoc; reflexivity|].
    repeat split; [exact HnS | constructor].
Qed.

End RunRoot.

(** ** [strings.HasPrefix] *)

Lemma HasPrefix_spec (s prefix : string) :
  HasPrefix s prefix = true <-> exists rest, s = (prefix ++ rest)%string.
Proof.
  revert s. induction prefix as [|c p IH]; intros s.
  - split; [intros _; exists s; reflexivity | intros _].
    unfold HasPrefix. destruct s; reflexivity.
  - destruct s as [|c' s'].
    + split; [discriminate | intros [rest H]; discriminate].
    + assert (Hstep : HasPrefix (String c' s') (String c p)
                      = Ascii.eqb c' c && HasPrefix s' p).
      { unfold HasPrefix. simpl.
        destruct (Ascii.eqb c' c); simpl; [reflexivity|].
        apply andb_false_r. }
      rewrite Hstep, andb_true_iff, IH, Ascii.eqb_eq. split.
      * intros [-> [rest ->]]. exists rest. reflexivity.
      * intros [rest H]. simpl in H. injection H as -> ->. eauto.
Qed.

(** ** A block that cannot be decoded *)

Lemma handler_decode_panics `{E : Env} (p : Pipeline) (blockCount : Z)
    (ords : Orders) (block : Block) (w : World) :
  Number block < U64.add (startBlockNum p) blockCount ->
  ToProtocol block = None ->
  exists w',
    runHandler p blockCount ords block w = (Panic "interface conversion", w') /\
    log w' = log w ++ [EvToProtocol (Number block)] /\
    stores w' = stores w.
Proof.
  intros Hlt Hnone. unfold runHandler, run, handler.
  destruct (U64.add (startBlockNum p) blockCount <=? Number block) eqn:Hc;
    [apply Z.leb_le in Hc; lia|].
  unfold bind at 1, toProtocol, bind at 1, emit. rewrite Hnone.
  unfold panic. eexists. split; [reflexivity|]. split; reflexivity.
Qed.

(** ** The hub and the object store in the steady state *)

Section Outside.
Context {E : Env}.
Variable block : Block.

Lemma accounted_quiet {A} (c : M A) :
  (forall w r w', c w = (r, w') ->
     log w' = log w /\ hub w' = hub w /\ dstore w' = dstore w) ->
  accounted block c.
Proof.
  intros H w r w' Hc. destruct (H w r w' Hc) as (Hl & Hh & Hd).
  exists []. rewrite app_nil_r. repeat split; assumption.
Qed.

Lemma accounted_bind {A B} (c : M A) (k : A -> M B) :
  accounted block c -> (forall a, accounted block (k a)) ->
  accounted block (bind c k).
Proof.
  intros Hc Hk w r w' H. unfold bind in H.
  destruct (c w) as [[a|o] w1] eqn:H1; apply Hc in H1;
    destruct H1 as (evs1 & Hl1 & Hh1 & Hd1).
  - apply Hk in H. destruct H as (evs2 & Hl2 & Hh2 & Hd2).
    exists (evs1 ++ evs2).
    split; [rewrite Hl2, Hl1, <- app_assoc; reflexivity|].
    unfold hub_replay, disk_replay in *. rewrite !foldl_app, <- Hh1, <- Hd1.
    split; assumption.
  - injection H as <- <-. exists evs1. repeat split; assumption.
Qed.

Lemma accounted_ret {A} (a : A) : accounted block (ret a).
Proof. apply accounted_quiet. intros w r w' H. injection H as _ <-. repeat split. Qed.

Lemma accounted_return {A} (err : option error) : accounted block (return_ err : M A).
Proof. apply accounted_quiet. intros w r w' H. injection H as _ <-. repeat split. Qed.

Lemma accounted_panic {A} (msg : string) : accounted block (panic msg : M A).
Proof. apply accounted_quiet. intros w r w' H. injection H as _ <-. repeat split. Qed.

Lemma accounted_check {A} (err : option error) (wrap : error -> error) (k : M A) :
  accounted block k -> accounted block (check err wrap k).
Proof. intros Hk. destruct err; [apply accounted_return | exact Hk]. Qed.

Lemma accounted_getIntr : accounted block getIntr.
Proof. apply accounted_quiet. intros w r w' H. injection H as _ <-. repeat split. Qed.

Lemma accounted_putIntr i : accounted block (putIntr i).
Proof. apply accounted_quiet. intros w r w' H. injection H as _ <-. repeat split. Qed.

Lemma accounted_getStore name : accounted block (getStore name).
Proof.
  apply accounted_quiet. intros w r w' H. unfold getStore in H.
  destruct (stores w !! name); injection H as _ <-; repeat split.
Qed.

Lemma accounted_putStore name s : accounted block (putStore name s).
Proof. apply accounted_quiet. intros w r w' H. injection H as _ <-. repeat split. Qed.

Lemma accounted_emit (e : Event) :
  (forall h, hub_effect h e = h) -> (forall d, disk_effect block d e = d) ->
  accounted block (emit e).
Proof.
  intros Hh Hd w r w' H. injection H as _ <-. exists [e]. cbn [log hub dstore].
  unfold hub_replay, disk_replay. cbn [foldl]. rewrite Hh, Hd. repeat split.
Qed.

Lemma accounted_broadcast topic : accounted block (subscriptionHub_BroadcastDeltas topic).
Proof.
  intros w r w' H.
  unfold subscriptionHub_BroadcastDeltas, bind, getStore, getHub, putHub, emit, ret in H.
  destruct (stores w !! topic) as [s|].
  - cbn [hub log stores intr dstore] in H.
    destruct (Hub_BroadcastDeltas topic (Deltas s) (hub w)) as [err h'] eqn:Hb.
    cbn [hub log stores intr dstore] in H. injection H as _ <-.
    exists [EvBroadcastDeltas topic (Deltas s) err]. cbn [log hub dstore].
    unfold hub_replay, disk_replay. cbn [foldl hub_effect disk_effect].
    rewrite Hb. repeat split.
  - injection H as _ <-. exists []. rewrite app_nil_r. repeat split.
Qed.

Lemma accounted_StoreBlock name s : accounted block (StoreBlock block name s).
Proof.
  intros w r w' H.
  unfold StoreBlock, bind, getDStore, putStore, putDStore, emit, ret in H.
  cbn [hub log stores intr dstore] in H.
  destruct (Builder_StoreBlock block s (dstore w)) as [[err s'] d'] eqn:Hb.
  cbn [hub log stores intr dstore] in H. injection H as _ <-.
  exists [EvStoreBlock name (Number block) s s' err]. cbn [log hub dstore].
  unfold hub_replay, disk_replay. cbn [foldl hub_effect disk_effect].
  rewrite Hb. repeat split.
Qed.

Lemma accounted_rangeStores (ord : list string) (body : string -> Builder -> M unit) :
  (forall name s, accounted block (body name s)) ->
  accounted block (rangeStores ord body).
Proof.
  intros Hbody. induction ord as [|n ord IH]; cbn [rangeStores].
  - apply accounted_ret.
  - apply accounted_bind; [|intros _; exact IH].
    intros w r w' H. destruct (stores w !! n) as [s|].
    + exact (Hbody n s w r w' H).
    + injection H as _ <-. exists []. rewrite app_nil_r. repeat split.
Qed.

End Outside.

Ltac account :=
  repeat first
    [ apply accounted_broadcast
    | apply accounted_StoreBlock
    | apply accounted_bind; [|intros ?]
    | apply accounted_ret
    | apply accounted_return
    | apply accounted_panic
    | apply accounted_check
    | apply accounted_getIntr
    | apply accounted_putIntr
    | apply accounted_getStore
    | apply accounted_putStore
    | apply accounted_rangeStores; intros ? ?
    | apply accounted_emit; [intros ?; reflexivity | intros ?; reflexivity]
    | match goal with
      | |- accounted _ (match ?x with _ => _ end) => destruct x
      end ].

(** Below the threshold, the hub is what the broadcasts of the block left
    and the object store what its [StoreBlock] calls left: nothing else
    touches them, and nothing is put back. *)
Lemma handler_steady_outside `{E : Env} (p : Pipeline) (blockCount : Z)
    (ords : Orders) (block : Block) (w : World) (o : Outcome) (w' : World) :
  Number block < U64.add (startBlockNum p) blockCount ->
  runHandler p blockCount ords block w = (o, w') ->
  exists evs,
    log w' = log w ++ evs /\
    hub w' = hub_replay (hub w) evs /\
    dstore w' = disk_replay block (dstore w) evs.
Proof.
  intros Hlt H. unfold runHandler, run in H.
  assert (Hacc : accounted block (handler p blockCount ords block)).
  { unfold handler.
    destruct (U64.add (startBlockNum p) blockCount <=? Number block) eqn:Hc;
      [apply Z.leb_le in Hc; lia|]. clear Hc.
    unfold toProtocol, intr_SetCurrentBlock, pairExtractor_Map,
      pairsStateBuilder_BuildState, PrintDeltas, reservesExtractor_Map,
      pricesStateBuilder_BuildState, swapsExtractor_Map,
      totalPairsStateBuilder_BuildState, volume24hStateBuilder_BuildState,
      storeAll, flushAll.
    account. }
  destruct (handler p blockCount ords block w) as [r w1] eqn:Hh.
  apply Hacc in Hh.
  assert (w1 = w') by (destruct r; injection H as _ <-; reflexivity).
  subst w1. exact Hh.
Qed.

Lemma hub_replay_quiet `{E : Env} (h : Hub) (evs : list Event) :
  Forall (fun ev => forall t, call_of ev <> CBroadcastDeltas t /\
                              call_of ev <> CRegisterTopic t /\
                              call_of ev <> CSubscribe t) evs ->
  hub_replay h evs = h.
Proof.
  unfold hub_replay. induction evs as [|ev evs IH]; intros H; [reflexivity|].
  apply Forall_cons in H. destruct H as [Hev H]. cbn [foldl].
  assert (Hq : hub_effect h ev = h).
  { destruct ev; try reflexivity; exfalso.
    - destruct (Hev topic) as (_ & Hr & _). apply Hr. reflexivity.
    - destruct (Hev topic) as (_ & _ & Hs). apply Hs. reflexivity.
    - destruct (Hev topic) as (Hb & _). apply Hb. reflexivity. }
  rewrite Hq. apply IH. exact H.
Qed.

(** The one broadcast of a block is the only call of the steady state that
    changes the hub. *)
Lemma hub_replay_steady `{E : Env} (h : Hub) (evs : list Event) (rest : list Call)
    (ordS ordF : list string) :
  steady_calls ordS ordF = map call_of evs ++ rest ->
  (forall topic deltas err,
     EvBroadcastDeltas topic deltas err ∈ evs ->
     hub_replay h evs = (Hub_BroadcastDeltas "pairs" deltas h).2) /\
  ((forall topic deltas err, EvBroadcastDeltas topic deltas err ∉ evs) ->
   hub_replay h evs = h).
Proof.
  intros Heq. unfold steady_calls, front_calls in Heq. cbn [app] in Heq.
  do 6 (destruct evs as [|? evs];
        [ split;
          [ intros t dl er Hin;
            repeat (apply elem_of_cons in Hin as [Hin | Hin]; [discriminate|]);
            apply elem_of_nil in Hin; destruct Hin
          | intros _; reflexivity ]
        | cbn [map app] in Heq;
          let Hc := fresh "Hc" in
          injection Heq as Hc Heq;
          match goal with
          | e : Event |- _ => destruct e; try discriminate Hc
          end; clear Hc ]).
  destruct evs as [|b tl].
  { split;
      [ intros t dl er Hin;
        repeat (apply elem_of_cons in Hin as [Hin | Hin]; [discriminate|]);
        apply elem_of_nil in Hin; destruct Hin
      | intros _; reflexivity ]. }
  cbn [map app] in Heq. injection Heq as Hc Heq.
  destruct b; try discriminate Hc. injection Hc as <-.
  assert (Hq : Forall (fun ev => forall t, call_of ev <> CBroadcastDeltas t /\
                                          call_of ev <> CRegisterTopic t /\
                                          call_of ev <> CSubscribe t) tl).
  { apply Forall_forall. intros ev Hin t.
    assert (Hin' : call_of ev ∈ map call_of tl ++ rest).
    { apply elem_of_app. left. apply list_elem_of_In, in_map, list_elem_of_In. exact Hin. }
    rewrite <- Heq in Hin'.
    repeat (apply elem_of_cons in Hin' as [Hin' | Hin'];
            [rewrite Hin'; repeat split; discriminate|]).
    apply elem_of_app in Hin' as [Hin' | Hin'];
      apply list_elem_of_In, in_map_iff in Hin'; destruct Hin' as (m & <- & _);
      repeat split; discriminate. }
  assert (Hrep : hub_replay h
                   (EvToProtocol blockNum :: EvSetCurrentBlock :: EvBanner
                    :: EvExtract extractor before after err :: EvPrint what
                    :: EvBuildState store before0 after0 err0
                    :: EvBroadcastDeltas "pairs" deltas err1 :: tl)
                 = (Hub_BroadcastDeltas "pairs" deltas h).2).
  { unfold hub_replay. cbn [foldl hub_effect]. apply (hub_replay_quiet _ _ Hq). }
  split.
  - intros t dl er Hin.
    do 6 (apply elem_of_cons in Hin as [Hin | Hin]; [discriminate|]).
    apply elem_of_cons in Hin as [Hin | Hin].
    + injection Hin as _ -> _. exact Hrep.
    + exfalso. rewrite Forall_forall in Hq.
      destruct (Hq _ Hin t) as (Hb & _). apply Hb. reflexivity.
  - intros Hnone. exfalso. apply (Hnone "pairs" deltas err1).
    do 6 apply list_elem_of_further. apply list_elem_of_here.
Qed.
(** ** The claims *)

(** C1, as the code has it. In the steady state a call that fails is the
    last call of the block: the handler returns a non-nil error for it,
    which wraps the callee's error under a context when an extractor or a
    state builder failed and is the callee's error when [StoreBlock]
    failed; a non-nil error is returned only for a failing call.  Nothing is
    undone, whatever the outcome: the stores are left as the calls made up
    to there left them, the hub is as the broadcast of the block left it
    when the block got that far (and untouched when it did not), and the
    object store is as the [StoreBlock] calls left it.  A block that cannot
    be decoded makes the handler panic. *)
Theorem C1_failing_step `{E : Env} (p : Pipeline) (blockCount : Z)
    (ords : Orders) (block : Block) (w : World) (o : Outcome) (w' : World) :
  stores_ok w ->
  Number block < U64.add (startBlockNum p) blockCount ->
  runHandler p blockCount ords block w = (o, w') ->
  exists evs,
    log w' = log w ++ evs /\
    (forall ev cause,
       ev ∈ evs -> ev_err ev = Some cause ->
       exists pre e,
         evs = pre ++ [ev] /\ Forall no_error pre /\
         o = Return (Some e) /\ handed_on (call_of ev) cause e) /\
    (forall e, o = Return (Some e) ->
       exists ev cause, ev ∈ evs /\ ev_err ev = Some cause) /\
    stores w' = replay (stores w) evs /\
    hub w' = hub_replay (hub w) evs /\
    (forall topic deltas err,
       EvBroadcastDeltas topic deltas err ∈ evs ->
       hub w' = (Hub_BroadcastDeltas "pairs" deltas (hub w)).2) /\
    ((forall topic deltas err, EvBroadcastDeltas topic deltas err ∉ evs) ->
     hub w' = hub w) /\
    dstore w' = disk_replay block (dstore w) evs /\
    (ToProtocol block = None -> o = Panic "interface conversion").
Proof.
  intros Hok Hlt Hrun.
  destruct (steady_failing_call p blockCount ords block w o w' Hok Hlt Hrun)
    as (evs & Hl & Hst & Hfail & Hret).
  destruct (handler_steady_outside p blockCount ords block w o w' Hlt Hrun)
    as (evs1 & Hl1 & Hhub & Hdisk).
  assert (evs1 = evs) by (rewrite Hl in Hl1; apply app_inv_head in Hl1; congruence).
  subst evs1.
  destruct (handler_steady p blockCount ords block w o w' Hlt Hrun)
    as (evs2 & Hl2 & _ & _ & _ & [rest Hpre] & _).
  assert (evs2 = evs) by (rewrite Hl in Hl2; apply app_inv_head in Hl2; congruence).
  subst evs2.
  destruct (hub_replay_steady (hub w) evs rest _ _ Hpre) as [Hsent Hnone].
  exists evs. split; [exact Hl|].
  split; [|split; [exact Hret | split; [exact Hst|]]].
  - intros ev cause Hin Hev.
    destruct (Hfail ev cause Hin Hev) as (pre & e & H1 & H2 & H3 & H4).
    exists pre, e. repeat split; try assumption.
    apply reported_handed_on. exact H4.
  - split; [exact Hhub|].
    split; [intros topic deltas err Hin; rewrite Hhub; exact (Hsent topic deltas err Hin)|].
    split; [intros Hno; rewrite Hhub; exact (Hnone Hno)|].
    split; [exact Hdisk|].
    intros Hn.
    destruct (handler_decode_panics p blockCount ords block w Hlt Hn)
      as (w1 & Hrun1 & _).
    rewrite Hrun in Hrun1. congruence.
Qed.

Lemma C1_failing_step_witness :
  let faults := ["build prices"] in
  let w := Sample.world0 faults in
  let b := Sample.block 100 "P1" in
  stores_ok w /\
  Number b < U64.add (startBlockNum Sample.pipe0) 10 /\
  exists o w',
    runHandler Sample.pipe0 10 Sample.ords0 b w = (o, w') /\
    exists evs,
      log w' = log w ++ evs /\
      stores w' = replay (stores w) evs.
Proof.
  intros faults w b.
  assert (H1 : stores_ok w) by (vm_compute; reflexivity).
  assert (H2 : Number b < U64.add (startBlockNum Sample.pipe0) 10)
    by (vm_compute; reflexivity).
  split; [exact H1|]. split; [exact H2|].
  destruct (runHandler Sample.pipe0 10 Sample.ords0 b w) as [o w'] eqn:Hrun.
  exists o, w'. split; [reflexivity|].
  destruct (C1_failing_step Sample.pipe0 10 Sample.ords0 b w o w' H1 H2 Hrun)
    as (evs & Hl & _ & _ & Hst & _).
  exists evs. split; [exact Hl | exact Hst].
Defined.

(** C1, as the specification states it, fails.  When the prices builder fails, the
    handler returns its error, wrapped, and the block is not undone: the
    pairs store keeps the entry and the delta of the block, and the topic
    "pairs" has received that delta.  And a block that cannot be decoded
    makes the handler panic, not return an error. *)
Lemma C1_counterexample :
  let w := Sample.world0 ["build prices"] in
  let r := runHandler Sample.pipe0 10 Sample.ords0 (Sample.block 100 "P1") w in
  let d := {| Op := OpCreate; Key := "pair:P1"; OldValue := ""; NewValue := "new" |} in
  let r' := @runHandler (Sample.env ["decode"]) Sample.pipe0 10 Sample.ords0
              (Sample.block 100 "P1") (Sample.world0 ["decode"]) in
  fst r = Return (Some (ErrorfW "pairs price building: %w" []
                                (External "build prices"))) /\
  Deltas <$> (stores w !! "pairs") = Some [] /\
  Deltas <$> (stores (snd r) !! "pairs") = Some [d] /\
  stores (snd r) <> stores w /\
  hub w !! "pairs" = Some [] /\
  hub (snd r) !! "pairs" = Some [d] /\
  fst r' = Panic "interface conversion".
Proof.
  intros w r d r'.
  assert (H2 : Deltas <$> (stores w !! "pairs") = Some []) by (vm_compute; reflexivity).
  assert (H3 : Deltas <$> (stores (snd r) !! "pairs") = Some [d])
    by (vm_compute; reflexivity).
  split; [vm_compute; reflexivity|].
  split; [exact H2|]. split; [exact H3|].
  split; [intros Heq; apply (f_equal (fun m => Deltas <$> (m !! "pairs"))) in Heq;
          vm_compute in Heq; discriminate|].
  split; [vm_compute; reflexivity|].
  split; vm_compute; reflexivity.
Qed.




(** C3. Within a block the state builders run in the order pairs, prices,
    total_pairs, volume24h, each one only after the builders before it
    succeeded; every call finds the stores as the calls before it left
    them, and the prices builder is handed the pairs store that the pairs
    builder of this block left (seen through the reserves extractor in
    between). *)
Theorem C3_dependency_order `{E : Env} (p : Pipeline) (blockCount : Z)
    (ords : Orders) (block : Block) (w : World) (o : Outcome) (w' : World) :
  Number block < U64.add (startBlockNum p) blockCount ->
  runHandler p blockCount ords block w = (o, w') ->
  exists evs,
    log w' = log w ++ evs /\
    (exists rest,
       ["pairs"; "prices"; "total_pairs"; "volume24h"]
       = built (map call_of evs) ++ rest) /\
    (o = Return None ->
       built (map call_of evs) = ["pairs"; "prices"; "total_pairs"; "volume24h"]) /\
    continuous (stores w) evs /\
    (forall before after err,
       EvBuildState "prices" before after err ∈ evs ->
       exists s0 s1 s2 pr,
         EvBuildState "pairs" [("pairs", s0)] [("pairs", s1)] None ∈ evs /\
         EvExtract "reserves" [("pairs", s1)] [("pairs", s2)] None ∈ evs /\
         before = [("pairs", s2); ("prices", pr)]).
Proof.
  intros Hlt Hrun.
  destruct (handler_steady p blockCount ords block w o w' Hlt Hrun)
    as (evs & Hl & _ & Hcont & _ & [rest Hpre] & Ho).
  assert (Hb : forall l1 l2, built (steady_calls l1 l2)
                             = ["pairs"; "prices"; "total_pairs"; "volume24h"]).
  { intros l1 l2. unfold steady_calls, front_calls, built. rewrite !flat_map_app. simpl.
    assert (Hs : forall l, flat_map (fun c => match c with CBuildState s => [s] | _ => [] end)
                             (map CStoreBlock l) = [])
      by (induction l; simpl; auto).
    assert (Hf : forall l, flat_map (fun c => match c with CBuildState s => [s] | _ => [] end)
                             (map CFlush l) = [])
      by (induction l; simpl; auto).
    rewrite Hs, Hf. reflexivity. }
  exists evs. split; [exact Hl|]. split; [|split; [|split]].
  - exists (built rest). rewrite <- (Hb (visited w (ordStoreBlock ords)) (visited w (ordFlush ords))).
    rewrite Hpre. unfold built. apply flat_map_app.
  - intros ->. destruct Ho as (Hcalls & _). rewrite Hcalls. apply Hb.
  - exact Hcont.
  - apply (handler_steady_chain p blockCount ords block w o w' evs Hlt Hrun Hl).
Qed.

Lemma C3_dependency_order_witness :
  let w := Sample.world0 [] in
  let b := Sample.block 100 "P1" in
  Number b < U64.add (startBlockNum Sample.pipe0) 10 /\
  exists w',
    runHandler Sample.pipe0 10 Sample.ords0 b w = (Return None, w') /\
    exists evs,
      log w' = log w ++ evs /\
      built (map call_of evs) = ["pairs"; "prices"; "total_pairs"; "volume24h"].
Proof.
  intros w b.
  assert (H1 : Number b < U64.add (startBlockNum Sample.pipe0) 10)
    by (vm_compute; reflexivity).
  split; [exact H1|].
  destruct (runHandler Sample.pipe0 10 Sample.ords0 b w) as [o w'] eqn:Hrun.
  assert (Ho : o = Return None)
    by (apply (f_equal fst) in Hrun; vm_compute in Hrun; congruence).
  subst o. exists w'. split; [reflexivity|].
  destruct (C3_dependency_order Sample.pipe0 10 Sample.ords0 b w _ w' H1 Hrun)
    as (evs & Hl & _ & Hb & _).
  exists evs. split; [exact Hl | apply Hb; reflexivity].
Defined.

(** C4, as the code has it. Of the deltas of a processed block only those of
    the pairs store are broadcast: once, to the topic "pairs", as the pairs
    builder of the block left them, and before any [StoreBlock] or [Flush];
    no call broadcasts the deltas of total_pairs, prices or volume24h. *)
Theorem C4_broadcast_pairs_only `{E : Env} (p : Pipeline) (blockCount : Z)
    (ords : Orders) (block : Block) (w w' : World) :
  stores_ok w ->
  ordStoreBlock ords ≡ₚ storeNames ->
  ordFlush ords ≡ₚ storeNames ->
  Number block < U64.add (startBlockNum p) blockCount ->
  runHandler p blockCount ords block w = (Return None, w') ->
  exists evs,
    log w' = log w ++ evs /\
    map call_of evs
    = front_calls ++ map CStoreBlock (ordStoreBlock ords)
                  ++ map CFlush (ordFlush ords) /\
    (exists deltas, EvBroadcastDeltas "pairs" deltas None ∈ evs) /\
    (forall topic deltas err,
       EvBroadcastDeltas topic deltas err ∈ evs ->
       topic = "pairs" /\ err = None /\
       exists s0 s1,
         EvBuildState "pairs" [("pairs", s0)] [("pairs", s1)] None ∈ evs /\
         deltas = Deltas s1).
Proof.
  intros Hok HpS HpF Hlt Hrun.
  destruct (steady_calls_success p blockCount ords block w w' Hok HpS HpF Hlt Hrun)
    as (evs & Hl & Hcalls & Hne & _).
  destruct (handler_steady_chain p blockCount ords block w _ w' evs Hlt Hrun Hl)
    as [_ Hchain].
  assert (Hnone : forall topic deltas err,
             EvBroadcastDeltas topic deltas err ∈ evs -> err = None).
  { intros topic deltas err Hin.
    rewrite Forall_forall in Hne. apply (Hne _ Hin). }
  exists evs. split; [exact Hl|]. split; [exact Hcalls|]. split.
  - assert (Hin : CBroadcastDeltas "pairs" ∈ map call_of evs).
    { rewrite Hcalls. apply elem_of_app. left. unfold front_calls.
      repeat constructor. }
    apply list_elem_of_In, in_map_iff in Hin. destruct Hin as (ev & Hev & Hin).
    apply list_elem_of_In in Hin.
    destruct ev; try discriminate. injection Hev as ->.
    exists deltas. rewrite <- (Hnone _ _ _ Hin). exact Hin.
  - intros topic deltas err Hin.
    destruct (Hchain topic deltas err Hin) as (-> & s0 & s1 & Hb & ->).
    split; [reflexivity|]. split; [exact (Hnone _ _ _ Hin)|].
    exists s0, s1. split; [exact Hb | reflexivity].
Qed.

Lemma C4_broadcast_pairs_only_witness :
  let w := Sample.world0 [] in
  let b := Sample.block 100 "P1" in
  stores_ok w /\
  ordStoreBlock Sample.ords0 ≡ₚ storeNames /\
  ordFlush Sample.ords0 ≡ₚ storeNames /\
  Number b < U64.add (startBlockNum Sample.pipe0) 10 /\
  exists w',
    runHandler Sample.pipe0 10 Sample.ords0 b w = (Return None, w') /\
    exists evs,
      log w' = log w ++ evs /\
      exists deltas, EvBroadcastDeltas "pairs" deltas None ∈ evs.
Proof.
  intros w b.
  assert (H1 : stores_ok w) by (vm_compute; reflexivity).
  assert (H2 : ordStoreBlock Sample.ords0 ≡ₚ storeNames)
    by (apply (bool_decide_unpack _); vm_compute; exact I).
  assert (H3 : ordFlush Sample.ords0 ≡ₚ storeNames)
    by (apply (bool_decide_unpack _); vm_compute; exact I).
  assert (H4 : Number b < U64.add (startBlockNum Sample.pipe0) 10)
    by (vm_compute; reflexivity).
  repeat (split; [assumption|]).
  destruct (runHandler Sample.pipe0 10 Sample.ords0 b w) as [o w'] eqn:Hrun.
  assert (Ho : o = Return None)
    by (apply (f_equal fst) in Hrun; vm_compute in Hrun; congruence).
  subst o. exists w'. split; [reflexivity|].
  destruct (C4_broadcast_pairs_only Sample.pipe0 10 Sample.ords0 b w w' H1 H2 H3 H4 Hrun)
    as (evs & Hl & _ & Hb & _).
  exists evs. split; [exact Hl | exact Hb].
Defined.

(** C4, as the specification states it, fails: a block that gives the prices store a
    delta is processed to the end, and the only broadcast of the block is
    the one to the topic "pairs"; the topic "prices" has received
    nothing. *)
Lemma C4_counterexample :
  let r := @runHandler (Sample.env []) Sample.pipe0 10 Sample.ords0
             (Sample.block 100 "P1") (Sample.world0 []) in
  fst r = Return None /\
  (exists d, EvPrintDeltas "prices" [d] ∈ log (snd r)) /\
  List.filter (fun c => match c with CBroadcastDeltas _ => true | _ => false end)
              (map call_of (log (snd r)))
  = [CBroadcastDeltas "pairs"] /\
  hub (snd r) !! "prices" = Some [].
Proof.
  intros r. split; [vm_compute; reflexivity|]. split; [|split].
  - eexists. apply (list_elem_of_lookup_2 _ 11%nat). vm_compute. reflexivity.
  - vm_compute. reflexivity.
  - vm_compute. reflexivity.
Qed.

(** C5, as the code has it. In the steady state a call that reports an
    error ends the block: it is the last call and the handler returns a
    non-nil error.  The stop transition returns [io.EOF] after its calls,
    whatever [WriteState] and [Save] report.  At start-up the result of
    [Load] is not looked at: the state store is set up next, whatever
    [Load] reports. *)
Theorem C5_errors `{E : Env} (p : Pipeline) (blockCount : Z) (ords : Orders)
    (block : Block) (w : World) :
  (stores_ok w ->
   Number block < U64.add (startBlockNum p) blockCount ->
   forall o w',
     runHandler p blockCount ords block w = (o, w') ->
     exists evs,
       log w' = log w ++ evs /\
       forall ev cause,
         ev ∈ evs -> ev_err ev = Some cause ->
         (exists e, o = Return (Some e)) /\ exists pre, evs = pre ++ [ev]) /\
  (U64.add (startBlockNum p) blockCount <= Number block ->
   exists w' evs err,
     runHandler p blockCount ords block w = (Return (Some io_EOF), w') /\
     log w' = log w ++ evs ++ [EvCacheSave err] /\
     map call_of evs = map CWriteState (visited w (ordWriteState ords))) /\
  (forall genesisBlock args cfg sch o w' bc,
     parseBlockCount args = Val bc ->
     NewDBinStore (blocks_store_url cfg) = None ->
     NewStore (irr_indexes_url cfg) = None ->
     NewStore "./rpc-cache" = None ->
     NewStore (state_store_url cfg) = None ->
     ordInit sch ≡ₚ storeNames ->
     run (runRoot genesisBlock args cfg sch) w = (o, w') ->
     exists err rest,
       log w' = log w ++ [EvNewStore "blocks" None; EvNewStore "irr" None;
                          EvNewStore "rpc-cache" None; EvCacheLoad err;
                          EvNewStore "state" None] ++ rest).
Proof.
  split; [|split].
  - intros Hok Hlt o w' Hrun.
    destruct (steady_failing_call p blockCount ords block w o w' Hok Hlt Hrun)
      as (evs & Hl & _ & Hfail & _).
    exists evs. split; [exact Hl|].
    intros ev cause Hin Hev.
    destruct (Hfail ev cause Hin Hev) as (pre & e & H1 & _ & H3 & _).
    split; eauto.
  - intros Hge.
    destruct (handler_stop p blockCount ords block w Hge)
      as (w' & evs & err & Hrun & Hl & Hcalls & _).
    exists w', evs, err. repeat split; assumption.
  - intros g args cfg sch o w' bc Hparse Hb Hi Hr Hs Hperm Hrun.
    destruct (runRoot_spec g args cfg sch w o w' bc Hparse Hb Hi Hr Hs Hperm Hrun)
      as (err & inits & served & Hl & _).
    exists err, (inits ++ served). exact Hl.
Qed.

Lemma C5_errors_witness :
  let E := Sample.env ["build pairs"] in
  let w := Sample.world0 ["build pairs"] in
  let b := Sample.block 100 "P1" in
  stores_ok w /\
  Number b < U64.add (startBlockNum Sample.pipe0) 10 /\
  exists o w',
    @runHandler E Sample.pipe0 10 Sample.ords0 b w = (o, w') /\
    exists evs,
      log w' = log w ++ evs /\
      forall ev cause,
        ev ∈ evs -> ev_err ev = Some cause ->
        (exists e, o = Return (Some e)) /\ exists pre, evs = pre ++ [ev].
Proof.
  intros E w b.
  assert (H1 : stores_ok w) by (vm_compute; reflexivity).
  assert (H2 : Number b < U64.add (startBlockNum Sample.pipe0) 10)
    by (vm_compute; reflexivity).
  split; [exact H1|]. split; [exact H2|].
  destruct (@runHandler E Sample.pipe0 10 Sample.ords0 b w) as [o w'] eqn:Hrun.
  exists o, w'. split; [reflexivity|].
  destruct (@C5_errors E Sample.pipe0 10 Sample.ords0 b w) as (Hsteady & _ & _).
  exact (Hsteady H1 H2 o w' Hrun).
Defined.

(** C5, as the specification states it, fails.  In the stop transition [WriteState]
    on the prices store and [Save] both fail, and the handler returns
    [io.EOF] as it does when they succeed.  At start-up [Load] fails, and
    [runRoot] goes on to the end and returns nil. *)
Lemma C5_counterexample :
  let r := @runHandler (Sample.env ["write prices"; "cache save"]) Sample.pipe0 10
             Sample.ords0 (Sample.block 110 "P1") (Sample.world0 _) in
  let r' := @run (Sample.env ["cache load"])
              (runRoot 50 ["2"] Sample.cfg0 (Sample.sch0 [])) (Sample.world0 _) in
  fst r = Return (Some io_EOF) /\
  map ev_err (log (snd r))
  = [None; None; Some (External "write prices"); None;
     Some (External "cache save")] /\
  map call_of (log (snd r))
  = [CWriteState "volume24h"; CWriteState "pairs"; CWriteState "prices";
     CWriteState "total_pairs"; CCacheSave] /\
  fst r' = Return None /\
  EvCacheLoad (Some (External "cache load")) ∈ log (snd r').
Proof.
  intros r r'.
  split; [vm_compute; reflexivity|].
  split; [vm_compute; reflexivity|].
  split; [vm_compute; reflexivity|].
  split; [vm_compute; reflexivity|].
  apply (list_elem_of_lookup_2 _ 3%nat). vm_compute. reflexivity.
Qed.

(** C6, as the code has it. When a block is processed to the end, [Flush]
    is called exactly once on each of the four stores, after the one
    broadcast of the block (the deltas of the pairs store) and after
    [StoreBlock] on every store; afterwards the delta buffer of every store
    is empty. *)
Theorem C6_flush_once_at_the_end `{E : Env} (p : Pipeline) (blockCount : Z)
    (ords : Orders) (block : Block) (w w' : World) :
  stores_ok w ->
  ordStoreBlock ords ≡ₚ storeNames ->
  ordFlush ords ≡ₚ storeNames ->
  Number block < U64.add (startBlockNum p) blockCount ->
  runHandler p blockCount ords block w = (Return None, w') ->
  exists evs,
    log w' = log w ++ evs /\
    map call_of evs
    = (front_calls ++ map CStoreBlock (ordStoreBlock ords))
      ++ map CFlush (ordFlush ords) /\
    (* once on each store *)
    NoDup (ordFlush ords) /\
    (forall n, n ∈ storeNames <-> n ∈ ordFlush ords) /\
    (* not before the broadcast and the persistence *)
    (forall n, CFlush n ∉ front_calls ++ map CStoreBlock (ordStoreBlock ords)) /\
    CBroadcastDeltas "pairs" ∈ front_calls /\
    (forall topic, CBroadcastDeltas topic ∈ map call_of evs -> topic = "pairs") /\
    (forall n, n ∈ storeNames <-> n ∈ ordStoreBlock ords) /\
    (* the buffers *)
    (forall n s, stores w' !! n = Some s -> Deltas s = []).
Proof.
  intros Hok HpS HpF Hlt Hrun.
  destruct (steady_calls_success p blockCount ords block w w' Hok HpS HpF Hlt Hrun)
    as (evs & Hl & Hcalls & _ & _ & _ & _ & Hdl).
  destruct (perm_storeNames_NoDup _ HpF) as [HndF HinF].
  destruct (perm_storeNames_NoDup _ HpS) as [_ HinS].
  exists evs. split; [exact Hl|].
  split; [rewrite Hcalls; unfold steady_calls; apply app_assoc|].
  split; [exact HndF|]. split; [exact HinF|].
  split; [intros n; apply not_flush_front_store|].
  split; [unfold front_calls; repeat constructor|].
  split; [intros topic; rewrite Hcalls; apply broadcast_in_steady|].
  split; [exact HinS | exact Hdl].
Qed.

Lemma C6_flush_once_at_the_end_witness :
  let w := Sample.world0 [] in
  let b := Sample.block 100 "P1" in
  stores_ok w /\
  ordStoreBlock Sample.ords0 ≡ₚ storeNames /\
  ordFlush Sample.ords0 ≡ₚ storeNames /\
  Number b < U64.add (startBlockNum Sample.pipe0) 10 /\
  exists w',
    runHandler Sample.pipe0 10 Sample.ords0 b w = (Return None, w') /\
    (forall n s, stores w' !! n = Some s -> Deltas s = []).
Proof.
  intros w b.
  assert (H1 : stores_ok w) by (vm_compute; reflexivity).
  assert (H2 : ordStoreBlock Sample.ords0 ≡ₚ storeNames)
    by (apply (bool_decide_unpack _); vm_compute; exact I).
  assert (H3 : ordFlush Sample.ords0 ≡ₚ storeNames)
    by (apply (bool_decide_unpack _); vm_compute; exact I).
  assert (H4 : Number b < U64.add (startBlockNum Sample.pipe0) 10)
    by (vm_compute; reflexivity).
  repeat (split; [assumption|]).
  destruct (runHandler Sample.pipe0 10 Sample.ords0 b w) as [o w'] eqn:Hrun.
  assert (Ho : o = Return None)
    by (apply (f_equal fst) in Hrun; vm_compute in Hrun; congruence).
  subst o. exists w'. split; [reflexivity|].
  destruct (C6_flush_once_at_the_end Sample.pipe0 10 Sample.ords0 b w w' H1 H2 H3 H4 Hrun)
    as (evs & _ & _ & _ & _ & _ & _ & _ & _ & Hdl).
  exact Hdl.
Defined.

(** C6, as the specification states it, fails: in a block processed to the end the
    prices store holds a delta after its builder ran, no call broadcasts to
    the topic "prices", and [Flush] empties the buffer all the same. *)
Lemma C6_counterexample :
  let r := @runHandler (Sample.env []) Sample.pipe0 10 Sample.ords0
             (Sample.block 100 "P1") (Sample.world0 []) in
  fst r = Return None /\
  (exists sPairs sPrices sPairs' sPrices',
     EvBuildState "prices" [("pairs", sPairs); ("prices", sPrices)]
                  [("pairs", sPairs'); ("prices", sPrices')] None ∈ log (snd r) /\
     Deltas sPrices' <> []) /\
  (CBroadcastDeltas "prices" ∉ map call_of (log (snd r))) /\
  CFlush "prices" ∈ map call_of (log (snd r)) /\
  Deltas <$> (stores (snd r) !! "prices") = Some [].
Proof.
  intros r. split; [vm_compute; reflexivity|]. split; [|split; [|split]].
  - eexists _, _, _, _. split.
    + apply (list_elem_of_lookup_2 _ 10%nat). vm_compute. reflexivity.
    + vm_compute. discriminate.
  - vm_compute. intros Hin.
    repeat (apply elem_of_cons in Hin as [Hin | Hin]; [discriminate|]).
    apply elem_of_nil in Hin. exact Hin.
  - vm_compute. repeat constructor.
  - vm_compute. reflexivity.
Qed.

(** C7. When the argument parses and the object stores are set up,
    [runRoot] calls [Init] if and only if the start block is above
    [genesisBlock]; every [Init] is given the start block; the stores are
    initialised one after the other, all four unless one fails, and a
    failing [Init] is the last call of [runRoot], which returns an error
    with the name of the store and the start block, wrapping the store's
    error. *)
Theorem C7_load_state_at_startup `{E : Env} (genesisBlock : Z)
    (args : list string) (cfg : Config) (sch : Schedule) (w : World)
    (o : Outcome) (w' : World) (bc : Z) :
  parseBlockCount args = Val bc ->
  NewDBinStore (blocks_store_url cfg) = None ->
  NewStore (irr_indexes_url cfg) = None ->
  NewStore "./rpc-cache" = None ->
  NewStore (state_store_url cfg) = None ->
  ordInit sch ≡ₚ storeNames ->
  0 <= genesisBlock ->
  I64.in_range (start_block cfg) ->
  run (runRoot genesisBlock args cfg sch) w = (o, w') ->
  exists evs,
    log w' = log w ++ evs /\
    ((exists ev n, ev ∈ evs /\ call_of ev = CInit n)
     <-> genesisBlock < start_block cfg) /\
    (forall n blockNum before after err,
       EvInit n blockNum before after err ∈ evs -> blockNum = start_block cfg) /\
    (genesisBlock < start_block cfg ->
       (forall n, n ∈ storeNames -> CInit n ∈ map call_of evs) \/
       (exists n blockNum before after cause,
          EvInit n blockNum before after (Some cause) ∈ evs)) /\
    (forall n blockNum before after cause,
       EvInit n blockNum before after (Some cause) ∈ evs ->
       o = Return (Some
             (ErrorfW "could not load state for store %s at block num %d: %w"
                      [OpString n; OpUint (start_block cfg)] cause)) /\
       exists pre, evs = pre ++ [EvInit n blockNum before after (Some cause)]).
Proof.
  intros Hparse Hb Hi Hr Hs Hperm Hg Hrange Hrun.
  destruct (runRoot_spec genesisBlock args cfg sch w o w' bc
              Hparse Hb Hi Hr Hs Hperm Hrun)
    as (err & inits & served & Hl & Hns & Hat & Hcase).
  set (front := [EvNewStore "blocks" None; EvNewStore "irr" None;
                 EvNewStore "rpc-cache" None; EvCacheLoad err;
                 EvNewStore "state" None]) in *.
  assert (Hfront : forall ev n, ev ∈ front -> call_of ev <> CInit n).
  { intros ev n Hin. unfold front in Hin.
    repeat (apply elem_of_cons in Hin as [-> | Hin]; [discriminate|]).
    apply elem_of_nil in Hin. contradiction. }
  assert (Hin_inits : forall ev n, ev ∈ front ++ inits ++ served ->
                                   call_of ev = CInit n -> ev ∈ inits).
  { intros ev n Hin Hc. apply elem_of_app in Hin as [Hin | Hin].
    - exfalso. exact (Hfront ev n Hin Hc).
    - apply elem_of_app in Hin as [Hin | Hin]; [exact Hin|].
      exfalso. rewrite Forall_forall in Hns. exact (Hns ev Hin n Hc). }
  assert (Hwrap : genesisBlock < start_block cfg ->
                  U64.wrap (start_block cfg) = start_block cfg).
  { intros Hlt. apply U64Facts.wrap_small.
    unfold U64.in_range, U64.modulus, I64.in_range, I64.max in *. lia. }
  exists (front ++ inits ++ served). split; [exact Hl|].
  destruct (genesisBlock <? start_block cfg) eqn:Hltb.
  - apply Z.ltb_lt in Hltb. specialize (Hwrap Hltb).
    assert (Hbn : forall n blockNum before after e,
               EvInit n blockNum before after e ∈ front ++ inits ++ served ->
               EvInit n blockNum before after e ∈ inits /\ blockNum = start_block cfg).
    { intros n bn b a e Hin.
      assert (Hin' := Hin_inits _ n Hin eq_refl). split; [exact Hin'|].
      rewrite Forall_forall in Hat. destruct (Hat _ Hin') as (? & ? & ? & ? & Heq).
      injection Heq as _ -> _ _ _. exact Hwrap. }
    destruct Hcase as [[Hcalls Hne]
                      | (pre & n & b & a & cause & rest & -> & -> & Hne & Hrest & ->)].
    + assert (Hall : forall n, n ∈ storeNames -> CInit n ∈ map call_of inits).
      { intros n Hn. rewrite Hcalls.
        apply list_elem_of_In, in_map, list_elem_of_In. rewrite Hperm. exact Hn. }
      split; [|split; [|split]].
      * split; [intros _; exact Hltb | intros _].
        assert (Hp : CInit "pairs" ∈ map call_of inits)
          by (apply Hall; unfold storeNames; repeat constructor).
        apply list_elem_of_In, in_map_iff in Hp. destruct Hp as (ev & Hev & Hin).
        exists ev, "pairs". split; [|exact Hev].
        apply elem_of_app. right. apply elem_of_app. left.
        apply list_elem_of_In. exact Hin.
      * intros n bn b a e Hin. apply (Hbn _ _ _ _ _ Hin).
      * intros _. left. intros n Hn. rewrite !map_app, !elem_of_app.
        right. left. apply Hall. exact Hn.
      * intros n bn b a cause Hin. exfalso.
        destruct (Hbn _ _ _ _ _ Hin) as [Hin' _].
        rewrite Forall_forall in Hne. specialize (Hne _ Hin'). discriminate.
    + set (last := EvInit n (U64.wrap (start_block cfg)) b a (Some cause)) in *.
      assert (Hlast : last ∈ front ++ (pre ++ [last]) ++ []).
      { rewrite !elem_of_app. right. left. right.
        apply list_elem_of_singleton. reflexivity. }
      split; [|split; [|split]].
      * split; [intros _; exact Hltb | intros _].
        exists last, n. split; [exact Hlast | reflexivity].
      * intros n' bn b' a' e Hin. apply (Hbn _ _ _ _ _ Hin).
      * intros _. right. exists n, (U64.wrap (start_block cfg)), b, a, cause.
        exact Hlast.
      * intros n' bn b' a' cause' Hin.
        destruct (Hbn _ _ _ _ _ Hin) as [Hin' ->].
        apply elem_of_app in Hin' as [Hin' | Hin'].
        -- exfalso. rewrite Forall_forall in Hne. specialize (Hne _ Hin'). discriminate.
        -- apply list_elem_of_singleton in Hin'. unfold last in Hin'.
           injection Hin' as -> _ -> -> ->. rewrite Hwrap. split; [reflexivity|].
           exists (front ++ pre). unfold last. rewrite Hwrap, app_nil_r, app_assoc.
           reflexivity.
  - apply Z.ltb_ge in Hltb. subst inits.
    assert (Hno : forall ev n, ev ∈ front ++ [] ++ served -> call_of ev <> CInit n).
    { intros ev n Hin Hc. apply (Hin_inits ev n) in Hin; [|exact Hc].
      apply elem_of_nil in Hin. exact Hin. }
    split; [|split; [|split]].
    + split; [|lia]. intros (ev & n & Hin & Hc). exfalso. exact (Hno ev n Hin Hc).
    + intros n bn b a e Hin. exfalso. exact (Hno _ n Hin eq_refl).
    + lia.
    + intros n bn b a cause Hin. exfalso. exact (Hno _ n Hin eq_refl).
Qed.

Lemma C7_load_state_at_startup_witness :
  let E := Sample.env ["init pairs"] in
  let w := Sample.world0 ["init pairs"] in
  let sch := Sample.sch0 [] in
  parseBlockCount ["2"] = Val 2 /\
  @NewDBinStore E (blocks_store_url Sample.cfg0) = None /\
  @NewStore E (irr_indexes_url Sample.cfg0) = None /\
  @NewStore E "./rpc-cache" = None /\
  @NewStore E (state_store_url Sample.cfg0) = None /\
  ordInit sch ≡ₚ storeNames /\
  0 <= 50 /\
  I64.in_range (start_block Sample.cfg0) /\
  exists o w',
    @run E (runRoot 50 ["2"] Sample.cfg0 sch) w = (o, w') /\
    exists evs,
      log w' = log w ++ evs /\
      ((exists ev n, ev ∈ evs /\ call_of ev = CInit n)
       <-> 50 < start_block Sample.cfg0).
Proof.
  intros E w sch.
  assert (H1 : parseBlockCount ["2"] = Val 2) by reflexivity.
  assert (H2 : @NewDBinStore E (blocks_store_url Sample.cfg0) = None) by reflexivity.
  assert (H3 : @NewStore E (irr_indexes_url Sample.cfg0) = None) by reflexivity.
  assert (H4 : @NewStore E "./rpc-cache" = None) by reflexivity.
  assert (H5 : @NewStore E (state_store_url Sample.cfg0) = None) by reflexivity.
  assert (H6 : ordInit sch ≡ₚ storeNames)
    by (apply (bool_decide_unpack _); vm_compute; exact I).
  assert (H7 : 0 <= 50) by lia.
  assert (H8 : I64.in_range (start_block Sample.cfg0))
    by (vm_compute; split; discriminate).
  repeat (split; [assumption|]).
  destruct (@run E (runRoot 50 ["2"] Sample.cfg0 sch) w) as [o w'] eqn:Hrun.
  exists o, w'. split; [reflexivity|].
  destruct (@C7_load_state_at_startup E 50 ["2"] Sample.cfg0 sch w o w' 2
              H1 H2 H3 H4 H5 H6 H7 H8 Hrun) as (evs & Hl & Hiff & _).
  exists evs. split; [exact Hl | exact Hiff].
Defined.

(** C8. The goroutine of [setupPrintPairUpdates] hands to [PrintDelta]
    exactly the delivered deltas whose key starts with "pair", in the order
    of delivery; the others are skipped. *)
Theorem C8_prints_pair_deltas (nexts : list (StateDelta * option error)) :
  let printed := fst (printPairUpdates nexts []) in
  printed = List.filter (fun d => HasPrefix (Key d) "pair") (delivered nexts) /\
  (forall d,
     d ∈ printed <->
     d ∈ delivered nexts /\ exists rest, Key d = ("pair" ++ rest)%string).
Proof.
  intros printed.
  assert (Hgen : forall l acc,
            fst (printPairUpdates l acc)
            = acc ++ List.filter (fun d => HasPrefix (Key d) "pair") (delivered l)).
  { induction l as [|[d [e|]] l IH]; intros acc; simpl.
    - rewrite app_nil_r. reflexivity.
    - rewrite app_nil_r. reflexivity.
    - destruct (HasPrefix (Key d) "pair"); simpl.
      + rewrite IH, <- app_assoc. reflexivity.
      + apply IH. }
  assert (Hp : printed = List.filter (fun d => HasPrefix (Key d) "pair") (delivered nexts))
    by (unfold printed; rewrite Hgen; reflexivity).
  split; [exact Hp|].
  intros d. rewrite Hp, list_elem_of_In, filter_In, <- list_elem_of_In.
  rewrite HasPrefix_spec. reflexivity.
Qed.

Example printPairUpdates_sample :
  let d k := {| Op := OpCreate; Key := k; OldValue := ""; NewValue := "v" |} in
  printPairUpdates
    [(d "pair:P1", None); (d "total", None); (d "pai", None); (d "pair", None);
     (d "", Some io_EOF); (d "pair:P2", None)] []
  = ([d "pair:P1"; d "pair"], Some (Fatal "pair subscriber next")).
Proof. reflexivity. Qed.

(** C9. With one argument that [ParseInt] rejects, [runRoot] panics on
    [args[1]] before it does anything else; the error it was to return
    needs a second argument, and names that one. *)
Theorem C9_bad_block_count_panics `{E : Env} (genesisBlock : Z) (arg : string)
    (val : Z) (e : error) (cfg : Config) (sch : Schedule) (w : World) :
  strconv.ParseInt arg = (val, Some e) ->
  run (runRoot genesisBlock [arg] cfg sch) w
  = (Panic "index out of range [1] with length 1", w) /\
  (forall arg1 rest,
     run (runRoot genesisBlock (arg :: arg1 :: rest) cfg sch) w
     = (Return (Some (Errorf "invalid block count %s" [OpString arg1])), w)).
Proof.
  intros Hparse. split; [|intros arg1 rest];
    unfold run, runRoot, bind, lift, parseBlockCount; rewrite Hparse; reflexivity.
Qed.

Lemma C9_bad_block_count_panics_witness :
  strconv.ParseInt "abc" = (0, Some (ErrSyntax "ParseInt" "abc")) /\
  @run (Sample.env []) (runRoot 50 ["abc"] Sample.cfg0 (Sample.sch0 [])) (Sample.world0 [])
  = (Panic "index out of range [1] with length 1", Sample.world0 []).
Proof.
  assert (H : strconv.ParseInt "abc" = (0, Some (ErrSyntax "ParseInt" "abc")))
    by reflexivity.
  split; [exact H|].
  apply (@C9_bad_block_count_panics (Sample.env []) 50 "abc" 0 _ Sample.cfg0
           (Sample.sch0 []) (Sample.world0 []) H).
Defined.

(** C10. An argument that parses to a negative [n] gives the block count
    [n + 2^64], at least [2^63]; the threshold [startBlockNum + blockCount]
    is taken modulo [2^64], so that for [startBlockNum >= -n] it is
    [startBlockNum + n], below [startBlockNum], and the handler takes the
    stop transition on every block from that height on, the first block of
    the stream included. *)
Theorem C10_negative_block_count `{E : Env} (arg : string) (n : Z)
    (rest : list string) :
  strconv.ParseInt arg = (n, None) ->
  n < 0 ->
  parseBlockCount (arg :: rest) = Val (n mod 2 ^ 64) /\
  n mod 2 ^ 64 = n + 2 ^ 64 /\
  2 ^ 63 <= n mod 2 ^ 64 < 2 ^ 64 /\
  (forall p : Pipeline,
     U64.in_range (startBlockNum p) -> - n <= startBlockNum p ->
     U64.add (startBlockNum p) (n mod 2 ^ 64)
     = (startBlockNum p + n mod 2 ^ 64) mod 2 ^ 64 /\
     U64.add (startBlockNum p) (n mod 2 ^ 64) = startBlockNum p + n /\
     U64.add (startBlockNum p) (n mod 2 ^ 64) < startBlockNum p /\
     (forall ords block w,
        startBlockNum p + n <= Number block ->
        exists w',
          runHandler p (n mod 2 ^ 64) ords block w = (Return (Some io_EOF), w'))).
Proof.
  intros Hparse Hneg.
  pose proof (strconvFacts.ParseInt_range _ _ Hparse) as Hr.
  unfold I64.in_range, I64.min, I64.max in Hr.
  assert (Hmod : n mod 2 ^ 64 = n + 2 ^ 64).
  { symmetry. apply (Z.mod_unique _ _ (-1)); lia. }
  split; [unfold parseBlockCount; rewrite Hparse; reflexivity|].
  split; [exact Hmod|]. split; [lia|].
  intros p Hp Hstart. unfold U64.in_range, U64.modulus in Hp.
  assert (Hadd : U64.add (startBlockNum p) (n mod 2 ^ 64) = startBlockNum p + n).
  { unfold U64.add, U64.wrap, U64.modulus. rewrite Hmod.
    symmetry. apply (Z.mod_unique _ _ 1); lia. }
  split; [reflexivity|]. split; [exact Hadd|]. split; [lia|].
  intros ords block w Hge.
  destruct (handler_stop p (n mod 2 ^ 64) ords block w) as (w' & _ & _ & Hrun & _).
  - rewrite Hadd. exact Hge.
  - exists w'. exact Hrun.
Qed.

Lemma C10_negative_block_count_witness :
  strconv.ParseInt "-1" = (-1, None) /\
  -1 < 0 /\
  parseBlockCount ["-1"] = Val (2 ^ 64 - 1) /\
  U64.add 100 (2 ^ 64 - 1) = 99 /\
  exists w',
    @runHandler (Sample.env []) Sample.pipe0 (2 ^ 64 - 1) Sample.ords0
      (Sample.block 100 "P1") (Sample.world0 [])
    = (Return (Some io_EOF), w').
Proof.
  assert (H1 : strconv.ParseInt "-1" = (-1, None)) by reflexivity.
  assert (H2 : -1 < 0) by lia.
  destruct (@C10_negative_block_count (Sample.env []) "-1" (-1) [] H1 H2)
    as (Hbc & _ & _ & Hp).
  destruct (Hp Sample.pipe0) as (_ & Hadd & _ & Hstop);
    [vm_compute; split; [discriminate | reflexivity] | vm_compute; discriminate |].
  split; [exact H1|]. split; [exact H2|]. split; [exact Hbc|].
  split; [exact Hadd|].
  apply (Hstop Sample.ords0 (Sample.block 100 "P1") (Sample.world0 [])).
  vm_compute. discriminate.
Defined.


(** * Further properties of the root command *)

(** ** The block count *)

(** X1. Without arguments the block count is 1000.  A first argument that
    parses to a non-negative [n] gives the block count [n], below [2^63],
    whatever arguments follow it: they are not read. *)
Theorem X1_block_count (arg : string) (rest : list string) (n : Z) :
  strconv.ParseInt arg = (n, None) ->
  0 <= n ->
  parseBlockCount [] = Val 1000 /\
  parseBlockCount (arg :: rest) = Val n /\
  parseBlockCount (arg :: rest) = parseBlockCount [arg] /\
  n < 2 ^ 63.
Proof.
  intros Hparse Hn.
  pose proof (strconvFacts.ParseInt_range _ _ Hparse) as Hr.
  unfold I64.in_range, I64.min, I64.max in Hr.
  assert (Hw : U64.wrap n = n)
    by (apply U64Facts.wrap_small; unfold U64.in_range, U64.modulus; lia).
  split; [reflexivity|].
  split; [unfold parseBlockCount; rewrite Hparse, Hw; reflexivity|].
  split; [unfold parseBlockCount; rewrite Hparse; reflexivity | lia].
Qed.

Lemma X1_block_count_witness :
  strconv.ParseInt "+250" = (250, None) /\
  0 <= 250 /\
  parseBlockCount ["+250"; "ignored"] = Val 250.
Proof.
  assert (H1 : strconv.ParseInt "+250" = (250, None)) by reflexivity.
  assert (H2 : 0 <= 250) by lia.
  split; [exact H1|]. split; [exact H2|].
  apply (X1_block_count "+250" ["ignored"] 250 H1 H2).
Defined.

(** ** What a block below the threshold never does *)

Lemma in_steady_calls (c : Call) (ordS ordF : list string) :
  c ∈ steady_calls ordS ordF ->
  c ∈ front_calls \/ (exists n, c = CStoreBlock n /\ n ∈ ordS)
  \/ (exists n, c = CFlush n /\ n ∈ ordF).
Proof.
  unfold steady_calls. intros Hin.
  apply elem_of_app in Hin as [Hin | Hin]; [left; exact Hin|].
  apply elem_of_app in Hin as [Hin | Hin];
    apply list_elem_of_In, in_map_iff in Hin; destruct Hin as (n & <- & Hn);
    apply list_elem_of_In in Hn; eauto.
Qed.

(** X2. Below the threshold the handler writes no checkpoint: it never calls
    [WriteState] and never saves the RPC cache, whatever happens in the
    block; nor does it call [Init], register a topic or subscribe. *)
Theorem X2_no_checkpoint_below_threshold `{E : Env} (p : Pipeline)
    (blockCount : Z) (ords : Orders) (block : Block) (w : World)
    (o : Outcome) (w' : World) :
  Number block < U64.add (startBlockNum p) blockCount ->
  runHandler p blockCount ords block w = (o, w') ->
  exists evs,
    log w' = log w ++ evs /\
    forall ev,
      ev ∈ evs ->
      (forall n, call_of ev <> CWriteState n) /\
      call_of ev <> CCacheSave /\ call_of ev <> CCacheLoad /\
      (forall n, call_of ev <> CInit n /\ call_of ev <> CRegisterTopic n /\
                 call_of ev <> CSubscribe n /\ call_of ev <> CNewStore n).
Proof.
  intros Hlt Hrun.
  destruct (handler_steady p blockCount ords block w o w' Hlt Hrun)
    as (evs & Hl & _ & _ & _ & [rest Hpre] & _).
  exists evs. split; [exact Hl|]. intros ev Hin.
  assert (Hc : call_of ev ∈ steady_calls (visited w (ordStoreBlock ords))
                                         (visited w (ordFlush ords))).
  { rewrite Hpre. apply elem_of_app. left.
    apply list_elem_of_In, in_map, list_elem_of_In. exact Hin. }
  apply in_steady_calls in Hc.
  destruct Hc as [Hc | [(n & -> & _) | (n & -> & _)]].
  - unfold front_calls in Hc.
    repeat (apply elem_of_cons in Hc as [-> | Hc];
            [repeat split; intros; discriminate|]).
    apply elem_of_nil in Hc. contradiction.
  - repeat split; intros; discriminate.
  - repeat split; intros; discriminate.
Qed.

Lemma X2_no_checkpoint_below_threshold_witness :
  let w := Sample.world0 ["store prices"] in
  let b := Sample.block 100 "P1" in
  Number b < U64.add (startBlockNum Sample.pipe0) 10 /\
  exists o w' evs,
    runHandler Sample.pipe0 10 Sample.ords0 b w = (o, w') /\
    log w' = log w ++ evs /\
    forall ev, ev ∈ evs -> forall n, call_of ev <> CWriteState n.
Proof.
  intros w b.
  assert (H1 : Number b < U64.add (startBlockNum Sample.pipe0) 10)
    by (vm_compute; reflexivity).
  split; [exact H1|].
  destruct (runHandler Sample.pipe0 10 Sample.ords0 b w) as [o w'] eqn:Hrun.
  destruct (X2_no_checkpoint_below_threshold Sample.pipe0 10 Sample.ords0 b w o w' H1 Hrun)
    as (evs & Hl & Hno).
  exists o, w', evs. split; [reflexivity|]. split; [exact Hl|].
  intros ev Hin. apply (Hno ev Hin).
Defined.

(** ** A block that is not processed to the end *)

Lemma last_call_of_app (A l pre : list Call) (c : Call) :
  pre ++ [c] = A ++ l -> l <> [] -> c ∈ l.
Proof.
  intros Heq Hl.
  destruct (exists_last Hl) as (l' & x & ->).
  rewrite app_assoc in Heq. apply app_inj_tail in Heq as [_ ->].
  apply elem_of_app. right. apply list_elem_of_singleton. reflexivity.
Qed.

(** X3. The calls of a block that the handler does not process to the end
    are a prefix of the calls up to and including the [StoreBlock] loop:
    when an extractor or a builder fails no store is persisted, when
    [StoreBlock] fails the stores persisted are the ones before it in the
    order of the [range], and in no case is a delta buffer flushed. *)
Theorem X3_failed_block_is_a_prefix `{E : Env} (p : Pipeline) (blockCount : Z)
    (ords : Orders) (block : Block) (w : World) (o : Outcome) (w' : World) :
  stores_ok w ->
  ordStoreBlock ords ≡ₚ storeNames ->
  Number block < U64.add (startBlockNum p) blockCount ->
  runHandler p blockCount ords block w = (o, w') ->
  o <> Return None ->
  exists evs,
    log w' = log w ++ evs /\
    (exists rest,
       front_calls ++ map CStoreBlock (ordStoreBlock ords)
       = map call_of evs ++ rest) /\
    (forall n, CFlush n ∉ map call_of evs).
Proof.
  intros Hok HpS Hlt Hrun Hfail.
  destruct (handler_steady p blockCount ords block w o w' Hlt Hrun)
    as (evs & Hl & _ & _ & _ & [rest Hpre] & Ho).
  rewrite (visited_all _ _ Hok HpS) in Hpre.
  set (A := front_calls ++ map CStoreBlock (ordStoreBlock ords)) in *.
  assert (Hprefix : exists rest', A = map call_of evs ++ rest').
  { unfold steady_calls in Hpre. rewrite app_assoc in Hpre. fold A in Hpre.
    apply app_eq_app in Hpre. destruct Hpre as (l & [[HA _] | [Hcalls HF]]).
    - exists l. exact HA.
    - destruct l as [|c l]; [exists []; rewrite app_nil_r in *; auto|].
      exfalso.
      assert (Hflush : forall x, x ∈ c :: l -> exists m, x = CFlush m).
      { intros x Hx.
        assert (Hx' : x ∈ map CFlush (visited w (ordFlush ords)))
          by (rewrite HF; apply elem_of_app; left; exact Hx).
        apply list_elem_of_In, in_map_iff in Hx'. destruct Hx' as (m & <- & _). eauto. }
      destruct o as [[e|]| msg | msg].
      + destruct Ho as (pre & last & cause & -> & _ & _ & Hrep).
        rewrite map_app in Hcalls. cbn [map] in Hcalls.
        apply last_call_of_app in Hcalls; [|discriminate].
        destruct (Hflush _ Hcalls) as (m & Hm). rewrite Hm in Hrep. exact Hrep.
      + apply Hfail. reflexivity.
      + destruct Ho as [[_ ->] | (n & Hn & Hnone)].
        * cbn [map call_of] in Hcalls. unfold A, front_calls in Hcalls. discriminate.
        * assert (Hin : n ∈ dom (stores w))
            by (rewrite Hok; apply elem_of_list_to_set; exact Hn).
          apply elem_of_dom in Hin. rewrite Hnone in Hin. destruct Hin. discriminate.
      + exact Ho. }
  exists evs. split; [exact Hl|]. split; [exact Hprefix|].
  intros n Hin. destruct Hprefix as [rest' HA].
  apply (not_flush_front_store (ordStoreBlock ords) n).
  fold A. rewrite HA. apply elem_of_app. left. exact Hin.
Qed.

Lemma X3_failed_block_is_a_prefix_witness :
  let w := Sample.world0 ["store total_pairs"] in
  let b := Sample.block 100 "P1" in
  stores_ok w /\
  ordStoreBlock Sample.ords0 ≡ₚ storeNames /\
  Number b < U64.add (startBlockNum Sample.pipe0) 10 /\
  exists o w',
    runHandler Sample.pipe0 10 Sample.ords0 b w = (o, w') /\
    o <> Return None /\
    exists evs,
      log w' = log w ++ evs /\
      forall n, CFlush n ∉ map call_of evs.
Proof.
  intros w b.
  assert (H1 : stores_ok w) by (vm_compute; reflexivity).
  assert (H2 : ordStoreBlock Sample.ords0 ≡ₚ storeNames)
    by (apply (bool_decide_unpack _); vm_compute; exact I).
  assert (H3 : Number b < U64.add (startBlockNum Sample.pipe0) 10)
    by (vm_compute; reflexivity).
  repeat (split; [assumption|]).
  destruct (runHandler Sample.pipe0 10 Sample.ords0 b w) as [o w'] eqn:Hrun.
  assert (Ho : o <> Return None)
    by (apply (f_equal fst) in Hrun; vm_compute in Hrun; intros ->; discriminate).
  exists o, w'. split; [reflexivity|]. split; [exact Ho|].
  destruct (X3_failed_block_is_a_prefix Sample.pipe0 10 Sample.ords0 b w o w'
              H1 H2 H3 Hrun Ho) as (evs & Hl & _ & Hno).
  exists evs. split; [exact Hl | exact Hno].
Defined.

(** ** The map of stores across a call of the handler *)

Lemma handler_stop_dom `{E : Env} (p : Pipeline) (blockCount : Z) (ords : Orders)
    (block : Block) (w : World) (o : Outcome) (w' : World) :
  U64.add (startBlockNum p) blockCount <= Number block ->
  runHandler p blockCount ords block w = (o, w') ->
  o = Return (Some io_EOF) /\ dom (stores w') = dom (stores w).
Proof.
  intros Hge. unfold runHandler, run, handler.
  destruct (U64.add (startBlockNum p) blockCount <=? Number block) eqn:Hc;
    [clear Hc | apply Z.leb_gt in Hc; lia].
  unfold bind at 1.
  destruct (writeAll block (ordWriteState ords) w) as [r w1] eqn:Hw.
  apply writeAll_spec in Hw.
  destruct Hw as (-> & evs & _ & _ & _ & Hdom & _).
  unfold rpcCache_Save, bind, getIntr, getDStore, putIntr, putDStore, emit, ret, return_.
  cbn [intr dstore log stores].
  destruct (RPCCache_Save (intr w1) (dstore w1)) as [[err i'] d'].
  cbn [intr dstore log stores hub].
  intros [= <- <-]. split; [reflexivity | exact Hdom].
Qed.

(** X4. The handler neither adds nor removes a store: with the four stores
    in the map before a call they are in the map after it, whatever the
    outcome.  With them the handler never dereferences a missing store: it
    panics only below the threshold on a block that cannot be decoded, and
    it never ends the process. *)
Theorem X4_handler_keeps_the_stores `{E : Env} (p : Pipeline) (blockCount : Z)
    (ords : Orders) (block : Block) (w : World) (o : Outcome) (w' : World) :
  stores_ok w ->
  runHandler p blockCount ords block w = (o, w') ->
  stores_ok w' /\
  (forall msg, o <> Fatal msg) /\
  (forall msg,
     o = Panic msg ->
     msg = "interface conversion" /\ ToProtocol block = None /\
     Number block < U64.add (startBlockNum p) blockCount).
Proof.
  intros Hok Hrun. unfold stores_ok in *.
  destruct (Z_lt_le_dec (Number block) (U64.add (startBlockNum p) blockCount))
    as [Hlt | Hge].
  - destruct (handler_steady p blockCount ords block w o w' Hlt Hrun)
      as (evs & _ & _ & _ & Hdom & _ & Ho).
    split; [rewrite Hdom; exact Hok|]. split.
    + intros msg ->. exact Ho.
    + intros msg ->. destruct Ho as [[Hnone _] | (n & Hn & Hnone)].
      * destruct (handler_decode_panics p blockCount ords block w Hlt Hnone)
          as (w1 & Hrun1 & _).
        rewrite Hrun in Hrun1. injection Hrun1 as -> _. auto.
      * exfalso. assert (Hin : n ∈ dom (stores w))
          by (rewrite Hok; apply elem_of_list_to_set; exact Hn).
        apply elem_of_dom in Hin. rewrite Hnone in Hin. destruct Hin. discriminate.
  - destruct (handler_stop_dom p blockCount ords block w o w' Hge Hrun) as [-> Hdom].
    split; [rewrite Hdom; exact Hok|]. split; intros msg; discriminate.
Qed.

Lemma X4_handler_keeps_the_stores_witness :
  let w := Sample.world0 ["decode"] in
  let b := Sample.block 100 "P1" in
  stores_ok w /\
  exists o w',
    runHandler Sample.pipe0 10 Sample.ords0 b w = (o, w') /\
    stores_ok w'.
Proof.
  intros w b.
  assert (H1 : stores_ok w) by (vm_compute; reflexivity).
  split; [exact H1|].
  destruct (runHandler Sample.pipe0 10 Sample.ords0 b w) as [o w'] eqn:Hrun.
  exists o, w'. split; [reflexivity|].
  apply (X4_handler_keeps_the_stores Sample.pipe0 10 Sample.ords0 b w o w' H1 Hrun).
Defined.

(** ** The subscription hub *)

Lemma registerTopics_spec `{E : Env} (ord : list string) :
  forall w r w',
    rangeStores ord
      (fun storeName _ =>
         h <- getHub ;;
         let '(err, h') := Hub_RegisterTopic storeName h in
         putHub h' ;;
         emit (EvRegisterTopic storeName err) ;;
         match err with
         | Some _ => fatal "pair subscriber register topic"
         | None => ret tt
         end) w = (r, w') ->
    stores w' = stores w /\ intr w' = intr w /\ dstore w' = dstore w /\
    ((r = Val tt /\
      log w' = log w ++ map (fun n => EvRegisterTopic n None) (visited w ord) /\
      hub w' = registerAll (visited w ord) (hub w))
     \/
     (exists pre n e rest,
        r = Stop (Fatal "pair subscriber register topic") /\
        visited w ord = pre ++ n :: rest /\
        log w' = log w ++ map (fun n => EvRegisterTopic n None) pre
                       ++ [EvRegisterTopic n (Some e)] /\
        hub w' = registerAll (pre ++ [n]) (hub w))).
Proof.
  induction ord as [|n ord IH]; intros w r w' H.
  - simpl in H. injection H as <- <-. repeat split. left.
    repeat split. simpl. rewrite app_nil_r. reflexivity.
  - simpl in H. unfold bind at 1 in H.
    destruct (stores w !! n) as [s|] eqn:Hs.
    + rewrite (visited_cons_in _ _ _ _ Hs).
      unfold bind, getHub, putHub, emit, ret, fatal in H. cbn [hub log stores] in H.
      destruct (Hub_RegisterTopic n (hub w)) as [err h'] eqn:Hr.
      cbn [hub log stores intr dstore] in H.
      destruct err as [e|].
      * injection H as <- <-. cbn [log stores intr dstore hub].
        repeat split. right. exists [], n, e, (visited w ord).
        repeat split. unfold registerAll. cbn [foldl app]. rewrite Hr. reflexivity.
      * apply IH in H. cbn [log stores intr dstore hub] in H.
        destruct H as (Hst & Hi & Hd & Hcase).
        repeat split; try assumption.
        match type of Hcase with
        | context [visited ?w1 ord] =>
            assert (Hv : visited w1 ord = visited w ord)
              by (apply visited_dom; reflexivity)
        end.
        rewrite Hv in Hcase. clear Hv.
        assert (Hreg : forall l, registerAll l h' = registerAll (n :: l) (hub w)).
        { intros l. unfold registerAll. cbn [foldl]. rewrite Hr. reflexivity. }
        destruct Hcase as [(-> & Hl & Hh) | (pre & m & e & rest & -> & Hv & Hl & Hh)].
        -- left. repeat split.
           ++ rewrite Hl. cbn [map]. rewrite <- app_assoc. reflexivity.
           ++ rewrite Hh. apply Hreg.
        -- right. exists (n :: pre), m, e, rest. repeat split.
           ++ rewrite Hv. reflexivity.
           ++ rewrite Hl. cbn [map]. rewrite <- !app_assoc. reflexivity.
           ++ rewrite Hh. apply Hreg.
    + rewrite (visited_cons_out _ _ _ Hs). apply IH in H. exact H.
Qed.

Lemma setupSubscriptionHub_spec `{E : Env} (ord : list string) (w : World)
    (r : Res unit) (w' : World) :
  stores_ok w ->
  ord ≡ₚ storeNames ->
  setupSubscriptionHub ord w = (r, w') ->
  stores w' = stores w /\ intr w' = intr w /\ dstore w' = dstore w /\
  ((r = Val tt /\
    log w' = log w ++ map (fun n => EvRegisterTopic n None) ord /\
    hub w' = registerAll ord NewHub)
   \/
   (exists pre n e rest,
      r = Stop (Fatal "pair subscriber register topic") /\
      ord = pre ++ n :: rest /\
      log w' = log w ++ map (fun n => EvRegisterTopic n None) pre
                     ++ [EvRegisterTopic n (Some e)] /\
      hub w' = registerAll (pre ++ [n]) NewHub)).
Proof.
  intros Hok Hperm H. unfold setupSubscriptionHub, bind at 1, putHub in H.
  apply registerTopics_spec in H. cbn [stores intr dstore log hub] in H.
  match type of H with
  | context [visited ?w1 ord] =>
      assert (Hv : visited w1 ord = ord)
        by (rewrite (visited_dom w w1 ord eq_refl); apply visited_all; assumption)
  end.
  rewrite Hv in H. exact H.
Qed.

(** X5. [setupSubscriptionHub] drops the hub there was, makes a new one and
    registers a topic for every store, in the order of the [range]; it
    touches nothing else.  The first [RegisterTopic] that fails ends the
    process, and the stores after it get no topic. *)
Theorem X5_a_topic_per_store `{E : Env} (ord : list string) (w : World)
    (r : Res unit) (w' : World) :
  stores_ok w ->
  ord ≡ₚ storeNames ->
  setupSubscriptionHub ord w = (r, w') ->
  stores w' = stores w /\ intr w' = intr w /\ dstore w' = dstore w /\
  ((r = Val tt /\
    log w' = log w ++ map (fun n => EvRegisterTopic n None) ord /\
    hub w' = registerAll ord NewHub)
   \/
   (exists pre n e rest,
      r = Stop (Fatal "pair subscriber register topic") /\
      ord = pre ++ n :: rest /\
      log w' = log w ++ map (fun n => EvRegisterTopic n None) pre
                     ++ [EvRegisterTopic n (Some e)] /\
      hub w' = registerAll (pre ++ [n]) NewHub)).
Proof. intros Hok Hperm H. exact (setupSubscriptionHub_spec ord w r w' Hok Hperm H). Qed.

Lemma X5_a_topic_per_store_witness :
  let w := Sample.world0 [] in
  let ord := ["prices"; "pairs"; "volume24h"; "total_pairs"] in
  stores_ok w /\
  ord ≡ₚ storeNames /\
  exists r w',
    @setupSubscriptionHub (Sample.env []) ord w = (r, w') /\
    stores w' = stores w.
Proof.
  intros w ord.
  assert (H1 : stores_ok w) by (vm_compute; reflexivity).
  assert (H2 : ord ≡ₚ storeNames)
    by (apply (bool_decide_unpack _); vm_compute; exact I).
  split; [exact H1|]. split; [exact H2|].
  destruct (@setupSubscriptionHub (Sample.env []) ord w) as [r w'] eqn:Hrun.
  exists r, w'. split; [reflexivity|].
  apply (X5_a_topic_per_store ord w r w' H1 H2 Hrun).
Defined.

(** X6. [setupSubscriptionHub] followed by [setupPrintPairUpdates], as in
    [runRoot]: the subscription to "pairs" is made once, on the new hub and
    after the topic of every store, "pairs" among them, was registered with
    success; when a registration fails there is no subscription.  A failing
    [Subscribe] ends the process. *)
Theorem X6_subscribe_after_the_topics `{E : Env} (ord : list string) (w : World)
    (r : Res unit) (w' : World) :
  stores_ok w ->
  ord ≡ₚ storeNames ->
  (setupSubscriptionHub ord ;; setupPrintPairUpdates) w = (r, w') ->
  (r = Stop (Fatal "pair subscriber register topic") /\
   forall ev, ev ∈ log w' -> (forall t, call_of ev = CSubscribe t -> ev ∈ log w))
  \/
  (exists err h',
     Hub_Subscribe "pairs" (registerAll ord NewHub) = (err, h') /\
     hub w' = h' /\
     log w' = log w ++ map (fun n => EvRegisterTopic n None) ord
                    ++ [EvSubscribe "pairs" err] /\
     "pairs" ∈ ord /\
     r = match err with
         | Some _ => Stop (Fatal "subscription hub subscribe")
         | None => Val tt
         end).
Proof.
  intros Hok Hperm H. unfold bind at 1 in H.
  destruct (setupSubscriptionHub ord w) as [r1 w1] eqn:H1.
  apply (setupSubscriptionHub_spec ord w r1 w1 Hok Hperm) in H1.
  destruct H1 as (_ & _ & _ & [(-> & Hl & Hh) | (pre & n & e & rest & -> & Hord & Hl & Hh)]).
  - right. unfold setupPrintPairUpdates, bind, getHub, putHub, emit, fatal, ret in H.
    rewrite Hh in H.
    destruct (Hub_Subscribe "pairs" (registerAll ord NewHub)) as [err h'] eqn:Hsub.
    cbn [hub log stores intr dstore] in H.
    exists err, h'. split; [reflexivity|].
    assert (Hin : "pairs" ∈ ord)
      by (rewrite Hperm; unfold storeNames; repeat constructor).
    destruct err as [e|]; injection H as <- <-; cbn [hub log];
      rewrite Hl, <- app_assoc; repeat split; assumption.
  - left. injection H as <- <-. split; [reflexivity|].
    intros ev Hin t Hc. rewrite Hl in Hin.
    rewrite !elem_of_app in Hin. destruct Hin as [Hin | [Hin | Hin]].
    + exact Hin.
    + apply list_elem_of_In, in_map_iff in Hin. destruct Hin as (m & <- & _). discriminate.
    + apply list_elem_of_singleton in Hin. subst ev. discriminate.
Qed.

Lemma X6_subscribe_after_the_topics_witness :
  let w := Sample.world0 [] in
  let ord := ["prices"; "pairs"; "volume24h"; "total_pairs"] in
  stores_ok w /\
  ord ≡ₚ storeNames /\
  exists r w',
    (@setupSubscriptionHub (Sample.env []) ord ;; setupPrintPairUpdates) w = (r, w') /\
    r <> Stop (Fatal "pair subscriber register topic").
Proof.
  intros w ord.
  assert (H1 : stores_ok w) by (vm_compute; reflexivity).
  assert (H2 : ord ≡ₚ storeNames)
    by (apply (bool_decide_unpack _); vm_compute; exact I).
  split; [exact H1|]. split; [exact H2|].
  destruct ((@setupSubscriptionHub (Sample.env []) ord ;; setupPrintPairUpdates) w)
    as [r w'] eqn:Hrun.
  exists r, w'. split; [reflexivity|].
  destruct (X6_subscribe_after_the_topics ord w r w' H1 H2 Hrun) as [[Hr _] | _].
  - apply (f_equal fst) in Hrun. vm_compute in Hrun. rewrite Hr in Hrun. discriminate.
  - apply (f_equal fst) in Hrun. vm_compute in Hrun. intros Hr. rewrite Hr in Hrun.
    discriminate.
Defined.

(** ** The stores of [runRoot] *)

(** X7. When one of the four [dstore] stores cannot be set up, [runRoot]
    returns that error wrapped with the context of the store, and calls
    nothing after the failing constructor: no [Init], no topic, no
    subscription, no block.  The map of stores and the hub are as they
    were; the RPC cache is loaded only before the last of the four. *)
Theorem X7_store_setup_failure `{E : Env} (genesisBlock : Z) (args : list string)
    (cfg : Config) (sch : Schedule) (w : World) (blockCount : Z)
    (o : Outcome) (w' : World) :
  parseBlockCount args = Val blockCount ->
  (NewDBinStore (blocks_store_url cfg) <> None \/
   NewStore (irr_indexes_url cfg) <> None \/
   NewStore "./rpc-cache" <> None \/
   NewStore (state_store_url cfg) <> None) ->
  run (runRoot genesisBlock args cfg sch) w = (o, w') ->
  stores w' = stores w /\ hub w' = hub w /\
  exists what context cause pre,
    o = Return (Some (ErrorfW context [] cause)) /\
    log w' = log w ++ pre ++ [EvNewStore what (Some cause)] /\
    ((what = "blocks" /\ context = "setting up blocks store: %w" /\
      NewDBinStore (blocks_store_url cfg) = Some cause /\ pre = [])
     \/
     (what = "irr" /\ context = "setting up irr blocks store: %w" /\
      NewStore (irr_indexes_url cfg) = Some cause /\
      pre = [EvNewStore "blocks" None])
     \/
     (what = "rpc-cache" /\ context = "setting up store for rpc-cache: %w" /\
      NewStore "./rpc-cache" = Some cause /\
      pre = [EvNewStore "blocks" None; EvNewStore "irr" None])
     \/
     (what = "state" /\ context = "setting up store for data: %w" /\
      NewStore (state_store_url cfg) = Some cause /\
      exists loaded,
        pre = [EvNewStore "blocks" None; EvNewStore "irr" None;
               EvNewStore "rpc-cache" None; EvCacheLoad loaded])).
Proof.
  intros Hparse Hfail Hrun.
  unfold run, runRoot in Hrun. rewrite Hparse in Hrun.
  unfold bind at 1, lift in Hrun. cbv beta iota in Hrun.
  unfold dstore_NewDBinStore, dstore_NewStore, rpcCache_Load in Hrun.
  destruct (NewDBinStore (blocks_store_url cfg)) as [e1|] eqn:H1.
  { cbn in Hrun. injection Hrun as <- <-. cbn. repeat split.
    exists "blocks", "setting up blocks store: %w", e1, []. repeat split. left. repeat split. }
  destruct (NewStore (irr_indexes_url cfg)) as [e2|] eqn:H2.
  { cbn in Hrun. injection Hrun as <- <-. cbn.
    repeat split.
    exists "irr", "setting up irr blocks store: %w", e2, [EvNewStore "blocks" None].
    repeat split.
    - rewrite <- app_assoc. reflexivity.
    - right. left. repeat split. }
  destruct (NewStore "./rpc-cache") as [e3|] eqn:H3.
  { cbn in Hrun.
    injection Hrun as <- <-. cbn. repeat split.
    exists "rpc-cache", "setting up store for rpc-cache: %w", e3,
      [EvNewStore "blocks" None; EvNewStore "irr" None].
    repeat split.
    - rewrite <- !app_assoc. reflexivity.
    - right. right. left. repeat split. }
  destruct (NewStore (state_store_url cfg)) as [e4|] eqn:H4.
  2: { exfalso. destruct Hfail as [H | [H | [H | H]]]; apply H; reflexivity. }
  unfold bind, emit, ret, check, getIntr, getDStore, putIntr, putDStore, return_ in Hrun.
  cbn [stores intr hub dstore log] in Hrun.

  cbn [stores intr hub dstore log] in Hrun.
  match type of Hrun with
  | context [RPCCache_Load ?i ?d] =>
      destruct (RPCCache_Load i d) as [[loaded i'] d'] eqn:Hload
  end.
  cbn [stores intr hub dstore log] in Hrun.

  injection Hrun as <- <-. cbn [stores intr hub dstore log]. repeat split.
  exists "state", "setting up store for data: %w", e4,
    [EvNewStore "blocks" None; EvNewStore "irr" None;
     EvNewStore "rpc-cache" None; EvCacheLoad loaded].
  repeat split.
  - rewrite <- !app_assoc. reflexivity.
  - right. right. right. repeat split. exists loaded. reflexivity.
Qed.

Lemma X7_store_setup_failure_witness :
  let E := Sample.env ["open ./state"] in
  let cfg := mkConfig 100 "./blocks" "./irr" "./state" "" in
  let w := Sample.world0 ["open ./state"] in
  let r := run (@runRoot E 0 ["5"] cfg (Sample.sch0 [])) w in
  parseBlockCount ["5"] = Val 5 /\
  stores r.2 = stores w /\
  r.1 = Return (Some (ErrorfW "setting up store for data: %w" []
                        (External "open ./state"))).
Proof.
  intros E cfg w r.
  assert (H1 : parseBlockCount ["5"] = Val 5) by (vm_compute; reflexivity).
  assert (H2 : @NewDBinStore E (blocks_store_url cfg) <> None \/
               @NewStore E (irr_indexes_url cfg) <> None \/
               @NewStore E "./rpc-cache" <> None \/
               @NewStore E (state_store_url cfg) <> None)
    by (right; right; right; vm_compute; discriminate).
  split; [exact H1|].
  destruct (X7_store_setup_failure 0 ["5"] cfg (Sample.sch0 []) w 5 r.1 r.2 H1 H2
              (surjective_pairing r))
    as (Hst & _ & what & ctx & cause & pre & Ho & _ & Hcase).
  split; [exact Hst|].
  rewrite Ho.
  destruct Hcase as [(_ & _ & Hc & _) | [(_ & _ & Hc & _) | [(_ & _ & Hc & _) | (_ & -> & Hc & _)]]];
    vm_compute in Hc; try discriminate.
  injection Hc as <-. reflexivity.
Defined.

(** ** The goroutine that prints the pair updates *)

Lemma printPairUpdates_printed (l : list (StateDelta * option error))
    (printed : list StateDelta) :
  (printPairUpdates l printed).1
  = printed ++ List.filter (fun d => HasPrefix (Key d) "pair") (delivered l).
Proof.
  revert printed. induction l as [|[d [e|]] l IH]; intros printed; simpl.
  - rewrite app_nil_r. reflexivity.
  - rewrite app_nil_r. reflexivity.
  - destruct (HasPrefix (Key d) "pair"); simpl.
    + rewrite IH, <- app_assoc. reflexivity.
    + apply IH.
Qed.

Lemma printPairUpdates_waiting (l : list (StateDelta * option error))
    (printed : list StateDelta) :
  (printPairUpdates l printed).2 = None <-> Forall (fun x => x.2 = None) l.
Proof.
  revert printed. induction l as [|[d [e|]] l IH]; intros printed; simpl.
  - split; [constructor | reflexivity].
  - split; [discriminate | intros H; inversion H; discriminate].
  - destruct (HasPrefix (Key d) "pair"); simpl; rewrite IH;
      (split; [intros H; constructor; [reflexivity | exact H]
              | intros H; inversion H; assumption]).
Qed.

Lemma printPairUpdates_fatal (l : list (StateDelta * option error))
    (printed : list StateDelta) :
  (printPairUpdates l printed).2 = Some (Fatal "pair subscriber next")
  <-> exists d e, (d, Some e) ∈ l.
Proof.
  revert printed. induction l as [|[d [e|]] l IH]; intros printed; simpl.
  - split; [discriminate | intros (d & e & H); apply elem_of_nil in H; destruct H].
  - split; [intros _; exists d, e; apply list_elem_of_here | reflexivity].
  - assert (Hiff : (exists d0 e0, (d0, Some e0) ∈ (d, None) :: l)
                   <-> exists d0 e0, (d0, Some e0) ∈ l).
    { split; intros (d0 & e0 & H); exists d0, e0.
      - apply elem_of_cons in H. destruct H as [H | H]; [discriminate | exact H].
      - apply list_elem_of_further. exact H. }
    rewrite Hiff. destruct (HasPrefix (Key d) "pair"); simpl; apply IH.
Qed.

Lemma delivered_until_error (before after : list (StateDelta * option error))
    (d : StateDelta) (e : error) :
  delivered (before ++ (d, Some e) :: after) = delivered before.
Proof.
  induction before as [|[d' [e'|]] l IH]; simpl.
  - reflexivity.
  - reflexivity.
  - rewrite IH. reflexivity.
Qed.

(** X8. The loop of the goroutine ends only through [zlog.Fatal], on the
    first error of [Next]: as long as [Next] reports no error it goes on
    waiting, and an error ends the process with "pair subscriber next".
    The delta that came with the error is not printed, whatever its key,
    and nothing that [Next] would deliver afterwards is read. *)
Theorem X8_next_error_ends_the_loop (nexts : list (StateDelta * option error))
    (printed : list StateDelta) :
  ((printPairUpdates nexts printed).2 = None
   <-> Forall (fun x => x.2 = None) nexts) /\
  ((printPairUpdates nexts printed).2 = Some (Fatal "pair subscriber next")
   <-> exists d e, (d, Some e) ∈ nexts) /\
  (forall d e after,
     printPairUpdates (nexts ++ (d, Some e) :: after) printed
     = (printed ++ List.filter (fun d => HasPrefix (Key d) "pair") (delivered nexts),
        Some (Fatal "pair subscriber next"))).
Proof.
  split; [apply printPairUpdates_waiting|].
  split; [apply printPairUpdates_fatal|].
  intros d e after.
  pose proof (printPairUpdates_printed (nexts ++ (d, Some e) :: after) printed) as Hp.
  rewrite delivered_until_error in Hp.
  assert (Hf : (printPairUpdates (nexts ++ (d, Some e) :: after) printed).2
               = Some (Fatal "pair subscriber next")).
  { apply printPairUpdates_fatal. exists d, e.
    apply elem_of_app. right. apply list_elem_of_here. }
  destruct (printPairUpdates (nexts ++ (d, Some e) :: after) printed) as [p1 o1].
  simpl in Hp, Hf. subst. reflexivity.
Qed.

(** ** What [WriteState] is given at the stop *)

Lemma writeAll_view `{E : Env} (block : Block) (ord : list string) :
  NoDup ord ->
  forall (w : World) r w',
    writeAll block ord w = (r, w') ->
    exists evs,
      log w' = log w ++ evs /\
      (forall n s, n ∈ ord -> stores w !! n = Some s ->
         exists err after d d',
           Builder_WriteState block s d = (err, after, d') /\
           EvWriteState n (Number block) s after err ∈ evs /\
           stores w' !! n = Some after) /\
      (forall n, n ∉ ord -> stores w' !! n = stores w !! n) /\
      (forall ev, ev ∈ evs ->
         exists n s after err,
           ev = EvWriteState n (Number block) s after err /\
           n ∈ ord /\ stores w !! n = Some s).
Proof.
  induction ord as [|n ord IH]; intros Hnd w r w' H.
  - unfold writeAll in H. simpl in H. unfold ret in H. injection H as <- <-.
    exists []. rewrite app_nil_r. repeat split.
    + intros n s Hn. apply elem_of_nil in Hn. destruct Hn.
    + intros ev Hev. apply elem_of_nil in Hev. destruct Hev.
  - apply NoDup_cons in Hnd. destruct Hnd as [Hn Hnd].
    unfold writeAll in H. simpl in H. unfold bind at 1 in H.
    destruct (stores w !! n) as [s|] eqn:Hs.
    + unfold WriteState, bind, getDStore, putStore, putDStore, emit, ret in H.
      simpl in H.
      destruct (Builder_WriteState block s (dstore w)) as [[err s'] d'] eqn:Hc.
      simpl in H.
      apply (IH Hnd) in H. cbn [log stores] in H.
      destruct H as (evs & Hl & Hview & Hout & Hevs).
      exists (EvWriteState n (Number block) s s' err :: evs).
      split; [rewrite Hl, <- app_assoc; reflexivity|].
      split; [|split].
      * intros m sm Hm Hsm. apply elem_of_cons in Hm. destruct Hm as [-> | Hm].
        -- rewrite Hs in Hsm. injection Hsm as <-.
           exists err, s', (dstore w), d'. split; [exact Hc|].
           split; [apply list_elem_of_here|].
           rewrite (Hout n Hn). apply lookup_insert_eq.
        -- assert (Hne : n <> m) by (intros ->; contradiction).
           destruct (Hview m sm Hm) as (e & a & d & d2 & Hw & Hin & Hlk).
           { rewrite lookup_insert_ne by exact Hne. exact Hsm. }
           exists e, a, d, d2. split; [exact Hw|].
           split; [apply list_elem_of_further; exact Hin | exact Hlk].
      * intros m Hm. apply not_elem_of_cons in Hm. destruct Hm as [Hne Hm].
        rewrite (Hout m Hm). apply lookup_insert_ne. congruence.
      * intros ev Hev. apply elem_of_cons in Hev. destruct Hev as [-> | Hev].
        -- exists n, s, s', err. repeat split; [apply list_elem_of_here | exact Hs].
        -- destruct (Hevs ev Hev) as (m & sm & a & e & -> & Hm & Hsm).
           assert (Hne : n <> m) by (intros ->; contradiction).
           rewrite lookup_insert_ne in Hsm by exact Hne.
           exists m, sm, a, e. repeat split;
             [apply list_elem_of_further; exact Hm | exact Hsm].
    + apply (IH Hnd) in H.
      destruct H as (evs & Hl & Hview & Hout & Hevs).
      exists evs. split; [exact Hl|]. split; [|split].
      * intros m sm Hm Hsm. apply elem_of_cons in Hm. destruct Hm as [-> | Hm].
        -- rewrite Hs in Hsm. discriminate.
        -- apply Hview; assumption.
      * intros m Hm. apply not_elem_of_cons in Hm. destruct Hm as [_ Hm].
        apply Hout. exact Hm.
      * intros ev Hev. destruct (Hevs ev Hev) as (m & sm & a & e & -> & Hm & Hsm).
        exists m, sm, a, e. repeat split;
          [apply list_elem_of_further; exact Hm | exact Hsm].
Qed.

Lemma handler_stop_view `{E : Env} (p : Pipeline) (blockCount : Z) (ords : Orders)
    (block : Block) (w : World) (o : Outcome) (w' : World) :
  NoDup (ordWriteState ords) ->
  U64.add (startBlockNum p) blockCount <= Number block ->
  runHandler p blockCount ords block w = (o, w') ->
  exists evs err,
    log w' = log w ++ evs ++ [EvCacheSave err] /\
    hub w' = hub w /\
    (forall n s, n ∈ ordWriteState ords -> stores w !! n = Some s ->
       exists err after d d',
         Builder_WriteState block s d = (err, after, d') /\
         EvWriteState n (Number block) s after err ∈ evs /\
         stores w' !! n = Some after) /\
    (forall ev, ev ∈ evs ->
       exists n s after err,
         ev = EvWriteState n (Number block) s after err /\
         n ∈ ordWriteState ords /\ stores w !! n = Some s).
Proof.
  intros Hnd Hge H. unfold runHandler, run, handler in H.
  destruct (U64.add (startBlockNum p) blockCount <=? Number block) eqn:Hc;
    [clear Hc | apply Z.leb_gt in Hc; lia].
  unfold bind at 1 in H.
  destruct (writeAll block (ordWriteState ords) w) as [r w1] eqn:Hw.
  pose proof (writeAll_spec _ _ _ _ _ Hw) as (-> & _).
  assert (Hhub : hub w1 = hub w).
  { clear -Hw. revert w Hw. unfold writeAll.
    induction (ordWriteState ords) as [|n l IH]; intros w Hw.
    - simpl in Hw. injection Hw as <-. reflexivity.
    - simpl in Hw. unfold bind at 1 in Hw.
      destruct (stores w !! n) as [s|].
      + unfold WriteState, bind, getDStore, putStore, putDStore, emit, ret in Hw.
        simpl in Hw.
        destruct (Builder_WriteState block s (dstore w)) as [[err s'] d'].
        simpl in Hw. apply IH in Hw. exact Hw.
      + apply IH in Hw. exact Hw. }
  apply (writeAll_view _ _ Hnd) in Hw.
  destruct Hw as (evs & Hl & Hview & _ & Hevs).
  unfold rpcCache_Save, bind, getIntr, getDStore, putIntr, putDStore, emit, ret, return_ in H.
  cbn [intr dstore log stores hub] in H.
  destruct (RPCCache_Save (intr w1) (dstore w1)) as [[err i'] d'].
  cbn [intr dstore log stores hub] in H.
  injection H as <- <-. cbn [intr dstore log stores hub].
  exists evs, err. rewrite Hl, <- app_assoc.
  repeat split; assumption.
Qed.

(** X10. At the stop, every store is handed to [WriteState] as the handler
    found it, together with the block that reached the threshold: writing
    one store changes no other, and the errors that are dropped stop
    nothing.  What [WriteState] leaves of each store is what the pipeline
    holds afterwards; the hub is not used. *)
Theorem X10_checkpoint_of_every_store `{E : Env} (p : Pipeline) (blockCount : Z)
    (ords : Orders) (block : Block) (w : World) (o : Outcome) (w' : World) :
  stores_ok w ->
  ordWriteState ords ≡ₚ storeNames ->
  U64.add (startBlockNum p) blockCount <= Number block ->
  runHandler p blockCount ords block w = (o, w') ->
  exists evs saved,
    log w' = log w ++ evs ++ [EvCacheSave saved] /\
    hub w' = hub w /\
    length evs = length storeNames /\
    forall n, n ∈ storeNames ->
      exists s err after d d',
        stores w !! n = Some s /\
        Builder_WriteState block s d = (err, after, d') /\
        EvWriteState n (Number block) s after err ∈ evs /\
        stores w' !! n = Some after.
Proof.
  intros Hok Hperm Hge H.
  destruct (perm_storeNames_NoDup _ Hperm) as [Hnd Hmem].
  destruct (handler_stop p blockCount ords block w Hge)
    as (w2 & evs2 & err2 & Hrun & Hl2 & Hcalls & _).
  rewrite H in Hrun. injection Hrun as -> <-.
  destruct (handler_stop_view p blockCount ords block w _ _ Hnd Hge H)
    as (evs & saved & Hl & Hhub & Hview & _).
  assert (Heq : evs2 = evs /\ err2 = saved).
  { rewrite Hl in Hl2. apply app_inv_head in Hl2.
    apply app_inj_tail in Hl2. destruct Hl2 as [-> Hs]. injection Hs as ->.
    split; reflexivity. }
  destruct Heq as [-> ->].
  exists evs, saved. split; [exact Hl|]. split; [exact Hhub|]. split.
  - rewrite (visited_all _ _ Hok Hperm) in Hcalls.
    rewrite <- (length_map call_of), Hcalls, length_map.
    apply Permutation_length. exact Hperm.
  - intros n Hn.
    assert (Hs : exists s, stores w !! n = Some s).
    { apply elem_of_dom. rewrite Hok. apply elem_of_list_to_set. exact Hn. }
    destruct Hs as [s Hs].
    destruct (Hview n s (proj1 (Hmem n) Hn) Hs) as (err & after & d & d' & Hw & Hin & Hlk).
    exists s, err, after, d, d'. repeat split; assumption.
Qed.

Lemma X10_checkpoint_of_every_store_witness :
  let E := Sample.env ["write prices"] in
  let w := Sample.world0 ["write prices"] in
  let r := @runHandler E Sample.pipe0 2 Sample.ords0 (Sample.block 102 "P1") w in
  stores_ok w /\
  ordWriteState Sample.ords0 ≡ₚ storeNames /\
  U64.add (startBlockNum Sample.pipe0) 2 <= Number (Sample.block 102 "P1") /\
  hub r.2 = hub w.
Proof.
  intros E w r.
  assert (H1 : stores_ok w) by (vm_compute; reflexivity).
  assert (H2 : ordWriteState Sample.ords0 ≡ₚ storeNames)
    by (apply (bool_decide_unpack _); vm_compute; exact I).
  assert (H3 : U64.add (startBlockNum Sample.pipe0) 2 <= Number (Sample.block 102 "P1"))
    by (vm_compute; discriminate).
  repeat (split; [assumption|]).
  destruct (X10_checkpoint_of_every_store Sample.pipe0 2 Sample.ords0
              (Sample.block 102 "P1") w r.1 r.2 H1 H2 H3 (surjective_pairing r))
    as (evs & saved & _ & Hhub & _).
  exact Hhub.
Defined.

(** X11. A block processed with success, then the block that reaches the
    threshold: every store that [WriteState] is given has an empty delta
    buffer, the one the [Flush] loop of the block before left.  The
    checkpoint is taken at the stopping block and holds no delta of it,
    since that block is not processed. *)
Theorem X11_checkpoint_after_flush `{E : Env} (p : Pipeline) (blockCount : Z)
    (ords1 ords2 : Orders) (block1 block2 : Block) (w w1 : World)
    (o : Outcome) (w2 : World) :
  ordFlush ords1 ≡ₚ storeNames ->
  ordWriteState ords2 ≡ₚ storeNames ->
  Number block1 < U64.add (startBlockNum p) blockCount ->
  U64.add (startBlockNum p) blockCount <= Number block2 ->
  runHandler p blockCount ords1 block1 w = (Return None, w1) ->
  runHandler p blockCount ords2 block2 w1 = (o, w2) ->
  o = Return (Some io_EOF) /\
  exists evs saved,
    log w2 = log w1 ++ evs ++ [EvCacheSave saved] /\
    forall ev, ev ∈ evs ->
      exists n s after err,
        ev = EvWriteState n (Number block2) s after err /\
        stores w1 !! n = Some s /\ Deltas s = [].
Proof.
  intros Hpf Hpw Hlt Hge H1 H2.
  destruct (perm_storeNames_NoDup _ Hpw) as [Hnd Hmw].
  destruct (perm_storeNames_NoDup _ Hpf) as [_ Hmf].
  destruct (handler_steady p blockCount ords1 block1 w _ _ Hlt H1)
    as (evs1 & _ & _ & _ & _ & _ & _ & _ & Hempty).
  split.
  { destruct (handler_stop p blockCount ords2 block2 w1 Hge) as (w3 & ? & ? & Hrun & _).
    rewrite H2 in Hrun. injection Hrun as -> _. reflexivity. }
  destruct (handler_stop_view p blockCount ords2 block2 w1 _ _ Hnd Hge H2)
    as (evs & saved & Hl & _ & _ & Hevs).
  exists evs, saved. split; [exact Hl|].
  intros ev Hev. destruct (Hevs ev Hev) as (n & s & after & err & -> & Hn & Hs).
  exists n, s, after, err. repeat split; [exact Hs|].
  apply (Hempty n s Hs). apply Hmf, Hmw. exact Hn.
Qed.

Lemma X11_checkpoint_after_flush_witness :
  let E := Sample.env [] in
  let w := Sample.world0 [] in
  let r1 := @runHandler E Sample.pipe0 1 Sample.ords0 (Sample.block 100 "P1") w in
  let r2 := @runHandler E Sample.pipe0 1 Sample.ords0 (Sample.block 101 "P2") r1.2 in
  ordFlush Sample.ords0 ≡ₚ storeNames /\
  ordWriteState Sample.ords0 ≡ₚ storeNames /\
  Number (Sample.block 100 "P1") < U64.add (startBlockNum Sample.pipe0) 1 /\
  U64.add (startBlockNum Sample.pipe0) 1 <= Number (Sample.block 101 "P2") /\
  r1.1 = Return None /\
  r2.1 = Return (Some io_EOF).
Proof.
  intros E w r1 r2.
  assert (H1 : ordFlush Sample.ords0 ≡ₚ storeNames)
    by (apply (bool_decide_unpack _); vm_compute; exact I).
  assert (H2 : ordWriteState Sample.ords0 ≡ₚ storeNames)
    by (apply (bool_decide_unpack _); vm_compute; exact I).
  assert (H3 : Number (Sample.block 100 "P1") < U64.add (startBlockNum Sample.pipe0) 1)
    by (vm_compute; reflexivity).
  assert (H4 : U64.add (startBlockNum Sample.pipe0) 1 <= Number (Sample.block 101 "P2"))
    by (vm_compute; discriminate).
  assert (H5 : r1.1 = Return None) by (vm_compute; reflexivity).
  repeat (split; [assumption|]).
  assert (Hrun1 : @runHandler E Sample.pipe0 1 Sample.ords0 (Sample.block 100 "P1") w
                  = (Return None, r1.2))
    by (exact (eq_trans (surjective_pairing r1) (f_equal (fun o => (o, r1.2)) H5))).
  destruct (X11_checkpoint_after_flush Sample.pipe0 1 Sample.ords0 Sample.ords0
              (Sample.block 100 "P1") (Sample.block 101 "P2") w r1.2 r2.1 r2.2
              H1 H2 H3 H4 Hrun1 (surjective_pairing r2)) as [Ho _].
  exact Ho.
Defined.

(** ** What [loadStateFromDisk] leaves *)

Lemma loadStateFromDisk_view `{E : Env} (start : Z) (ord : list string) :
  NoDup ord ->
  forall (w : World) r w',
    (forall n, n ∈ ord -> is_Some (stores w !! n)) ->
    loadStateFromDisk ord start w = (r, w') ->
    exists done rest evs,
      ord = done ++ rest /\
      log w' = log w ++ evs /\
      map call_of evs = map CInit done /\
      (forall n, n ∈ done ->
         exists s err after d d',
           stores w !! n = Some s /\
           Builder_Init start s d = (err, after, d') /\
           EvInit n start s after err ∈ evs /\
           stores w' !! n = Some after) /\
      (forall n, n ∉ done -> stores w' !! n = stores w !! n) /\
      match r with
      | Val _ => rest = [] /\ Forall no_error evs
      | Stop o =>
          exists pre n before after cause evs0,
            done = pre ++ [n] /\
            evs = evs0 ++ [EvInit n start before after (Some cause)] /\
            Forall no_error evs0 /\
            o = Return (Some
                  (ErrorfW "could not load state for store %s at block num %d: %w"
                           [OpString n; OpUint start] cause))
      end.
Proof.
  induction ord as [|n ord IH]; intros Hnd w r w' Hall H.
  - unfold loadStateFromDisk in H. simpl in H. unfold ret in H. injection H as <- <-.
    exists [], [], [].
    split; [reflexivity|]. split; [rewrite app_nil_r; reflexivity|].
    split; [reflexivity|].
    split; [intros n Hn; apply elem_of_nil in Hn; destruct Hn|].
    split; [reflexivity|]. split; [reflexivity | constructor].
  - apply NoDup_cons in Hnd. destruct Hnd as [Hn Hnd].
    unfold loadStateFromDisk in H. simpl in H. unfold bind at 1 in H.
    destruct (Hall n (list_elem_of_here _ _)) as [s Hs]. rewrite Hs in H.
    unfold store_Init, bind, getDStore, putStore, putDStore, emit, ret, check in H.
    simpl in H.
    destruct (Builder_Init start s (dstore w)) as [[err s'] d'] eqn:Hc.
    simpl in H.
    destruct err as [e|]; simpl in H.
    + unfold return_ in H. injection H as <- <-. cbn [log stores].
      exists [n], ord, [EvInit n start s s' (Some e)].
      repeat split.
      * intros m Hm. apply list_elem_of_singleton in Hm. subst m.
        exists s, (Some e), s', (dstore w), d'.
        repeat split; [exact Hs | exact Hc | apply list_elem_of_here
                      | apply lookup_insert_eq].
      * intros m Hm. apply lookup_insert_ne. intros ->. apply Hm, list_elem_of_here.
      * exists [], n, s, s', e, []. repeat split. constructor.
    + match type of H with
      | rangeStores _ _ ?w1 = _ =>
          assert (Hall1 : forall m, m ∈ ord -> is_Some (stores w1 !! m))
      end.
      { intros m Hm. cbn [stores].
        assert (Hne : n <> m) by (intros ->; contradiction).
        rewrite lookup_insert_ne by exact Hne.
        apply Hall, list_elem_of_further, Hm. }
      apply (IH Hnd _ _ _ Hall1) in H. cbn [log stores] in H.
      destruct H as (done & rest & evs & Hord & Hl & Hcalls & Hview & Hout & Hr).
      assert (Hnot : n ∉ done).
      { intros Hin. apply Hn. rewrite Hord. apply elem_of_app. left. exact Hin. }
      exists (n :: done), rest, (EvInit n start s s' None :: evs).
      split; [rewrite Hord; reflexivity|].
      split; [rewrite Hl, <- app_assoc; reflexivity|].
      split; [cbn [map call_of]; rewrite Hcalls; reflexivity|].
      split; [|split].
      * intros m Hm. apply elem_of_cons in Hm. destruct Hm as [-> | Hm].
        -- exists s, None, s', (dstore w), d'.
           repeat split; [exact Hs | exact Hc | apply list_elem_of_here|].
           rewrite (Hout n Hnot). apply lookup_insert_eq.
        -- assert (Hne : n <> m) by (intros ->; contradiction).
           destruct (Hview m Hm) as (sm & e & a & d & d2 & Hsm & Hi & Hin & Hlk).
           rewrite lookup_insert_ne in Hsm by exact Hne.
           exists sm, e, a, d, d2.
           repeat split; [exact Hsm | exact Hi | apply list_elem_of_further; exact Hin
                         | exact Hlk].
      * intros m Hm. apply not_elem_of_cons in Hm. destruct Hm as [Hne Hm].
        rewrite (Hout m Hm). apply lookup_insert_ne. congruence.
      * destruct r as [[]|o].
        -- destruct Hr as [-> Hne]. split; [reflexivity|].
           constructor; [reflexivity | exact Hne].
        -- destruct Hr as (pre & k & b & a & cause & evs0 & -> & -> & Hne & ->).
           exists (n :: pre), k, b, a, cause, (EvInit n start s s' None :: evs0).
           repeat split. constructor; [reflexivity | exact Hne].
Qed.

(** X12. [loadStateFromDisk] gives every store to [Init] as the map held
    it before the loop, one store after the other, and keeps what [Init]
    left.  When an [Init] fails the loop stops there: the stores before it
    stay initialised, the failing one stays as its [Init] left it, the
    ones the loop did not reach are untouched, and the error names the
    failing store and the height. *)
Theorem X12_state_loaded_store_by_store `{E : Env} (ord : list string) (start : Z)
    (w : World) (r : Res unit) (w' : World) :
  stores_ok w ->
  ord ≡ₚ storeNames ->
  loadStateFromDisk ord start w = (r, w') ->
  exists done rest evs,
    ord = done ++ rest /\
    log w' = log w ++ evs /\
    map call_of evs = map CInit done /\
    (forall n, n ∈ done ->
       exists s err after d d',
         stores w !! n = Some s /\
         Builder_Init start s d = (err, after, d') /\
         EvInit n start s after err ∈ evs /\
         stores w' !! n = Some after) /\
    (forall n, n ∉ done -> stores w' !! n = stores w !! n) /\
    match r with
    | Val _ => rest = [] /\ Forall no_error evs
    | Stop o =>
        exists pre n before after cause evs0,
          done = pre ++ [n] /\
          evs = evs0 ++ [EvInit n start before after (Some cause)] /\
          Forall no_error evs0 /\
          o = Return (Some
                (ErrorfW "could not load state for store %s at block num %d: %w"
                         [OpString n; OpUint start] cause))
    end.
Proof.
  intros Hok Hperm H.
  destruct (perm_storeNames_NoDup _ Hperm) as [Hnd Hmem].
  apply (loadStateFromDisk_view start ord Hnd w r w'); [|exact H].
  intros n Hn. apply elem_of_dom. rewrite Hok. apply elem_of_list_to_set.
  apply Hmem. exact Hn.
Qed.

Lemma X12_state_loaded_store_by_store_witness :
  let E := Sample.env ["init volume24h"] in
  let w := Sample.world0 ["init volume24h"] in
  let ord := ["prices"; "pairs"; "volume24h"; "total_pairs"] in
  let r := @loadStateFromDisk E ord 100 w in
  stores_ok w /\
  ord ≡ₚ storeNames /\
  exists done rest evs,
    ord = done ++ rest /\
    log r.2 = log w ++ evs /\
    map call_of evs = map CInit done.
Proof.
  intros E w ord r.
  assert (H1 : stores_ok w) by (vm_compute; reflexivity).
  assert (H2 : ord ≡ₚ storeNames)
    by (apply (bool_decide_unpack _); vm_compute; exact I).
  repeat (split; [assumption|]).
  destruct (X12_state_loaded_store_by_store ord 100 w r.1 r.2 H1 H2
              (surjective_pairing r))
    as (done & rest & evs & Hord & Hl & Hcalls & _).
  exists done, rest, evs. repeat split; assumption.
Defined.

(** ** Set-up first, blocks afterwards *)

Lemma handler_serving `{E : Env} (p : Pipeline) (blockCount : Z) (ords : Orders)
    (block : Block) (w : World) (o : Outcome) (w' : World) :
  runHandler p blockCount ords block w = (o, w') ->
  (forall msg, o <> Fatal msg) /\
  exists evs,
    log w' = log w ++ evs /\
    Forall (fun ev => setup_call (call_of ev) = false) evs.
Proof.
  intros Hrun.
  destruct (Z_lt_le_dec (Number block) (U64.add (startBlockNum p) blockCount))
    as [Hlt | Hge].
  - destruct (handler_steady p blockCount ords block w o w' Hlt Hrun)
      as (evs & Hl & _ & _ & _ & [rest Hpre] & Ho).
    split; [intros msg ->; exact Ho|].
    exists evs. split; [exact Hl|].
    assert (Hall : Forall (fun c => setup_call c = false)
                     (steady_calls (visited w (ordStoreBlock ords))
                                   (visited w (ordFlush ords)))).
    { unfold steady_calls. apply Forall_app. split; [|apply Forall_app; split].
      - unfold front_calls. repeat (constructor; [reflexivity|]). constructor.
      - apply Forall_forall. intros c Hin.
        apply list_elem_of_In, in_map_iff in Hin. destruct Hin as (a & <- & _).
        reflexivity.
      - apply Forall_forall. intros c Hin.
        apply list_elem_of_In, in_map_iff in Hin. destruct Hin as (a & <- & _).
        reflexivity. }
    rewrite Hpre in Hall. apply Forall_app in Hall. destruct Hall as [Hall _].
    apply Forall_forall. intros ev Hin. rewrite Forall_forall in Hall.
    apply Hall. apply list_elem_of_In, in_map, list_elem_of_In. exact Hin.
  - destruct (handler_stop p blockCount ords block w Hge)
      as (w2 & evs & err & Hrun2 & Hl & Hcalls & _).
    rewrite Hrun in Hrun2. injection Hrun2 as -> ->.
    split; [discriminate|].
    exists (evs ++ [EvCacheSave err]). split; [exact Hl|].
    apply Forall_app. split; [|constructor; [reflexivity | constructor]].
    apply Forall_forall. intros ev Hin.
    assert (Hc : call_of ev ∈ map CWriteState (visited w (ordWriteState ords))).
    { rewrite <- Hcalls. apply list_elem_of_In, in_map, list_elem_of_In. exact Hin. }
    apply list_elem_of_In, in_map_iff in Hc. destruct Hc as (a & <- & _).
    reflexivity.
Qed.

Lemma hose_Run_serving `{E : Env} (p : Pipeline) (blockCount : Z)
    (blocks : list (Block * Orders)) :
  forall w r w',
    hose_Run p blockCount blocks w = (r, w') ->
    (forall msg, r <> Stop (Fatal msg)) /\
    exists evs,
      log w' = log w ++ evs /\
      Forall (fun ev => setup_call (call_of ev) = false) evs.
Proof.
  induction blocks as [|[block ords] rest IH]; intros w r w' H.
  - simpl in H. injection H as <- <-. split; [discriminate|].
    exists []. rewrite app_nil_r. split; [reflexivity | constructor].
  - simpl in H.
    destruct (runHandler p blockCount ords block w) as [o w1] eqn:Hrun.
    apply handler_serving in Hrun. destruct Hrun as (Hnf & evs1 & Hl1 & Hs1).
    destruct o as [[e|]|msg|msg].
    + injection H as <- <-. split; [discriminate|]. exists evs1. split; assumption.
    + apply IH in H. destruct H as (Hnf2 & evs2 & Hl2 & Hs2).
      split; [exact Hnf2|]. exists (evs1 ++ evs2).
      split; [rewrite Hl2, Hl1, <- app_assoc; reflexivity|].
      apply Forall_app. split; assumption.
    + injection H as <- <-. split; [discriminate|]. exists evs1. split; assumption.
    + exfalso. apply (Hnf msg). reflexivity.
Qed.

Lemma serve_spec `{E : Env} (ordT : list string) (pipe : Pipeline) (blockCount : Z)
    (blocks : list (Block * Orders)) (w : World) (r : Res unit) (w' : World) :
  stores_ok w ->
  ordT ≡ₚ storeNames ->
  (setupSubscriptionHub ordT ;;
   setupPrintPairUpdates ;;
   err <- hose_Run pipe blockCount blocks ;;
   check err (ErrorfW "running the firehose: %w" []) (return_ None : M unit)) w
  = (r, w') ->
  exists setup served,
    log w' = log w ++ setup ++ served /\
    Forall (fun ev => setup_call (call_of ev) = true) setup /\
    Forall (fun ev => setup_call (call_of ev) = false) served /\
    (served <> [] ->
     setup = map (fun n => EvRegisterTopic n None) ordT ++ [EvSubscribe "pairs" None]) /\
    (forall msg, r = Stop (Fatal msg) ->
       served = [] /\
       (msg = "pair subscriber register topic" \/ msg = "subscription hub subscribe")).
Proof.
  intros Hok Hperm H. unfold bind at 1 in H.
  destruct (setupSubscriptionHub ordT w) as [r1 w1] eqn:H1.
  apply (setupSubscriptionHub_spec ordT w r1 w1 Hok Hperm) in H1.
  assert (Hreg : forall l, Forall (fun ev => setup_call (call_of ev) = true)
                             (map (fun n => EvRegisterTopic n None) l)).
  { intros l. apply Forall_forall. intros ev Hin.
    apply list_elem_of_In, in_map_iff in Hin. destruct Hin as (a & <- & _). reflexivity. }
  destruct H1 as (_ & _ & _ & [(-> & Hl & Hh) | (pre & n & e & rest & -> & Hord & Hl & Hh)]).
  - unfold bind at 1, setupPrintPairUpdates, bind at 1, getHub in H.
    destruct (Hub_Subscribe "pairs" (hub w1)) as [err h'] eqn:Hsub.
    unfold bind, putHub, emit, fatal, ret in H. cbn [hub log stores intr dstore] in H.
    destruct err as [e|]; cbn [hub log stores intr dstore] in H.
    + injection H as <- <-. cbn [log].
      exists (map (fun n => EvRegisterTopic n None) ordT ++ [EvSubscribe "pairs" (Some e)]), [].
      split; [rewrite Hl, app_nil_r, <- app_assoc; reflexivity|].
      split; [apply Forall_app; split;
              [apply Hreg | constructor; [reflexivity | constructor]]|].
      split; [constructor|].
      split; [intros Hne; exfalso; apply Hne; reflexivity|].
      intros msg Hmsg. injection Hmsg as <-. split; [reflexivity | right; reflexivity].
    + match type of H with
      | context [hose_Run pipe blockCount blocks ?w2] =>
          destruct (hose_Run pipe blockCount blocks w2) as [r3 w3] eqn:Hh3
      end.
      apply hose_Run_serving in Hh3. destruct Hh3 as (Hnf & evs3 & Hl3 & Hs3).
      cbn [log] in Hl3.
      assert (Hw : w' = w3 /\ forall msg, r <> Stop (Fatal msg)).
      { destruct r3 as [[e|]|o3]; unfold check, return_ in H.
        - injection H as <- <-. split; [reflexivity | discriminate].
        - injection H as <- <-. split; [reflexivity | discriminate].
        - injection H as <- <-. split; [reflexivity|].
          intros msg Hm. apply (Hnf msg). injection Hm as ->. reflexivity. }
      destruct Hw as [-> Hnf'].
      exists (map (fun n => EvRegisterTopic n None) ordT ++ [EvSubscribe "pairs" None]), evs3.
      split; [rewrite Hl3, Hl, <- !app_assoc; reflexivity|].
      split; [apply Forall_app; split;
              [apply Hreg | constructor; [reflexivity | constructor]]|].
      split; [exact Hs3|].
      split; [reflexivity|].
      intros msg Hmsg. exfalso. apply (Hnf' msg). exact Hmsg.
  - injection H as <- <-.
    exists (map (fun n => EvRegisterTopic n None) pre ++ [EvRegisterTopic n (Some e)]), [].
    split; [rewrite Hl, app_nil_r; reflexivity|].
    split; [apply Forall_app; split;
            [apply Hreg | constructor; [reflexivity | constructor]]|].
    split; [constructor|].
    split; [intros Hne; exfalso; apply Hne; reflexivity|].
    intros msg Hmsg. injection Hmsg as <-. split; [reflexivity | left; reflexivity].
Qed.

(** X13. [runRoot] sets everything up before the first block is handled:
    its log is the set-up calls (object stores, cache load, [Init], topics,
    subscription) followed by the calls made for blocks, which are never
    set-up calls.  A block is handled only once every topic is registered
    and the subscription to "pairs" is made, both with success; when
    [zlog.Fatal] ends the process no block was handled. *)
Theorem X13_setup_before_blocks `{E : Env} (genesisBlock : Z) (args : list string)
    (cfg : Config) (sch : Schedule) (w : World) (blockCount : Z)
    (o : Outcome) (w' : World) :
  parseBlockCount args = Val blockCount ->
  ordTopics sch ≡ₚ storeNames ->
  run (runRoot genesisBlock args cfg sch) w = (o, w') ->
  exists setup served,
    log w' = log w ++ setup ++ served /\
    Forall (fun ev => setup_call (call_of ev) = true) setup /\
    Forall (fun ev => setup_call (call_of ev) = false) served /\
    (served <> [] ->
     exists before,
       setup = before ++ map (fun n => EvRegisterTopic n None) (ordTopics sch)
                      ++ [EvSubscribe "pairs" None]) /\
    (forall msg, o = Fatal msg ->
       served = [] /\
       (msg = "pair subscriber register topic" \/ msg = "subscription hub subscribe")).
Proof.
  intros Hparse Hperm H.
  unfold run, runRoot in H. rewrite Hparse in H.
  unfold bind at 1, lift in H. cbv beta iota in H.
  set (serve := bind (setupSubscriptionHub (ordTopics sch)) _) in H.
  set (load := loadStateFromDisk (ordInit sch) (U64.wrap (start_block cfg))) in H.
  match type of H with
  | context [NewSubstreamIntrinsics ?ep] => set (rpcEndpoint := ep) in H; clearbody rpcEndpoint
  end.
  assert (Hstop : forall evs e,
            Forall (fun ev => setup_call (call_of ev) = true) evs ->
            (o, w') = (Return (Some e), w') ->
            log w' = log w ++ evs ->
            exists setup served,
              log w' = log w ++ setup ++ served /\
              Forall (fun ev => setup_call (call_of ev) = true) setup /\
              Forall (fun ev => setup_call (call_of ev) = false) served /\
              (served <> [] ->
               exists before,
                 setup = before ++ map (fun n => EvRegisterTopic n None) (ordTopics sch)
                                ++ [EvSubscribe "pairs" None]) /\
              (forall msg, o = Fatal msg ->
                 served = [] /\
                 (msg = "pair subscriber register topic"
                  \/ msg = "subscription hub subscribe"))).
  { intros evs e Hset Ho Hl. injection Ho as ->.
    exists evs, []. split; [rewrite app_nil_r; exact Hl|].
    split; [exact Hset|]. split; [constructor|].
    split; [intros Hne; exfalso; apply Hne; reflexivity | discriminate]. }
  unfold dstore_NewDBinStore, dstore_NewStore, rpcCache_Load in H.
  unfold bind, lift, ret, emit, getIntr, putIntr, getDStore, putDStore, putStores,
    check, return_ in H.
  cbn [stores intr hub dstore log] in H.
  destruct (NewDBinStore (blocks_store_url cfg)) as [e1|].
  { injection H as <- <-. eapply Hstop; [|reflexivity|reflexivity].
    repeat constructor. }
  destruct (NewStore (irr_indexes_url cfg)) as [e2|].
  { injection H as <- <-. eapply Hstop; [|reflexivity|cbn [log]; rewrite <- !app_assoc; reflexivity].
    repeat constructor. }
  destruct (NewStore "./rpc-cache") as [e3|].
  { injection H as <- <-. eapply Hstop; [|reflexivity|cbn [log]; rewrite <- !app_assoc; reflexivity].
    repeat constructor. }
  match type of H with
  | context [RPCCache_Load ?i ?d] =>
      destruct (RPCCache_Load i d) as [[loaded i'] d'] eqn:Hload
  end.
  cbn [stores intr hub dstore log] in H.
  destruct (NewStore (state_store_url cfg)) as [e4|].
  { injection H as <- <-. eapply Hstop; [|reflexivity|cbn [log]; rewrite <- !app_assoc; reflexivity].
    repeat constructor. }
  clear Hstop.
  set (front := [EvNewStore "blocks" None; EvNewStore "irr" None;
                 EvNewStore "rpc-cache" None; EvCacheLoad loaded;
                 EvNewStore "state" None]).
  assert (Hfront : Forall (fun ev => setup_call (call_of ev) = true) front)
    by (repeat constructor).
  match type of H with
  | context [(if genesisBlock <? start_block cfg then load else _) ?W] =>
      set (w4 := W) in H
  end.
  assert (Hok4 : stores_ok w4) by (apply fresh_stores_ok; reflexivity).
  assert (Hl4 : log w4 = log w ++ front)
    by (unfold w4, front; cbn [log]; rewrite <- !app_assoc; reflexivity).
  clearbody w4.
  assert (Hserve : forall w5 inits,
            stores_ok w5 -> log w5 = log w4 ++ inits ->
            Forall (fun ev => setup_call (call_of ev) = true) inits ->
            match serve w5 with
            | (Val _, w6) => (Return None, w6)
            | (Stop o6, w6) => (o6, w6)
            end = (o, w') ->
            exists setup served,
              log w' = log w ++ setup ++ served /\
              Forall (fun ev => setup_call (call_of ev) = true) setup /\
              Forall (fun ev => setup_call (call_of ev) = false) served /\
              (served <> [] ->
               exists before,
                 setup = before ++ map (fun n => EvRegisterTopic n None) (ordTopics sch)
                                ++ [EvSubscribe "pairs" None]) /\
              (forall msg, o = Fatal msg ->
                 served = [] /\
                 (msg = "pair subscriber register topic"
                  \/ msg = "subscription hub subscribe"))).
  { intros w5 inits Hok5 Hl5 Hin5 Hs.
    destruct (serve w5) as [r6 w6] eqn:Hs6. subst serve.
    apply (serve_spec _ _ _ _ _ _ _ Hok5 Hperm) in Hs6.
    destruct Hs6 as (setup & served & Hl6 & Hset & Hsrv & Hne & Hfatal).
    assert (Hw : w6 = w') by (destruct r6; injection Hs as _ <-; reflexivity).
    subst w6.
    exists (front ++ inits ++ setup), served.
    split; [rewrite Hl6, Hl5, Hl4, <- !app_assoc; reflexivity|].
    split; [repeat (apply Forall_app; split); assumption|].
    split; [exact Hsrv|].
    split.
    - intros Hn. exists (front ++ inits). rewrite (Hne Hn), <- !app_assoc. reflexivity.
    - intros msg Hmsg. apply Hfatal. destruct r6 as [[]|o6].
      + injection Hs as <-. discriminate.
      + injection Hs as <-. rewrite Hmsg. reflexivity. }
  destruct (genesisBlock <? start_block cfg); cbv beta iota in H.
  - destruct (load w4) as [r5 w5] eqn:Hl5. subst load.
    apply loadStateFromDisk_spec in Hl5.
    destruct Hl5 as (inits & Hli & Hdom & Hat & Hcase).
    assert (Hinits : Forall (fun ev => setup_call (call_of ev) = true) inits).
    { apply Forall_forall. intros ev Hin. rewrite Forall_forall in Hat.
      destruct (Hat ev Hin) as (n & b & a & e & ->). reflexivity. }
    destruct r5 as [[]|o5].
    + apply (Hserve w5 inits); try assumption.
      unfold stores_ok in *. rewrite Hdom. exact Hok4.
    + injection H as <- <-.
      exists (front ++ inits), [].
      split; [rewrite Hli, Hl4, app_nil_r, <- !app_assoc; reflexivity|].
      split; [apply Forall_app; split; assumption|].
      split; [constructor|].
      split; [intros Hne; exfalso; apply Hne; reflexivity|].
      intros msg ->.
      destruct Hcase as [(Habs & _) | (? & ? & ? & ? & ? & ? & Habs & _)]; discriminate.
  - apply (Hserve w4 []); try assumption.
    + rewrite app_nil_r. reflexivity.
    + constructor.
Qed.

Lemma X13_setup_before_blocks_witness :
  let E := Sample.env [] in
  let w := Sample.world0 [] in
  let sch := Sample.sch0 [Sample.block 100 "P1"; Sample.block 101 "P2"] in
  let r := run (@runRoot E 50 ["1"] Sample.cfg0 sch) w in
  parseBlockCount ["1"] = Val 1 /\
  ordTopics sch ≡ₚ storeNames /\
  exists setup served,
    log r.2 = log w ++ setup ++ served /\
    Forall (fun ev => setup_call (call_of ev) = true) setup /\
    Forall (fun ev => setup_call (call_of ev) = false) served.
Proof.
  intros E w sch r.
  assert (H1 : parseBlockCount ["1"] = Val 1) by (vm_compute; reflexivity).
  assert (H2 : ordTopics sch ≡ₚ storeNames)
    by (apply (bool_decide_unpack _); vm_compute; exact I).
  repeat (split; [assumption|]).
  destruct (X13_setup_before_blocks 50 ["1"] Sample.cfg0 sch w 1 r.1 r.2 H1 H2
              (surjective_pairing r))
    as (setup & served & Hl & Hs & Hv & _).
  exists setup, served. repeat split; assumption.
Defined.

(** ** Which blocks are processed *)

(** X14. When [startBlockNum + blockCount] does not overflow, a block is
    processed exactly when its number is below that sum, and the stop
    transition is taken exactly from that number on.  There is no lower
    bound: a block below [startBlockNum] is processed like the others. *)
Theorem X14_processed_below_the_threshold `{E : Env} (p : Pipeline)
    (blockCount : Z) (ords : Orders) (block : Block) (w : World)
    (o : Outcome) (w' : World) :
  stores_ok w ->
  0 <= startBlockNum p -> 0 <= blockCount ->
  startBlockNum p + blockCount < U64.modulus ->
  runHandler p blockCount ords block w = (o, w') ->
  exists evs,
    log w' = log w ++ evs /\
    (Number block < startBlockNum p + blockCount
     <-> hd_error (map call_of evs) = Some CToProtocol) /\
    (startBlockNum p + blockCount <= Number block
     <-> CCacheSave ∈ map call_of evs) /\
    (Number block < startBlockNum p ->
     hd_error (map call_of evs) = Some CToProtocol).
Proof.
  intros Hok Hs Hb Hsum Hrun.
  assert (Hadd : U64.add (startBlockNum p) blockCount = startBlockNum p + blockCount).
  { unfold U64.add. apply U64Facts.wrap_small. unfold U64.in_range. lia. }
  destruct (Z_lt_le_dec (Number block) (startBlockNum p + blockCount)) as [Hlt | Hge].
  - assert (Hlt' : Number block < U64.add (startBlockNum p) blockCount)
      by (rewrite Hadd; exact Hlt).
    destruct (handler_steady p blockCount ords block w o w' Hlt' Hrun)
      as (evs & Hl & _ & _ & _ & [rest Hpre] & Ho).
    exists evs. split; [exact Hl|].
    assert (Hne : evs <> []).
    { intros ->. destruct o as [[e|]|msg|msg].
      - destruct Ho as (pre & last & cause & Heq & _).
        destruct pre; discriminate.
      - destruct Ho as (Hc & _). discriminate.
      - destruct Ho as [[_ Habs] | (n & Hn & Hmiss)]; [discriminate|].
        assert (Hin : n ∈ dom (stores w))
          by (rewrite Hok; apply elem_of_list_to_set; exact Hn).
        apply elem_of_dom in Hin. rewrite Hmiss in Hin. destruct Hin; discriminate.
      - exact Ho. }
    assert (Hhd : hd_error (map call_of evs) = Some CToProtocol).
    { destruct evs as [|ev evs]; [contradiction|].
      simpl in Hpre. injection Hpre as Hc _. simpl. rewrite <- Hc. reflexivity. }
    assert (Hnosave : CCacheSave ∉ map call_of evs).
    { intros Hin.
      assert (Hin' : CCacheSave ∈ steady_calls (visited w (ordStoreBlock ords))
                                               (visited w (ordFlush ords)))
        by (rewrite Hpre; apply elem_of_app; left; exact Hin).
      apply in_steady_calls in Hin'.
      destruct Hin' as [Hf | [(n & Hn & _) | (n & Hn & _)]]; try discriminate.
      unfold front_calls in Hf.
      repeat (apply elem_of_cons in Hf as [Hf | Hf]; [discriminate|]).
      apply elem_of_nil in Hf. exact Hf. }
    repeat split; try (intros; assumption).
    + intros Hge. lia.
    + intros Hin. contradiction.
  - assert (Hge' : U64.add (startBlockNum p) blockCount <= Number block)
      by (rewrite Hadd; exact Hge).
    destruct (handler_stop p blockCount ords block w Hge')
      as (w2 & evs & err & Hrun2 & Hl & Hcalls & _).
    rewrite Hrun in Hrun2. injection Hrun2 as -> ->.
    exists (evs ++ [EvCacheSave err]). split; [exact Hl|].
    assert (Hhd : hd_error (map call_of (evs ++ [EvCacheSave err])) <> Some CToProtocol).
    { rewrite map_app, Hcalls.
      destruct (visited w (ordWriteState ords)); simpl; discriminate. }
    repeat split.
    + intros Hlt. lia.
    + intros Hh. contradiction.
    + intros _. rewrite map_app. apply elem_of_app. right. apply list_elem_of_here.
    + intros _. exact Hge.
    + intros Hlt. lia.
Qed.

Lemma X14_processed_below_the_threshold_witness :
  let E := Sample.env [] in
  let w := Sample.world0 [] in
  let r := @runHandler E Sample.pipe0 3 Sample.ords0 (Sample.block 7 "P1") w in
  stores_ok w /\
  0 <= startBlockNum Sample.pipe0 /\
  0 <= 3 /\
  startBlockNum Sample.pipe0 + 3 < U64.modulus /\
  Number (Sample.block 7 "P1") < startBlockNum Sample.pipe0 /\
  exists evs,
    log r.2 = log w ++ evs /\
    hd_error (map call_of evs) = Some CToProtocol.
Proof.
  intros E w r.
  assert (H1 : stores_ok w) by (vm_compute; reflexivity).
  assert (H2 : 0 <= startBlockNum Sample.pipe0) by (vm_compute; discriminate).
  assert (H3 : 0 <= 3) by lia.
  assert (H4 : startBlockNum Sample.pipe0 + 3 < U64.modulus) by (vm_compute; reflexivity).
  assert (H5 : Number (Sample.block 7 "P1") < startBlockNum Sample.pipe0)
    by (vm_compute; reflexivity).
  repeat (split; [assumption|]).
  destruct (X14_processed_below_the_threshold Sample.pipe0 3 Sample.ords0
              (Sample.block 7 "P1") w r.1 r.2 H1 H2 H3 H4 (surjective_pairing r))
    as (evs & Hl & _ & _ & Hlow).
  exists evs. split; [exact Hl | exact (Hlow H5)].
Defined.
